(** * LanguageBridge: the read-aloud controller, its segmenter and its
      translation cache

    A shallow embedding of the orchestration code of
    [content/toolbar.ts] (class [LanguageBridgeToolbar]) and
    [content/azure-client.ts] (class [AzureClient]).

    - JavaScript strings are sequences of UTF-16 code units ([list N]);
      [length], [substring] and the regular expression of the segmenter
      (which has no [u] flag) all work on code units.
    - The [Map] of the translation cache is an association list in
      insertion order.
    - [async] functions are cut at their [await]s: a suspended call is a
      continuation stored in a task pool, and the environment (timers, the
      network, the speech engine) settles one of them at a time.
    - What the page answers when it is asked ([window.getSelection()],
      the Google Docs adapter) is part of the state and changes by events
      of its own. *)

From Stdlib Require Import List Bool Arith ZArith NArith Lia String Ascii.
From Stdlib Require DecimalString.
Import ListNotations.

(** ** JavaScript strings *)

Module Js.

Definition jsstring := list N.

(** An ASCII literal as a JavaScript string. *)
Definition lit (s : string) : jsstring :=
  map N_of_ascii (list_ascii_of_string s).

Fixpoint eqb (a b : jsstring) : bool :=
  match a, b with
  | [], [] => true
  | x :: a', y :: b' => N.eqb x y && eqb a' b'
  | _, _ => false
  end.

(** A string is truthy when it is not empty. *)
Definition truthy (s : jsstring) : bool :=
  match s with [] => false | _ => true end.

(** [WhiteSpace] and [LineTerminator] code units, the ones [trim] strips. *)
Definition isWhiteSpace (c : N) : bool :=
  ((9 <=? c) && (c <=? 13) || (c =? 32) || (c =? 160) || (c =? 5760)
   || (8192 <=? c) && (c <=? 8202) || (c =? 8232) || (c =? 8233)
   || (c =? 8239) || (c =? 8287) || (c =? 12288) || (c =? 65279))%N.

Fixpoint trimStart (s : jsstring) : jsstring :=
  match s with
  | c :: r => if isWhiteSpace c then trimStart r else s
  | [] => []
  end.

Definition trimEnd (s : jsstring) : jsstring := rev (trimStart (rev s)).

Definition trim (s : jsstring) : jsstring := trimEnd (trimStart s).

(** [s.substring(0, n)] for [0 <= n]. *)
Definition substring0 (n : nat) (s : jsstring) : jsstring := firstn n s.

(** [a.slice(start)] on arrays. *)
Definition slice {A : Type} (l : list A) (start : Z) : list A :=
  let len := Z.of_nat (List.length l) in
  let from := if (start <? 0)%Z then Z.max (len + start) 0 else Z.min start len in
  skipn (Z.to_nat from) l.

End Js.

Definition jsstring : Type := Js.jsstring.

(** ** The sentence segmenter ([splitIntoSentences], toolbar.ts) *)

Module Segmenter.

(** The character class [[.!?؟؛۔¿]] of [sentenceRegex]:
    U+002E, U+0021, U+003F, U+061F, U+061B, U+06D4 and U+00BF. *)
Definition terminators : list N := [46; 33; 63; 1567; 1563; 1748; 191]%N.

Definition isTerminator (c : N) : bool := existsb (N.eqb c) terminators.

(** The longest prefix whose code units satisfy [p], and the rest. *)
Fixpoint span (p : N -> bool) (s : jsstring) : jsstring * jsstring :=
  match s with
  | c :: r => if p c then let (a, b) := span p r in (c :: a, b) else ([], s)
  | [] => ([], [])
  end.

(** One attempt of [/[^.!?؟؛۔¿]+[.!?؟؛۔¿]+/] at the head of [s]: the
    matched text and what follows it.  Both quantifiers are greedy; when
    the longest run of non-terminators is not followed by a terminator the
    run reaches the end of the input, so no shorter run is followed by one
    either and backtracking cannot succeed. *)
Definition exec (s : jsstring) : option (jsstring * jsstring) :=
  let (body, r1) := span (fun c => negb (isTerminator c)) s in
  let (run, r2) := span isTerminator r1 in
  match body, run with
  | _ :: _, _ :: _ => Some (body ++ run, r2)
  | _, _ => None
  end.

(** The loop of [String.prototype.match] for a global regular expression:
    after a match the search resumes behind it, after a failure one code
    unit further. *)
Fixpoint matchLoop (fuel : nat) (s : jsstring) : list jsstring :=
  match fuel with
  | O => []
  | S fuel' =>
      match s with
      | [] => []
      | _ :: rest =>
          match exec s with
          | Some (m, r) => m :: matchLoop fuel' r
          | None => matchLoop fuel' rest
          end
      end
  end.

Definition matchAll (s : jsstring) : list jsstring :=
  matchLoop (List.length s) s.

(** [text.match(sentenceRegex)]: [null] when nothing matches. *)
Definition str_match (s : jsstring) : option (list jsstring) :=
  match matchAll s with
  | [] => None
  | ms => Some ms
  end.

Definition splitIntoSentences (text : jsstring) : list jsstring :=
  let sentences :=
    match str_match text with
    | Some ms => ms
    | None => [text]
    end in
  filter (fun s => (0 <? List.length s)%nat) (map Js.trim sentences).

End Segmenter.

(** ** Outcome of a call: it returns or it throws *)

Inductive Completion (A : Type) : Type :=
| Return (a : A)
| Throw (message : jsstring).
Arguments Return {A} a.
Arguments Throw {A} message.

(** ** [Map<string, string>] in insertion order *)

Module JsMap.

Definition t : Type := list (jsstring * jsstring).

Definition keys (m : t) : list jsstring := map fst m.

Fixpoint get (k : jsstring) (m : t) : option jsstring :=
  match m with
  | (k', v) :: r => if Js.eqb k' k then Some v else get k r
  | [] => None
  end.

Definition has (k : jsstring) (m : t) : bool :=
  match get k m with Some _ => true | None => false end.

(** [set] keeps the position of a key that is present and appends a new
    one. *)
Fixpoint set (k v : jsstring) (m : t) : t :=
  match m with
  | (k', v') :: r => if Js.eqb k' k then (k', v) :: r else (k', v') :: set k v r
  | [] => [(k, v)]
  end.

Fixpoint delete (k : jsstring) (m : t) : t :=
  match m with
  | (k', v') :: r => if Js.eqb k' k then r else (k', v') :: delete k r
  | [] => []
  end.

Definition size (m : t) : nat := List.length m.

(** [m.keys().next().value] *)
Definition firstKey (m : t) : option jsstring :=
  match m with
  | (k, _) :: _ => Some k
  | [] => None
  end.

End JsMap.

(** ** The translation client (azure-client.ts) *)

Module Azure.

Record AzureClient : Type := {
  demoPassword : option jsstring;
  translatorKey : option jsstring;
  translationCache : JsMap.t
}.

Definition maxCacheSize : nat := 100.

Definition withCache (c : AzureClient) (m : JsMap.t) : AzureClient :=
  {| demoPassword := demoPassword c;
     translatorKey := translatorKey c;
     translationCache := m |}.

(** A client as the constructor leaves it, once [init] has loaded the
    stored demo password. *)
Definition newClient (password : option jsstring) : AzureClient :=
  {| demoPassword := password; translatorKey := None; translationCache := [] |}.

(** [`${fromLang}-${toLang}-${text}`] *)
Definition cacheKey (text fromLang toLang : jsstring) : jsstring :=
  fromLang ++ [45%N] ++ toLang ++ [45%N] ++ text.

(** "Store in cache" and "Limit cache size" of [translateWithAzureDirect]
    and [translateViaBackend]. *)
Definition cacheStore (cap : nat) (key value : jsstring) (m : JsMap.t) : JsMap.t :=
  let m1 := JsMap.set key value m in
  if (cap <? JsMap.size m1)%nat then
    match JsMap.firstKey m1 with
    | Some firstKey => JsMap.delete firstKey m1
    | None => m1
    end
  else m1.

(** What the translator endpoint does with a request. *)
Inductive Response : Type :=
| Ok (translation : option jsstring)
    (** [response.ok]; the payload is [data[0]?.translations[0]?.text] *)
| HttpError (status errorText : jsstring)
    (** [!response.ok] *)
| NetworkError (message : jsstring).
    (** [fetch] rejects, or the body cannot be read as the expected JSON *)

(** The request did not produce a translation. *)
Definition failed (r : Response) : bool :=
  match r with
  | Ok _ => false
  | HttpError _ _ | NetworkError _ => true
  end.

(** The [try] block of [translateWithAzureDirect]. *)
Definition azureDirect_try (c : AzureClient) (text key : jsstring) (r : Response)
  : AzureClient * Completion jsstring :=
  match r with
  | NetworkError message => (c, Throw message)
  | HttpError status errorText =>
      (c, Throw (Js.lit "Azure Translator API error: " ++ status
                   ++ Js.lit " - " ++ errorText))
  | Ok translation =>
      let translatedText :=
        match translation with
        | Some t => if Js.truthy t then t else text
        | None => text
        end in
      (withCache c (cacheStore maxCacheSize key translatedText (translationCache c)),
       Return translatedText)
  end.

(** [translateWithAzureDirect]: the [catch] block returns the original
    text.  ([incrementUsage] only touches extension storage and catches its
    own errors.) *)
Definition translateWithAzureDirect (c : AzureClient) (text fromLang toLang key : jsstring)
  (r : Response) : AzureClient * Completion jsstring :=
  match azureDirect_try c text key r with
  | (c', Return translated) => (c', Return translated)
  | (c', Throw _) => (c', Return text)
  end.

(** [translateText] up to its only [await]. *)
Inductive Started : Type :=
| Cached (translation : jsstring)
| NoPassword (text : jsstring)
| Remote (key : jsstring).

Definition passwordActive (c : AzureClient) : bool :=
  match demoPassword c with
  | Some p => Js.truthy p
  | None => false
  end.

Definition translateText_start (c : AzureClient) (text fromLang toLang : jsstring) : Started :=
  let key := cacheKey text fromLang toLang in
  if JsMap.has key (translationCache c) then
    Cached (match JsMap.get key (translationCache c) with
            | Some v => if Js.truthy v then v else text
            | None => text
            end)
  else if negb (passwordActive c) then NoPassword text
  else Remote key.

(** A request sent to the translator endpoint. *)
Record Request : Type := {
  req_text : jsstring;
  req_from : jsstring;
  req_to : jsstring
}.

(** A whole call of [translateText]; [r] is the answer of the endpoint,
    used only when the call reaches it.  The result is the client
    afterwards, what the promise settles with and the requests issued. *)
Definition translateText (c : AzureClient) (text fromLang toLang : jsstring) (r : Response)
  : AzureClient * Completion jsstring * list Request :=
  match translateText_start c text fromLang toLang with
  | Cached v => (c, Return v, [])
  | NoPassword t => (c, Return t, [])
  | Remote key =>
      let (c', res) := translateWithAzureDirect c text fromLang toLang key r in
      (c', res, [{| req_text := text; req_from := fromLang; req_to := toLang |}])
  end.

(** *** Sequences of calls *)

(** A call of [translateText] together with the answer the endpoint has
    for it. *)
Record Call : Type := {
  call_text : jsstring;
  call_from : jsstring;
  call_to : jsstring;
  call_response : Response
}.

Definition callKey (q : Call) : jsstring :=
  cacheKey (call_text q) (call_from q) (call_to q).

(** The two calls are for the same triple of languages and text. *)
Definition sameTriple (q q' : Call) : bool :=
  Js.eqb (call_from q) (call_from q') && Js.eqb (call_to q) (call_to q')
  && Js.eqb (call_text q) (call_text q').

(** No two of the calls are for the same triple. *)
Fixpoint distinctTriples (qs : list Call) : bool :=
  match qs with
  | q :: r => negb (existsb (sameTriple q) r) && distinctTriples r
  | [] => true
  end.

(** The client after the call. *)
Definition translateCall (c : AzureClient) (q : Call) : AzureClient :=
  fst (fst (translateText c (call_text q) (call_from q) (call_to q) (call_response q))).

Definition translateAll (c : AzureClient) (qs : list Call) : AzureClient :=
  fold_left translateCall qs c.

(** The call is an insertion into the cache: it misses the cache, goes to
    the endpoint and gets a translation back. *)
Definition inserts (c : AzureClient) (q : Call) : bool :=
  match translateText_start c (call_text q) (call_from q) (call_to q), call_response q with
  | Remote _, Ok _ => true
  | _, _ => false
  end.

Fixpoint allInsert (c : AzureClient) (qs : list Call) : bool :=
  match qs with
  | q :: r => inserts c q && allInsert (translateCall c q) r
  | [] => true
  end.

(** What an insertion stores. *)
Definition storedEntry (q : Call) : jsstring * jsstring :=
  (callKey q,
   match call_response q with
   | Ok (Some t) => if Js.truthy t then t else call_text q
   | _ => call_text q
   end).

End Azure.

(** ** Conversation mode (toolbar.ts) *)

Module Conversation.

Inductive AudioMode : Type := Auto | Speaker | Headphone.

Definition toggleAudioMode (m : AudioMode) : AudioMode :=
  match m with
  | Auto => Speaker
  | Speaker => Headphone
  | Headphone => Auto
  end.

(** The text [updateAudioModeDisplay] puts next to the icon. *)
Definition audioModeText (m : AudioMode) (hasHeadphones : bool) : jsstring :=
  match m with
  | Auto => if hasHeadphones then Js.lit "Headphone" else Js.lit "Speaker"
  | Speaker => Js.lit "Speaker"
  | Headphone => Js.lit "Headphone"
  end.

Definition isMode (m m' : AudioMode) : bool :=
  match m, m' with
  | Auto, Auto | Speaker, Speaker | Headphone, Headphone => true
  | _, _ => false
  end.

(** [shouldPlayAudio] of [handleTeacherSpeak]. *)
Definition teacherShouldPlayAudio (m : AudioMode) (hasHeadphones : bool) : bool :=
  isMode m Speaker || (isMode m Auto && negb hasHeadphones) || isMode m Headphone.

(** [shouldPlayAudio] of [handleStudentSpeak]. *)
Definition studentShouldPlayAudio (m : AudioMode) (hasHeadphones : bool) : bool :=
  isMode m Speaker || (isMode m Auto && negb hasHeadphones).

(** What happens while a turn waits for the final transcript. *)
Inductive RecognitionEvent : Type :=
| Result (text : jsstring) (isFinal : bool)   (** [onResult] *)
| Error (error : jsstring)                    (** [onError] *)
| Timeout.                                    (** the 10 s timer *)

(** One event on the promise of the final transcript: [finalText] and how
    the promise has settled so far. *)
Definition onEvent (st : jsstring * option (Completion jsstring)) (e : RecognitionEvent)
  : jsstring * option (Completion jsstring) :=
  let (finalText, settled) := st in
  let settleWith c := match settled with Some _ => settled | None => Some c end in
  match e with
  | Result text isFinal =>
      if isFinal && Js.truthy text then (text, settleWith (Return text))
      else (finalText, settled)
  | Error error => (finalText, settleWith (Throw error))
  | Timeout =>
      if negb (Js.truthy finalText)
      then (finalText, settleWith (Throw (Js.lit "Speech recognition timeout")))
      else (finalText, settled)
  end.

(** How the promise of the final transcript stands after [es]. *)
Definition recognizedText (es : list RecognitionEvent) : option (Completion jsstring) :=
  snd (fold_left onEvent es ([], None)).

(** An event that cannot settle the promise of the final transcript: an
    interim result, or a result without text. *)
Definition undecided (e : RecognitionEvent) : Prop :=
  match e with
  | Result text isFinal => isFinal && Js.truthy text = false
  | _ => False
  end.

End Conversation.

(** ** The playback controller (toolbar.ts) *)

Module Toolbar.

(** The fields of [LanguageBridgeToolbar] that the reading logic uses.
    [abortController] holds the index of its signal in the store of
    signals of the world below. *)
Record LanguageBridgeToolbar : Type := {
  isReading : bool;
  isPaused : bool;
  isTranslating : bool;
  userLanguage : jsstring;
  selectedText : jsstring;
  abortController : option nat;
  lastReadTime : Z;
  cachedTranslation : option jsstring;
  cachedOriginalText : option jsstring;
  translationSentences : list jsstring;
  currentSentenceIndex : Z;
  audioMode : Conversation.AudioMode;
  hasHeadphones : bool
}.

Definition cooldownMs : Z := 500.

(** The field initialisers of the class. *)
Definition newToolbar (language : jsstring) : LanguageBridgeToolbar :=
  {| isReading := false; isPaused := false; isTranslating := false;
     userLanguage := language; selectedText := [];
     abortController := None; lastReadTime := 0;
     cachedTranslation := None; cachedOriginalText := None;
     translationSentences := []; currentSentenceIndex := 0;
     audioMode := Conversation.Auto; hasHeadphones := false |}.

Definition setFlags (reading paused translating : bool) (t : LanguageBridgeToolbar) :=
  {| isReading := reading; isPaused := paused; isTranslating := translating;
     userLanguage := userLanguage t; selectedText := selectedText t;
     abortController := abortController t; lastReadTime := lastReadTime t;
     cachedTranslation := cachedTranslation t;
     cachedOriginalText := cachedOriginalText t;
     translationSentences := translationSentences t;
     currentSentenceIndex := currentSentenceIndex t;
     audioMode := audioMode t; hasHeadphones := hasHeadphones t |}.

Definition setSelectedText (s : jsstring) (t : LanguageBridgeToolbar) :=
  {| isReading := isReading t; isPaused := isPaused t; isTranslating := isTranslating t;
     userLanguage := userLanguage t; selectedText := s;
     abortController := abortController t; lastReadTime := lastReadTime t;
     cachedTranslation := cachedTranslation t;
     cachedOriginalText := cachedOriginalText t;
     translationSentences := translationSentences t;
     currentSentenceIndex := currentSentenceIndex t;
     audioMode := audioMode t; hasHeadphones := hasHeadphones t |}.

Definition setAbortController (a : option nat) (t : LanguageBridgeToolbar) :=
  {| isReading := isReading t; isPaused := isPaused t; isTranslating := isTranslating t;
     userLanguage := userLanguage t; selectedText := selectedText t;
     abortController := a; lastReadTime := lastReadTime t;
     cachedTranslation := cachedTranslation t;
     cachedOriginalText := cachedOriginalText t;
     translationSentences := translationSentences t;
     currentSentenceIndex := currentSentenceIndex t;
     audioMode := audioMode t; hasHeadphones := hasHeadphones t |}.

Definition setLastReadTime (now : Z) (t : LanguageBridgeToolbar) :=
  {| isReading := isReading t; isPaused := isPaused t; isTranslating := isTranslating t;
     userLanguage := userLanguage t; selectedText := selectedText t;
     abortController := abortController t; lastReadTime := now;
     cachedTranslation := cachedTranslation t;
     cachedOriginalText := cachedOriginalText t;
     translationSentences := translationSentences t;
     currentSentenceIndex := currentSentenceIndex t;
     audioMode := audioMode t; hasHeadphones := hasHeadphones t |}.

Definition setCached (translation original : option jsstring) (t : LanguageBridgeToolbar) :=
  {| isReading := isReading t; isPaused := isPaused t; isTranslating := isTranslating t;
     userLanguage := userLanguage t; selectedText := selectedText t;
     abortController := abortController t; lastReadTime := lastReadTime t;
     cachedTranslation := translation;
     cachedOriginalText := original;
     translationSentences := translationSentences t;
     currentSentenceIndex := currentSentenceIndex t;
     audioMode := audioMode t; hasHeadphones := hasHeadphones t |}.

Definition setSentences (l : list jsstring) (t : LanguageBridgeToolbar) :=
  {| isReading := isReading t; isPaused := isPaused t; isTranslating := isTranslating t;
     userLanguage := userLanguage t; selectedText := selectedText t;
     abortController := abortController t; lastReadTime := lastReadTime t;
     cachedTranslation := cachedTranslation t;
     cachedOriginalText := cachedOriginalText t;
     translationSentences := l;
     currentSentenceIndex := currentSentenceIndex t;
     audioMode := audioMode t; hasHeadphones := hasHeadphones t |}.

Definition setIndex (i : Z) (t : LanguageBridgeToolbar) :=
  {| isReading := isReading t; isPaused := isPaused t; isTranslating := isTranslating t;
     userLanguage := userLanguage t; selectedText := selectedText t;
     abortController := abortController t; lastReadTime := lastReadTime t;
     cachedTranslation := cachedTranslation t;
     cachedOriginalText := cachedOriginalText t;
     translationSentences := translationSentences t;
     currentSentenceIndex := i;
     audioMode := audioMode t; hasHeadphones := hasHeadphones t |}.

Definition setUserLanguage (language : jsstring) (t : LanguageBridgeToolbar) :=
  {| isReading := isReading t; isPaused := isPaused t; isTranslating := isTranslating t;
     userLanguage := language; selectedText := selectedText t;
     abortController := abortController t; lastReadTime := lastReadTime t;
     cachedTranslation := cachedTranslation t;
     cachedOriginalText := cachedOriginalText t;
     translationSentences := translationSentences t;
     currentSentenceIndex := currentSentenceIndex t;
     audioMode := audioMode t; hasHeadphones := hasHeadphones t |}.

Definition setAudio (mode : Conversation.AudioMode) (headphones : bool)
  (t : LanguageBridgeToolbar) :=
  {| isReading := isReading t; isPaused := isPaused t; isTranslating := isTranslating t;
     userLanguage := userLanguage t; selectedText := selectedText t;
     abortController := abortController t; lastReadTime := lastReadTime t;
     cachedTranslation := cachedTranslation t;
     cachedOriginalText := cachedOriginalText t;
     translationSentences := translationSentences t;
     currentSentenceIndex := currentSentenceIndex t;
     audioMode := mode; hasHeadphones := headphones |}.

(** Who speaks in a conversation turn. *)
Inductive Speaker : Type := Teacher | Student.

(** What the controller does to the outside: status messages, calls of the
    speech client, translation requests and the lines of the conversation
    transcripts.  (The translation tooltip is part of the world below; the
    buttons and the layout of the page are not modelled.) *)
Inductive Output : Type :=
| Status (message kind : jsstring)
| PausedStatus (remaining : Z)
    (** [`Paused (${remaining} sentence(s) remaining)`], kind [info] *)
| SpeakText (sentence language : jsstring)
| Fetch (request : Azure.Request)
| StopSpeaking
| PauseSpeaking
| StartRecognition (language : jsstring)
    (** [AzureClient.startSpeechRecognition(language)] *)
| Transcript (speaker : Speaker) (entry : option (jsstring * jsstring)).
    (** the transcript of the speaker shows what was recognised and its
        translation, or "Error: Could not recognize speech" *)

(** The object [window.getSelection()] returns: the selection of the
    document.  It is one object, whose ranges change as the user selects. *)
Inductive Selection : Type := DocumentSelection.

(** What the page answers when the controller asks: [window.getSelection()]
    ([null] where the browser has none), the [rangeCount] of the selection
    of the document at that moment, and
    [window.GoogleDocsAdapter?.isActive()]. *)
Record Window : Type := {
  getSelection : option Selection;
  rangeCount : nat;
  googleDocsActive : bool
}.

(** Which [async] function runs the sentence loop. *)
Inductive Caller : Type := ReadText | ResumeReading.

(** A suspended [async] call: where it awaits and the locals it needs to
    go on. *)
Inductive Cont : Type :=
| AwaitStopRecognition (text : jsstring) (selection : option Selection)
    (** [readText] inside [stopReading], at [await stopSpeechRecognition()] *)
| AwaitDelay100 (text : jsstring) (selection : option Selection)
    (** [readText] at [setTimeout(resolve, 100)] *)
| AwaitTranslate (text : jsstring) (selection : option Selection) (signal : nat)
    (toLang : jsstring) (started : Azure.Started)
    (** [readText] at [await translateText(text, 'en', toLang)] *)
| AwaitSpeak (caller : Caller) (signal : nat) (remainingSentences : list jsstring)
    (i : nat) (globalIndex : Z)
    (** the loop at [await speakSentenceWithPlaybackWait(...)] *)
| AwaitGap (caller : Caller) (signal : nat) (remainingSentences : list jsstring)
    (i : nat) (globalIndex : Z).
    (** the loop at [setTimeout(resolve, 400)] *)

(** A suspended conversation turn ([handleTeacherSpeak],
    [handleStudentSpeak]). *)
Inductive TurnCont : Type :=
| AwaitRecognizer (speaker : Speaker)
    (** at [await startSpeechRecognition(...)] *)
| AwaitFinalText (speaker : Speaker)
    (** at the promise of the final transcript *)
| AwaitRecognitionStopped (speaker : Speaker) (recognizedText : jsstring)
    (** at [await stopSpeechRecognition()] in the [try] block *)
| AwaitTurnTranslation (speaker : Speaker) (recognizedText fromLang toLang : jsstring)
    (started : Azure.Started)
    (** at [await translateText(recognizedText, fromLang, toLang)] *)
| AwaitTurnSpeech (speaker : Speaker)
    (** at [await speakText(translatedText, ...)] *)
| AwaitCleanup (speaker : Speaker).
    (** at [await stopSpeechRecognition()] in the [catch] block *)

Record World : Type := {
  toolbar : LanguageBridgeToolbar;
  client : Azure.AzureClient;
  signals : list bool;                    (** [aborted] of every signal made *)
  tasks : list (nat * Cont);              (** suspended calls of the reader *)
  settled : list (nat * Completion unit); (** promises of finished calls *)
  nextId : nat;
  clock : Z;                              (** [Date.now()] *)
  outputs : list Output;                  (** oldest first *)
  window : Window;
  tooltip : option jsstring;              (** the text of [#lb-translation-tooltip] *)
  turns : list (nat * TurnCont)           (** suspended conversation turns *)
}.

(** The toolbar after [init], on a page where nothing has been selected
    yet and the Google Docs adapter is not active. *)
Definition newWorld (language : jsstring) (password : option jsstring) : World :=
  {| toolbar := newToolbar language; client := Azure.newClient password;
     signals := []; tasks := []; settled := []; nextId := 0; clock := 0;
     outputs := [];
     window := {| getSelection := Some DocumentSelection; rangeCount := 0;
                  googleDocsActive := false |};
     tooltip := None; turns := [] |}.

Definition onToolbar (f : LanguageBridgeToolbar -> LanguageBridgeToolbar) (w : World) : World :=
  {| toolbar := f (toolbar w); client := client w; signals := signals w;
     tasks := tasks w; settled := settled w; nextId := nextId w;
     clock := clock w; outputs := outputs w;
     window := window w; tooltip := tooltip w; turns := turns w |}.

Definition setClient (c : Azure.AzureClient) (w : World) : World :=
  {| toolbar := toolbar w; client := c; signals := signals w;
     tasks := tasks w; settled := settled w; nextId := nextId w;
     clock := clock w; outputs := outputs w;
     window := window w; tooltip := tooltip w; turns := turns w |}.

Definition setSignals (s : list bool) (w : World) : World :=
  {| toolbar := toolbar w; client := client w; signals := s;
     tasks := tasks w; settled := settled w; nextId := nextId w;
     clock := clock w; outputs := outputs w;
     window := window w; tooltip := tooltip w; turns := turns w |}.

Definition setTasks (l : list (nat * Cont)) (w : World) : World :=
  {| toolbar := toolbar w; client := client w; signals := signals w;
     tasks := l; settled := settled w; nextId := nextId w;
     clock := clock w; outputs := outputs w;
     window := window w; tooltip := tooltip w; turns := turns w |}.

Definition setSettled (l : list (nat * Completion unit)) (w : World) : World :=
  {| toolbar := toolbar w; client := client w; signals := signals w;
     tasks := tasks w; settled := l; nextId := nextId w;
     clock := clock w; outputs := outputs w;
     window := window w; tooltip := tooltip w; turns := turns w |}.

Definition setNextId (n : nat) (w : World) : World :=
  {| toolbar := toolbar w; client := client w; signals := signals w;
     tasks := tasks w; settled := settled w; nextId := n;
     clock := clock w; outputs := outputs w;
     window := window w; tooltip := tooltip w; turns := turns w |}.

Definition setClock (now : Z) (w : World) : World :=
  {| toolbar := toolbar w; client := client w; signals := signals w;
     tasks := tasks w; settled := settled w; nextId := nextId w;
     clock := now; outputs := outputs w;
     window := window w; tooltip := tooltip w; turns := turns w |}.

Definition emit (o : Output) (w : World) : World :=
  {| toolbar := toolbar w; client := client w; signals := signals w;
     tasks := tasks w; settled := settled w; nextId := nextId w;
     clock := clock w; outputs := outputs w ++ [o];
     window := window w; tooltip := tooltip w; turns := turns w |}.

Definition setWindow (win : Window) (w : World) : World :=
  {| toolbar := toolbar w; client := client w; signals := signals w;
     tasks := tasks w; settled := settled w; nextId := nextId w;
     clock := clock w; outputs := outputs w;
     window := win; tooltip := tooltip w; turns := turns w |}.

Definition setTooltip (t : option jsstring) (w : World) : World :=
  {| toolbar := toolbar w; client := client w; signals := signals w;
     tasks := tasks w; settled := settled w; nextId := nextId w;
     clock := clock w; outputs := outputs w;
     window := window w; tooltip := t; turns := turns w |}.

Definition setTurns (l : list (nat * TurnCont)) (w : World) : World :=
  {| toolbar := toolbar w; client := client w; signals := signals w;
     tasks := tasks w; settled := settled w; nextId := nextId w;
     clock := clock w; outputs := outputs w;
     window := window w; tooltip := tooltip w; turns := l |}.

Definition showStatus (message kind : string) (w : World) : World :=
  emit (Status (Js.lit message) (Js.lit kind)) w.

(** [signal.aborted] *)
Definition aborted (signal : nat) (w : World) : bool := nth signal (signals w) false.

Fixpoint setNth (n : nat) (b : bool) (l : list bool) : list bool :=
  match l, n with
  | _ :: r, O => b :: r
  | x :: r, S n' => x :: setNth n' b r
  | [], _ => []
  end.

(** [controller.abort()] *)
Definition abort (signal : nat) (w : World) : World :=
  setSignals (setNth signal true (signals w)) w.

(** [new AbortController()], stored in [this.abortController]; the result
    carries the new signal. *)
Definition newAbortController (w : World) : World * nat :=
  let signal := List.length (signals w) in
  (onToolbar (setAbortController (Some signal)) (setSignals (signals w ++ [false]) w),
   signal).

Fixpoint lookupTask (id : nat) (l : list (nat * Cont)) : option Cont :=
  match l with
  | (id', k) :: r => if Nat.eqb id' id then Some k else lookupTask id r
  | [] => None
  end.

Definition removeTask (id : nat) (l : list (nat * Cont)) : list (nat * Cont) :=
  filter (fun e => negb (Nat.eqb (fst e) id)) l.

(** The call [id] awaits at [k]. *)
Definition suspend (id : nat) (k : Cont) (w : World) : World :=
  setTasks (removeTask id (tasks w) ++ [(id, k)]) w.

(** The promise of the call [id] settles with [c]. *)
Definition settle (id : nat) (c : Completion unit) (w : World) : World :=
  setSettled (settled w ++ [(id, c)]) (setTasks (removeTask id (tasks w)) w).

Definition readingCancelled : jsstring := Js.lit "Reading cancelled".
Definition speechStopped : jsstring := Js.lit "Speech stopped".
Definition speechPaused : jsstring := Js.lit "Speech paused".

Definition setIsReading (b : bool) (t : LanguageBridgeToolbar) :=
  setFlags b (isPaused t) (isTranslating t) t.
Definition setIsPaused (b : bool) (t : LanguageBridgeToolbar) :=
  setFlags (isReading t) b (isTranslating t) t.
Definition setIsTranslating (b : bool) (t : LanguageBridgeToolbar) :=
  setFlags (isReading t) (isPaused t) b t.

Definition truthyOpt (o : option jsstring) : bool :=
  match o with Some s => Js.truthy s | None => false end.

(** *** The sentence loop ([speakFromCurrentPosition]) *)

(** How far a call gets before it awaits or ends. *)
Inductive Progress : Type :=
| Awaiting (k : Cont)
| Done (c : Completion unit).

(** The loop from the test [i < remainingSentences.length] of iteration
    [i] to the call of [speakText]. *)
Definition loopFrom (caller : Caller) (signal : nat) (remainingSentences : list jsstring)
  (i : nat) (w : World) : World * Progress :=
  if (i <? List.length remainingSentences)%nat then
    let globalIndex := (currentSentenceIndex (toolbar w) + Z.of_nat i)%Z in
    if aborted signal w || isPaused (toolbar w) then
      (onToolbar (setIndex globalIndex) w, Done (Throw speechPaused))
    else
      let sentence := nth i remainingSentences [] in
      (emit (SpeakText sentence (userLanguage (toolbar w))) w,
       Awaiting (AwaitSpeak caller signal remainingSentences i globalIndex))
  else
    (onToolbar (setIndex 0) w, Done (Return tt)).

Definition speakFromCurrentPosition (caller : Caller) (signal : nat) (w : World)
  : World * Progress :=
  let remainingSentences :=
    Js.slice (translationSentences (toolbar w)) (currentSentenceIndex (toolbar w)) in
  if (List.length remainingSentences =? 0)%nat then (w, Done (Return tt))
  else loopFrom caller signal remainingSentences 0 w.

(** The promise of [speakText] settles with [spoken]:
    [speakSentenceWithPlaybackWait] turns a playback that ends under an
    aborted signal into the error "Speech paused"; the [catch] of the loop
    passes "Speech stopped" and "Speech paused" on and swallows the rest. *)
Definition afterSpeak (caller : Caller) (signal : nat) (remainingSentences : list jsstring)
  (i : nat) (globalIndex : Z) (spoken : Completion unit) (w : World) : World * Progress :=
  let waited :=
    match spoken with
    | Return _ => if aborted signal w then Throw speechPaused else Return tt
    | Throw message => Throw message
    end in
  match waited with
  | Return _ =>
      (onToolbar (setIndex (globalIndex + 1)) w,
       Awaiting (AwaitGap caller signal remainingSentences i globalIndex))
  | Throw message =>
      if Js.eqb message speechStopped || Js.eqb message speechPaused then
        (w, Done (Throw message))
      else
        loopFrom caller signal remainingSentences (S i)
          (onToolbar (setIndex (globalIndex + 1)) w)
  end.

(** The 400 ms between two sentences are over. *)
Definition afterGap (caller : Caller) (signal : nat) (remainingSentences : list jsstring)
  (i : nat) (w : World) : World * Progress :=
  if aborted signal w || isPaused (toolbar w) then (w, Done (Throw speechPaused))
  else loopFrom caller signal remainingSentences (S i) w.

(** *** [readText], [resumeReading], [pauseReading], [stopReading] *)

(** [catch] and [finally] of [readText]; the [catch] block ends normally,
    so the promise of the call resolves. *)
Definition readText_end (id : nat) (c : Completion unit) (w : World) : World :=
  let w1 :=
    match c with
    | Throw message =>
        if Js.eqb message readingCancelled || Js.eqb message speechStopped
           || Js.eqb message speechPaused
        then w else showStatus "Error reading text" "error" w
    | Return _ => w
    end in
  settle id (Return tt)
    (onToolbar (fun t => setAbortController None (setIsTranslating false (setIsReading false t))) w1).

(** The end of the [try] block, [catch] and [finally] of [resumeReading]. *)
Definition resumeReading_end (id : nat) (c : Completion unit) (w : World) : World :=
  let w1 :=
    match c with
    | Return _ => showStatus "Completed" "info" w
    | Throw message =>
        if Js.eqb message speechPaused || Js.eqb message speechStopped
        then w else showStatus "Error resuming" "error" w
    end in
  settle id (Return tt)
    (onToolbar (fun t => setAbortController None (setIsTranslating false (setIsReading false t))) w1).

(** The loop has run as far as it could: the call is suspended again, or
    the loop is over and the rest of the calling function runs. *)
Definition conclude (caller : Caller) (id : nat) (p : World * Progress) : World :=
  match p with
  | (w, Awaiting k) => suspend id k w
  | (w, Done c) =>
      match caller with
      | ReadText => readText_end id c w
      | ResumeReading => resumeReading_end id c w
      end
  end.

(** [readText] from the second test of [signal.aborted]. *)
Definition readText_speak (id signal : nat) (w : World) : World :=
  if aborted signal w then readText_end id (Throw readingCancelled) w
  else conclude ReadText id (speakFromCurrentPosition ReadText signal w).

(** The message of the [IndexSizeError] that [selection.getRangeAt(0)]
    throws in Chrome when the selection has no range. *)
Definition indexSizeError : jsstring :=
  Js.lit "Failed to execute 'getRangeAt' on 'Selection': 0 is not a valid index.".

(** [hideTranslationTooltip] *)
Definition hideTranslationTooltip (w : World) : World := setTooltip None w.

(** [showTranslationTooltip]: the tooltip that is there goes first; then
    [selection.getRangeAt(0)] throws if the selection has no range at that
    moment, before the new tooltip is put into the page. *)
Definition showTranslationTooltip (translatedText : jsstring) (selection : Selection)
  (w : World) : World * Completion unit :=
  let w1 := hideTranslationTooltip w in
  if (rangeCount (window w) =? 0)%nat then (w1, Throw indexSizeError)
  else (setTooltip (Some translatedText) w1, Return tt).

(** [showTranslationTooltipCentered] *)
Definition showTranslationTooltipCentered (translatedText : jsstring) (w : World) : World :=
  setTooltip (Some translatedText) (hideTranslationTooltip w).

(** [readText] once [translateText] has answered [translatedText]: the
    translation is kept, the tooltip is shown if the call came with a
    selection, and the sentences are spoken. *)
Definition readText_translated (id : nat) (text : jsstring) (selection : option Selection)
  (signal : nat) (translatedText : jsstring) (w : World) : World :=
  let w1 :=
    onToolbar (fun t =>
      setIndex 0 (setSentences (Segmenter.splitIntoSentences translatedText)
        (setCached (Some translatedText) (Some text) t))) w in
  let (w2, shown) :=
    match selection with
    | Some s =>
        if googleDocsActive (window w1)
        then (showTranslationTooltipCentered translatedText w1, Return tt)
        else showTranslationTooltip translatedText s w1
    | None => (w1, Return tt)
    end in
  match shown with
  | Return _ => readText_speak id signal w2
  | Throw message => readText_end id (Throw message) w2
  end.

(** [readText] from "Starting new reading" to its next [await]. *)
Definition readText_begin (id : nat) (text : jsstring) (selection : option Selection)
  (w : World) : World :=
  let w1 := onToolbar (fun t =>
              setLastReadTime (clock w)
                (setIsPaused false (setIsReading true (setIsTranslating true t)))) w in
  let (w2, signal) := newAbortController w1 in
  if aborted signal w2 then readText_end id (Throw readingCancelled) w2
  else if negb (Js.eqb (userLanguage (toolbar w2)) (Js.lit "en")) then
    let started :=
      Azure.translateText_start (client w2) text (Js.lit "en") (userLanguage (toolbar w2)) in
    let w3 :=
      match started with
      | Azure.Remote _ =>
          emit (Fetch {| Azure.req_text := text; Azure.req_from := Js.lit "en";
                         Azure.req_to := userLanguage (toolbar w2) |}) w2
      | _ => w2
      end in
    suspend id (AwaitTranslate text selection signal (userLanguage (toolbar w2)) started) w3
  else
    readText_speak id signal
      (onToolbar (fun t => setIndex 0 (setSentences (Segmenter.splitIntoSentences text) t)) w2).

(** [stopReading] up to [await stopSpeechRecognition()]. *)
Definition stopReading_begin (w : World) : World :=
  let w1 :=
    match abortController (toolbar w) with
    | Some a => onToolbar (setAbortController None) (abort a w)
    | None => w
    end in
  emit StopSpeaking w1.

(** [stopReading] from "Clear all state". *)
Definition stopReading_end (w : World) : World :=
  showStatus "Active" "info"
    (hideTranslationTooltip
       (onToolbar (fun t =>
          setIndex 0 (setSentences [] (setCached None None (setFlags false false false t)))) w)).

(** [readText(text, selection)]; [selection] is [null] unless the caller
    passes one. *)
Definition readText (id : nat) (text : jsstring) (selection : option Selection) (w : World)
  : World :=
  if negb (Js.truthy text) then settle id (Return tt) w
  else if isTranslating (toolbar w) then
    settle id (Return tt) (showStatus "Please wait - translation in progress" "info" w)
  else if isReading (toolbar w) || isPaused (toolbar w) then
    suspend id (AwaitStopRecognition text selection) (stopReading_begin w)
  else readText_begin id text selection w.

Definition pauseReading (w : World) : World :=
  let w1 := onToolbar (setFlags false true false) (emit PauseSpeaking w) in
  let remaining :=
    (Z.of_nat (List.length (translationSentences (toolbar w1)))
     - currentSentenceIndex (toolbar w1))%Z in
  emit (PausedStatus remaining) w1.

Definition resumeReading (id : nat) (w : World) : World :=
  if negb (truthyOpt (cachedTranslation (toolbar w)))
     || (List.length (translationSentences (toolbar w)) =? 0)%nat
  then settle id (Return tt) w
  else
    let w1 := onToolbar (fun t =>
                setLastReadTime (clock w)
                  (setIsTranslating true (setIsPaused false (setIsReading true t)))) w in
    let (w2, signal) := newAbortController (showStatus "Resuming..." "info" w1) in
    conclude ResumeReading id (speakFromCurrentPosition ResumeReading signal w2).

Definition toggleReading (id : nat) (w : World) : World :=
  if isReading (toolbar w) then pauseReading w
  else if isPaused (toolbar w) && truthyOpt (cachedTranslation (toolbar w)) then
    resumeReading id w
  else if Js.truthy (selectedText (toolbar w)) then
    readText id (selectedText (toolbar w)) (getSelection (window w)) w
  else showStatus "Please select some text first" "error" w.

(** *** The input adapter *)

Definition MAX_CHARS : nat := 1500.

(** "Click ▶ for audio or 📖 to read", in code units. *)
Definition clickHint : jsstring :=
  Js.lit " - Click " ++ [9654%N] ++ Js.lit " for audio or "
    ++ [55357%N; 56534%N] ++ Js.lit " to read".

(** The debounced callback of [handleTextSelection]; [selected] is
    [window.getSelection().toString()]. *)
Definition handleTextSelection (selected : jsstring) (w : World) : World :=
  let newSelectedText := Js.trim selected in
  if negb (Js.truthy newSelectedText) then w
  else
    let w1 :=
      if (MAX_CHARS <? List.length newSelectedText)%nat then
        showStatus "Selection too large - limited to ~5 paragraphs" "error"
          (onToolbar (setSelectedText (Js.substring0 MAX_CHARS newSelectedText)) w)
      else onToolbar (setSelectedText newSelectedText) w in
    if isReading (toolbar w1) && (clock w1 - lastReadTime (toolbar w1) <? cooldownMs)%Z then
      showStatus "Please wait - translation in progress" "info" w1
    else
      emit (Status (Js.lit "Text selected" ++ clickHint) (Js.lit "info")) w1.

(** The [keypress] (Enter) and [paste] listeners of [#lb-text-input];
    [value] is [textInput.value]. *)
Definition textInputSubmit (value : jsstring) (w : World) : World :=
  let text := Js.trim value in
  if Js.truthy text then
    emit (Status (Js.lit "Text ready" ++ clickHint) (Js.lit "info"))
      (onToolbar (setSelectedText text) w)
  else w.

(** The callback given to [GoogleDocsAdapter.onTextSelected]. *)
Definition googleDocsTextSelected (text : jsstring) (w : World) : World :=
  emit (Status (Js.lit "Text selected" ++ clickHint) (Js.lit "info"))
    (onToolbar (setSelectedText text) w).

(** *** Runs *)

(** How the environment settles what a call awaits. *)
Inductive Settlement : Type :=
| Tick
    (** a timer fires, or a promise that was already resolved is awaited *)
| Translation (r : Azure.Response)
| Spoken (c : Completion unit).

(** How the environment settles what a conversation turn awaits. *)
Inductive TurnSettlement : Type :=
| Recognizer (c : Completion unit)
    (** the promise of [startSpeechRecognition] *)
| FinalText (c : Completion jsstring)
    (** the promise of the final transcript ([Conversation.recognizedText]) *)
| RecognitionStopped (c : Completion unit)
    (** the promise of [stopSpeechRecognition] *)
| TurnTranslation (r : Azure.Response)
| TurnTick
    (** [translateText] had its answer without a request *)
| TurnSpoken (c : Completion unit).

Inductive Event : Type :=
| CallReadText (text : jsstring)
    (** [readText(text)], without a selection *)
| CallToggleReading
| CallPauseReading
| CallResumeReading
| SelectionTimeout (selected : jsstring)
| TextInputEnter (value : jsstring)
| TextInputPaste (value : jsstring)
| GoogleDocsSelection (text : jsstring)
| TimePasses (ms : Z)
| Settle (id : nat) (s : Settlement)
| WindowChanges (win : Window)
    (** the selection of the page or the state of the Google Docs adapter
        changes *)
| TooltipClose
    (** the close button of the tooltip *)
| SettingsUpdated (language : option jsstring)
    (** the message [settings-updated]; [language] is
        [request.settings.userLanguage] *)
| LanguageSelected (value : jsstring)
    (** [change] of the language selector of the conversation panel *)
| CallToggleAudioMode
| HeadphonesDetected (found : bool)
    (** [detectHeadphones] has its answer ([false] also when it fails) *)
| CallTeacherSpeak
| CallStudentSpeak
| SettleTurn (id : nat) (s : TurnSettlement).

(** A call of an [async] method gets the next promise identifier. *)
Definition call (f : nat -> World -> World) (w : World) : World :=
  f (nextId w) (setNextId (S (nextId w)) w).

(** The call [id], suspended at [k], goes on with [s].  A settlement that
    does not fit what the call awaits does nothing. *)
Definition resume (id : nat) (k : Cont) (s : Settlement) (w : World) : World :=
  match k, s with
  | AwaitStopRecognition text selection, Tick =>
      suspend id (AwaitDelay100 text selection) (stopReading_end w)
  | AwaitDelay100 text selection, Tick => readText_begin id text selection w
  | AwaitTranslate text selection signal toLang (Azure.Cached v), Tick =>
      readText_translated id text selection signal v w
  | AwaitTranslate text selection signal toLang (Azure.NoPassword v), Tick =>
      readText_translated id text selection signal v w
  | AwaitTranslate text selection signal toLang (Azure.Remote key), Translation r =>
      let (c, res) :=
        Azure.translateWithAzureDirect (client w) text (Js.lit "en") toLang key r in
      match res with
      | Return translatedText =>
          readText_translated id text selection signal translatedText (setClient c w)
      | Throw message => readText_end id (Throw message) (setClient c w)
      end
  | AwaitSpeak caller signal remaining i globalIndex, Spoken c =>
      conclude caller id (afterSpeak caller signal remaining i globalIndex c w)
  | AwaitGap caller signal remaining i globalIndex, Tick =>
      conclude caller id (afterGap caller signal remaining i w)
  | _, _ => w
  end.

(** *** Conversation turns ([handleTeacherSpeak], [handleStudentSpeak]) *)

Fixpoint lookupTurn (id : nat) (l : list (nat * TurnCont)) : option TurnCont :=
  match l with
  | (id', k) :: r => if Nat.eqb id' id then Some k else lookupTurn id r
  | [] => None
  end.

Definition removeTurn (id : nat) (l : list (nat * TurnCont)) : list (nat * TurnCont) :=
  filter (fun e => negb (Nat.eqb (fst e) id)) l.

Definition suspendTurn (id : nat) (k : TurnCont) (w : World) : World :=
  setTurns (removeTurn id (turns w) ++ [(id, k)]) w.

(** The [finally] block is over: the promise of the turn resolves. *)
Definition turn_end (id : nat) (w : World) : World :=
  setSettled (settled w ++ [(id, Return tt)]) (setTurns (removeTurn id (turns w)) w).

(** The language the recognizer is asked for. *)
Definition recognitionLanguage (speaker : Speaker) (t : LanguageBridgeToolbar) : jsstring :=
  match speaker with
  | Teacher => Js.lit "en"
  | Student => userLanguage t
  end.

(** [fromLang] and [toLang] of the call of [translateText]. *)
Definition turnLanguages (speaker : Speaker) (t : LanguageBridgeToolbar)
  : jsstring * jsstring :=
  match speaker with
  | Teacher => (Js.lit "en", userLanguage t)
  | Student => (userLanguage t, Js.lit "en")
  end.

(** The language the translation is spoken in. *)
Definition speechLanguage (speaker : Speaker) (t : LanguageBridgeToolbar) : jsstring :=
  match speaker with
  | Teacher => userLanguage t
  | Student => Js.lit "en"
  end.

Definition shouldPlayAudio (speaker : Speaker) (t : LanguageBridgeToolbar) : bool :=
  match speaker with
  | Teacher => Conversation.teacherShouldPlayAudio (audioMode t) (hasHeadphones t)
  | Student => Conversation.studentShouldPlayAudio (audioMode t) (hasHeadphones t)
  end.

(** The turn up to [await startSpeechRecognition(...)].  (The buttons that
    start a turn are part of the conversation panel, so the panel is
    there.) *)
Definition turn_begin (speaker : Speaker) (id : nat) (w : World) : World :=
  suspendTurn id (AwaitRecognizer speaker)
    (emit (StartRecognition (recognitionLanguage speaker (toolbar w))) w).

Definition handleTeacherSpeak : nat -> World -> World := turn_begin Teacher.
Definition handleStudentSpeak : nat -> World -> World := turn_begin Student.

(** The [catch] block up to its [await stopSpeechRecognition()]. *)
Definition turn_catch (speaker : Speaker) (id : nat) (w : World) : World :=
  suspendTurn id (AwaitCleanup speaker) (emit (Transcript speaker None) w).

(** The turn from the end of the recognition to [await translateText(...)]. *)
Definition turn_translate (speaker : Speaker) (id : nat) (recognizedText : jsstring)
  (w : World) : World :=
  let (fromLang, toLang) := turnLanguages speaker (toolbar w) in
  let started := Azure.translateText_start (client w) recognizedText fromLang toLang in
  let w1 :=
    match started with
    | Azure.Remote _ =>
        emit (Fetch {| Azure.req_text := recognizedText; Azure.req_from := fromLang;
                       Azure.req_to := toLang |}) w
    | _ => w
    end in
  suspendTurn id (AwaitTurnTranslation speaker recognizedText fromLang toLang started) w1.

(** The turn once [translateText] has answered [translatedText]. *)
Definition turn_translated (speaker : Speaker) (id : nat)
  (recognizedText translatedText : jsstring) (w : World) : World :=
  let w1 := emit (Transcript speaker (Some (recognizedText, translatedText))) w in
  if shouldPlayAudio speaker (toolbar w1) then
    suspendTurn id (AwaitTurnSpeech speaker)
      (emit (SpeakText translatedText (speechLanguage speaker (toolbar w1))) w1)
  else turn_end id w1.

(** The turn [id], suspended at [k], goes on with [s]. *)
Definition resumeTurn (id : nat) (k : TurnCont) (s : TurnSettlement) (w : World) : World :=
  match k, s with
  | AwaitRecognizer speaker, Recognizer (Return _) =>
      suspendTurn id (AwaitFinalText speaker) w
  | AwaitRecognizer speaker, Recognizer (Throw _) => turn_catch speaker id w
  | AwaitFinalText speaker, FinalText (Return recognizedText) =>
      suspendTurn id (AwaitRecognitionStopped speaker recognizedText) w
  | AwaitFinalText speaker, FinalText (Throw _) => turn_catch speaker id w
  | AwaitRecognitionStopped speaker recognizedText, RecognitionStopped (Return _) =>
      turn_translate speaker id recognizedText w
  | AwaitRecognitionStopped speaker _, RecognitionStopped (Throw _) =>
      turn_catch speaker id w
  | AwaitTurnTranslation speaker recognizedText _ _ (Azure.Cached v), TurnTick =>
      turn_translated speaker id recognizedText v w
  | AwaitTurnTranslation speaker recognizedText _ _ (Azure.NoPassword v), TurnTick =>
      turn_translated speaker id recognizedText v w
  | AwaitTurnTranslation speaker recognizedText fromLang toLang (Azure.Remote key),
    TurnTranslation r =>
      let (c, res) :=
        Azure.translateWithAzureDirect (client w) recognizedText fromLang toLang key r in
      match res with
      | Return translatedText =>
          turn_translated speaker id recognizedText translatedText (setClient c w)
      | Throw _ => turn_catch speaker id (setClient c w)
      end
  | AwaitTurnSpeech speaker, TurnSpoken (Return _) => turn_end id w
  | AwaitTurnSpeech speaker, TurnSpoken (Throw _) => turn_catch speaker id w
  | AwaitCleanup speaker, RecognitionStopped _ => turn_end id w
  | _, _ => w
  end.

(** [if (request.settings.userLanguage) this.userLanguage = ...] *)
Definition settingsUpdated (language : option jsstring) (w : World) : World :=
  match language with
  | Some l => if Js.truthy l then onToolbar (setUserLanguage l) w else w
  | None => w
  end.

Definition toggleAudioMode (w : World) : World :=
  onToolbar (fun t =>
    setAudio (Conversation.toggleAudioMode (audioMode t)) (hasHeadphones t) t) w.

Definition step (w : World) (e : Event) : World :=
  match e with
  | CallReadText text => call (fun id => readText id text None) w
  | CallToggleReading => call toggleReading w
  | CallPauseReading => pauseReading w
  | CallResumeReading => call resumeReading w
  | SelectionTimeout selected => handleTextSelection selected w
  | TextInputEnter value => textInputSubmit value w
  | TextInputPaste value => textInputSubmit value w
  | GoogleDocsSelection text => googleDocsTextSelected text w
  | TimePasses ms => setClock (clock w + Z.max ms 0) w
  | Settle id s =>
      match lookupTask id (tasks w) with
      | Some k => resume id k s w
      | None => w
      end
  | WindowChanges win => setWindow win w
  | TooltipClose => hideTranslationTooltip w
  | SettingsUpdated language => settingsUpdated language w
  | LanguageSelected value => onToolbar (setUserLanguage value) w
  | CallToggleAudioMode => toggleAudioMode w
  | HeadphonesDetected found => onToolbar (fun t => setAudio (audioMode t) found t) w
  | CallTeacherSpeak => call handleTeacherSpeak w
  | CallStudentSpeak => call handleStudentSpeak w
  | SettleTurn id s =>
      match lookupTurn id (turns w) with
      | Some k => resumeTurn id k s w
      | None => w
      end
  end.

Definition run (w : World) (es : list Event) : World := fold_left step es w.

(** The sentences handed to the speech client, oldest first. *)
Definition spoken (w : World) : list jsstring :=
  flat_map (fun o => match o with SpeakText s _ => [s] | _ => [] end) (outputs w).

(** The texts sent to the translator endpoint, oldest first. *)
Definition fetched (w : World) : list jsstring :=
  flat_map (fun o => match o with Fetch r => [Azure.req_text r] | _ => [] end) (outputs w).

(** The status messages shown, oldest first. *)
Definition statuses (w : World) : list jsstring :=
  flat_map (fun o => match o with Status m _ => [m] | _ => [] end) (outputs w).

(** The world in which [readText] awaits the translator endpoint. *)
Definition translating (id : nat) (text : jsstring) (w : World) : World :=
  let w1 := onToolbar (fun t =>
              setLastReadTime (clock w)
                (setIsPaused false (setIsReading true (setIsTranslating true t))))
              (setNextId (S (nextId w)) w) in
  let w2 := fst (newAbortController w1) in
  suspend id
    (AwaitTranslate text None (List.length (signals w)) (userLanguage (toolbar w))
       (Azure.Remote (Azure.cacheKey text (Js.lit "en") (userLanguage (toolbar w)))))
    (emit (Fetch {| Azure.req_text := text; Azure.req_from := Js.lit "en";
                    Azure.req_to := userLanguage (toolbar w) |}) w2).



End Toolbar.

(** ** Sample data *)

Module Sample.

Definition en : jsstring := Js.lit "en".
Definition fa : jsstring := Js.lit "fa".
Definition faFormal : jsstring := Js.lit "fa-IR-formal".
Definition password : option jsstring := Some (Js.lit "demo").

Definition okCall (text fromLang toLang translation : jsstring) : Azure.Call :=
  {| Azure.call_text := text; Azure.call_from := fromLang; Azure.call_to := toLang;
     Azure.call_response := Azure.Ok (Some translation) |}.

(** 101 calls with texts [a], [aa], [aaa], ... *)
Definition calls101 : list Azure.Call :=
  map (fun n => okCall (repeat 97%N (S n)) en fa (repeat 98%N (S n))) (seq 0 101).

(** 101 calls for 101 different triples, the first two with the same key
    [en-fa-IR-formal-hello]. *)
Definition colliding101 : list Azure.Call :=
  okCall (Js.lit "IR-formal-hello") en fa (Js.lit "salaam")
  :: okCall (Js.lit "hello") en faFormal (Js.lit "dorood")
  :: map (fun n => okCall (repeat 97%N (S n)) en fa (repeat 98%N (S n))) (seq 0 99).

(** Page text with a terminated sentence and an unterminated rest. *)
Definition helloWorld : jsstring := Js.lit "Hello. World".

(** "Hola ¿Como estas?" *)
Definition holaComoEstas : jsstring := Js.lit "Hola " ++ [191%N] ++ Js.lit "Como estas?".

(** 1501 code units typed into the text box. *)
Definition longInput : jsstring := repeat 97%N 1501.

(** The speech engine finishes a sentence; the pause between two
    sentences ends. *)
Definition spokenOk (id : nat) : Toolbar.Event :=
  Toolbar.Settle id (Toolbar.Spoken (Return tt)).
Definition gapOver (id : nat) : Toolbar.Event := Toolbar.Settle id Toolbar.Tick.
Definition translated (id : nat) (t : jsstring) : Toolbar.Event :=
  Toolbar.Settle id (Toolbar.Translation (Azure.Ok (Some t))).

(** An English page: "A. B." is read until its second sentence has been
    spoken. *)
Definition readTwoSentences : list Toolbar.Event :=
  [Toolbar.CallReadText (Js.lit "A. B."); spokenOk 0; gapOver 0; spokenOk 0].

(** A Dari reader: the translation "A. B. C." is read, and the reader
    pauses in the gap behind its second sentence. *)
Definition pauseAfterSecond : list Toolbar.Event :=
  [Toolbar.CallReadText (Js.lit "text"); translated 0 (Js.lit "A. B. C.");
   spokenOk 0; gapOver 0; spokenOk 0; Toolbar.CallPauseReading; gapOver 0].

(** [readText("A.")], then [readText("B.")] before the translation of the
    first is there; then the translation arrives and is played to the end. *)
Definition readTwice : list Toolbar.Event :=
  [Toolbar.CallReadText (Js.lit "A."); Toolbar.CallReadText (Js.lit "B.");
   translated 0 (Js.lit "TA."); spokenOk 0; gapOver 0].

(** A reader of Dari types "Hello." into the text box and presses play;
    nothing is selected on the page.  Then the translation arrives. *)
Definition textBoxPlay : list Toolbar.Event :=
  [Toolbar.TextInputEnter (Js.lit "Hello."); Toolbar.CallToggleReading;
   translated 0 (Js.lit "Salaam.")].



End Sample.

(** ** The backend proxy ([translateViaBackend], azure-client.ts) *)

Module Backend.

(** What the proxy does with a request. *)
Inductive Response : Type :=
| Ok (translation : jsstring) (usage : option (Z * Z)) (storageError : option jsstring)
    (** [response.ok]; [data.translation]; [data.usage] as [(used, limit)];
        the error [chrome.storage.local.set] rejects with, if it does,
        when there is a usage to store *)
| Status (status : N)
    (** [!response.ok], with [response.status] *)
| NetworkError (message : jsstring).
    (** [fetch] rejects, or the body cannot be read *)

Definition sessionExpired : jsstring :=
  Js.lit "Your session has expired. Please re-enter your demo password.".
Definition limitExceeded : jsstring :=
  Js.lit "Usage limit exceeded. You've reached your translation limit.".
Definition invalidPassword : jsstring :=
  Js.lit "Invalid demo password. Please check your settings.".

(** [`${n}`] for a non-negative integer. *)
Definition decimal (n : N) : jsstring :=
  Js.lit (DecimalString.NilZero.string_of_uint (N.to_uint n)).

(** What a call does besides returning: the messages of the
    [languagebridge-subscription-error] events it dispatches and the usage
    it writes to the extension storage. *)
Record Effects : Type := {
  subscriptionErrors : list jsstring;
  usageStored : option (Z * Z)
}.

Definition noEffects : Effects := {| subscriptionErrors := []; usageStored := None |}.

Definition subscriptionError (message : jsstring) : Effects :=
  {| subscriptionErrors := [message]; usageStored := None |}.

(** The [try] block of [translateViaBackend]. *)
Definition backend_try (c : Azure.AzureClient) (text key : jsstring) (r : Response)
  : Azure.AzureClient * Completion jsstring * Effects :=
  match r with
  | NetworkError message => (c, Throw message, noEffects)
  | Status status =>
      if (status =? 403)%N then
        (c, Throw (Js.lit "Session expired"), subscriptionError sessionExpired)
      else if (status =? 429)%N then
        (c, Throw (Js.lit "Usage limit exceeded"), subscriptionError limitExceeded)
      else if (status =? 401)%N then
        (c, Throw (Js.lit "Invalid demo password"), subscriptionError invalidPassword)
      else
        (c, Throw (Js.lit "Translation failed: " ++ decimal status), noEffects)
  | Ok translatedText usage storageError =>
      let c' :=
        Azure.withCache c
          (Azure.cacheStore Azure.maxCacheSize key translatedText (Azure.translationCache c)) in
      match usage, storageError with
      | Some u, None =>
          (c', Return translatedText, {| subscriptionErrors := []; usageStored := Some u |})
      | Some _, Some message => (c', Throw message, noEffects)
      | None, _ => (c', Return translatedText, noEffects)
      end
  end.

(** [translateViaBackend]: the [catch] block returns the original text. *)
Definition translateViaBackend (c : Azure.AzureClient)
  (text fromLang toLang cacheKey apiKey : jsstring) (r : Response)
  : Azure.AzureClient * Completion jsstring * Effects :=
  match backend_try c text cacheKey r with
  | (c', Return translated, e) => (c', Return translated, e)
  | (c', Throw _, e) => (c', Return text, e)
  end.

End Backend.

(** ** Speech recognition and synthesis set-up (azure-client.ts) *)

Module Speech.

(** An object literal with string values. *)
Definition ObjectLiteral : Type := list (jsstring * jsstring).

(** The names every object inherits from [Object.prototype]. *)
Definition objectPrototypeNames : list jsstring :=
  map Js.lit
    ["constructor"; "__defineGetter__"; "__defineSetter__"; "hasOwnProperty";
     "__lookupGetter__"; "__lookupSetter__"; "isPrototypeOf";
     "propertyIsEnumerable"; "toString"; "valueOf"; "__proto__";
     "toLocaleString"]%string.

(** What [o[key]] evaluates to. *)
Inductive Property : Type :=
| Own (value : jsstring)
| Inherited (name : jsstring)   (** a function or object of the prototype *)
| Undefined.

Definition getProperty (o : ObjectLiteral) (key : jsstring) : Property :=
  match JsMap.get key o with
  | Some v => Own v
  | None =>
      if existsb (Js.eqb key) objectPrototypeNames then Inherited key else Undefined
  end.

Definition truthy (p : Property) : bool :=
  match p with
  | Own v => Js.truthy v
  | Inherited _ => true
  | Undefined => false
  end.

Definition entry (k v : string) : jsstring * jsstring := (Js.lit k, Js.lit v).

(** [localeMap] of [startSpeechRecognition]. *)
Definition localeMap : ObjectLiteral :=
  [entry "en" "en-US"; entry "fa" "fa-IR"; entry "fa-IR-formal" "fa-IR";
   entry "ps" "ps-AF"; entry "ar" "ar-SA"; entry "ur" "ur-PK";
   entry "uz" "uz-UZ"; entry "uk" "uk-UA"; entry "es" "es-ES"].

(** [voiceMap] of [speakWithAzureSDK]. *)
Definition voiceMap : ObjectLiteral :=
  [entry "fa" "fa-IR-DilaraNeural"; entry "fa-IR-formal" "fa-IR-FaridNeural";
   entry "ps" "ps-AF-LatifaNeural"; entry "ar" "ar-SA-ZariyahNeural";
   entry "ur" "ur-PK-UzmaNeural"; entry "uk" "uk-UA-PolinaNeural";
   entry "uz" "uz-UZ-MadinaNeural"; entry "es" "es-US-PalomaNeural";
   entry "en" "en-US-JennyNeural"].

(** [langMap] of [fallbackSpeak]. *)
Definition langMap : ObjectLiteral :=
  [entry "en" "en-US"; entry "fa" "fa-IR"; entry "fa-IR-formal" "fa-IR";
   entry "ps" "ps-AF"; entry "ar" "ar-SA"; entry "ur" "ur-PK";
   entry "es" "es-ES"].

(** [o[key] || fallback] *)
Definition orElse (p : Property) (fallback : jsstring) : Property :=
  if truthy p then p else Own fallback.

(** [speechConfig.speechSynthesisVoiceName] in [speakWithAzureSDK]. *)
Definition synthesisVoice (language : jsstring) : Property :=
  orElse (getProperty voiceMap language) (Js.lit "en-US-JennyNeural").

(** [utterance.lang] in [fallbackSpeak]. *)
Definition utteranceLang (language : jsstring) : Property :=
  orElse (getProperty langMap language) (Js.lit "en-US").

(** What the page offers: the Azure Speech SDK ([window.SpeechSDK] or the
    [Microsoft.CognitiveServices] one) and a browser recognizer
    ([webkitSpeechRecognition] or [SpeechRecognition]). *)
Record Page : Type := {
  sdkLoaded : bool;
  webSpeech : bool
}.

(** The recognizer that is started, with the locale it is given. *)
Inductive Recognizer : Type :=
| AzureRecognizer (locale : Property)
| WebSpeechRecognizer (locale : Property).

(** [startSpeechRecognition] and [startWebSpeechRecognition].  [start] is
    how setting up and starting the recognizer ends: with an error if the
    SDK or [recognition.start()] throws or [startContinuousRecognitionAsync]
    calls its error callback, normally if the recognizer runs. *)
Definition startSpeechRecognition (speechKey : option jsstring) (page : Page)
  (language : jsstring) (start : Completion unit) : Completion Recognizer :=
  let language :=
    if negb (truthy (getProperty localeMap language)) then Js.lit "en" else language in
  let locale := getProperty localeMap language in
  let started recognizer :=
    match start with
    | Return _ => Return recognizer
    | Throw err => Throw err
    end in
  if negb (Toolbar.truthyOpt speechKey) || negb (sdkLoaded page) then
    if webSpeech page then started (WebSpeechRecognizer locale)
    else Throw (Js.lit "Speech recognition not supported in this browser")
  else started (AzureRecognizer locale).

(** The engine [speakText] hands the text to. *)
Inductive Synthesizer : Type :=
| AzureVoice (voice : Property)
| BrowserVoice (lang : Property)
| Silent.   (** no [speechSynthesis]: the promise resolves at once *)

(** [speakText], [speakWithAzureSDK] and [fallbackSpeak] up to the start
    of the synthesis; [browserSpeech] is ['speechSynthesis' in window]. *)
Definition speakText (speechKey : option jsstring) (sdk browserSpeech : bool)
  (language : jsstring) : Synthesizer :=
  let fallbackSpeak :=
    if browserSpeech then BrowserVoice (utteranceLang language) else Silent in
  if Toolbar.truthyOpt speechKey then
    if sdk then AzureVoice (synthesisVoice language) else fallbackSpeak
  else fallbackSpeak.

End Speech.

(** ** Keyboard navigation of the highlighter (toolbar.ts) *)

Module Highlighter.

(** Page elements are told apart by identity. *)
Definition Element : Type := nat.

(** [elements.indexOf(x)] *)
Fixpoint indexOfFrom (i : Z) (x : Element) (l : list Element) : Z :=
  match l with
  | y :: r => if Nat.eqb y x then i else indexOfFrom (i + 1) x r
  | [] => (-1)%Z
  end.

Definition indexOf (x : option Element) (l : list Element) : Z :=
  match x with
  | Some e => indexOfFrom 0 e l
  | None => (-1)%Z
  end.

(** [elements[i]] *)
Definition at_ (l : list Element) (i : Z) : option Element :=
  if (i <? 0)%Z then None else nth_error l (Z.to_nat i).

Inductive Direction : Type := Next | Prev.

(** [navigateInteractive]: the element it returns and [currentHighlight]
    afterwards; [elements] is what [getInteractiveElements] finds. *)
Definition navigateInteractive (elements : list Element) (currentHighlight : option Element)
  (direction : Direction) : option Element * option Element :=
  let length := Z.of_nat (List.length elements) in
  let currentIndex := indexOf currentHighlight elements in
  let nextIndex :=
    match direction with
    | Next => if (currentIndex + 1 >=? length)%Z then 0%Z else (currentIndex + 1)%Z
    | Prev => if (currentIndex - 1 <? 0)%Z then (length - 1)%Z else (currentIndex - 1)%Z
    end in
  match at_ elements nextIndex with
  | Some nextElement => (Some nextElement, Some nextElement)
  | None => (None, currentHighlight)
  end.

End Highlighter.

(** ** States of the playback controller *)

Module Playback.

(** The three flags agree with each other: reading and translating go
    together, and a paused session is not reading. *)
Definition flagsConsistent (t : Toolbar.LanguageBridgeToolbar) : Prop :=
  Toolbar.isReading t = Toolbar.isTranslating t
  /\ Toolbar.isReading t && Toolbar.isPaused t = false.

Definition flagsOf (w : Toolbar.World) : bool * bool * bool :=
  (Toolbar.isReading (Toolbar.toolbar w), Toolbar.isPaused (Toolbar.toolbar w),
   Toolbar.isTranslating (Toolbar.toolbar w)).

Definition keepsFlags (w w' : Toolbar.World) : Prop :=
  flagsConsistent (Toolbar.toolbar w) -> flagsConsistent (Toolbar.toolbar w').

(** The two error messages of [readText] and [resumeReading]. *)
Definition errorStatus (m : jsstring) : bool :=
  Js.eqb m (Js.lit "Error reading text") || Js.eqb m (Js.lit "Error resuming").

(** What the reader of [language] may show or cause: a status that is
    none of the two error messages (any status if [errors] is set), and a
    translation request only if the language is not English. *)
Definition allowed (errors : bool) (language : jsstring) (o : Toolbar.Output) : bool :=
  match o with
  | Toolbar.Status m _ => errors || negb (errorStatus m)
  | Toolbar.Fetch _ => negb (Js.eqb language (Js.lit "en"))
  | _ => true
  end.

(** From [w] to [w'] the language stays and only allowed outputs are added. *)
Definition emitsAllowed (errors : bool) (w w' : Toolbar.World) : Prop :=
  Toolbar.userLanguage (Toolbar.toolbar w') = Toolbar.userLanguage (Toolbar.toolbar w)
  /\ exists l, Toolbar.outputs w' = Toolbar.outputs w ++ l
               /\ forallb (allowed errors (Toolbar.userLanguage (Toolbar.toolbar w))) l = true.

(** The errors the sentence loop passes on to its caller. *)
Definition benign (c : Completion unit) : bool :=
  match c with
  | Return _ => true
  | Throw m => Js.eqb m Toolbar.speechStopped || Js.eqb m Toolbar.speechPaused
  end.

Definition benignProgress (p : Toolbar.Progress) : bool :=
  match p with
  | Toolbar.Awaiting _ => true
  | Toolbar.Done c => benign c
  end.

(** The call [id] is over: its promise is resolved and the reading flags
    are down. *)
Definition finished (id : nat) (w : Toolbar.World) : Prop :=
  Toolbar.lookupTask id (Toolbar.tasks w) = None
  /\ In (id, Return tt) (Toolbar.settled w)
  /\ Toolbar.isReading (Toolbar.toolbar w) = false
  /\ Toolbar.isTranslating (Toolbar.toolbar w) = false
  /\ Toolbar.abortController (Toolbar.toolbar w) = None.

(** What the playback loop leaves alone. *)
Definition sameSession (w w' : Toolbar.World) : Prop :=
  Toolbar.client w' = Toolbar.client w
  /\ Toolbar.userLanguage (Toolbar.toolbar w') = Toolbar.userLanguage (Toolbar.toolbar w)
  /\ Toolbar.translationSentences (Toolbar.toolbar w')
     = Toolbar.translationSentences (Toolbar.toolbar w)
  /\ Toolbar.cachedTranslation (Toolbar.toolbar w') = Toolbar.cachedTranslation (Toolbar.toolbar w)
  /\ Toolbar.isPaused (Toolbar.toolbar w') = Toolbar.isPaused (Toolbar.toolbar w).

(** What the caller of the loop reports when the loop returns. *)
Definition completion (caller : Toolbar.Caller) : list Toolbar.Output :=
  match caller with
  | Toolbar.ReadText => []
  | Toolbar.ResumeReading => [Toolbar.Status (Js.lit "Completed") (Js.lit "info")]
  end.

(** From [w] to [w'] the sentences [l] went to the speech client, one
    after the other, and the call [id] ended normally. *)
Definition playedOut (caller : Toolbar.Caller) (id : nat) (l : list jsstring)
  (w w' : Toolbar.World) : Prop :=
  Toolbar.outputs w'
  = Toolbar.outputs w
    ++ map (fun s => Toolbar.SpeakText s (Toolbar.userLanguage (Toolbar.toolbar w))) l
    ++ completion caller
  /\ sameSession w w'
  /\ finished id w'.

(** What [readText] awaits at [translateText] settles: the endpoint
    answers with [r] if the call went there, and otherwise the promise was
    resolved from the start. *)
Definition answer (id : nat) (started : Azure.Started) (r : Azure.Response) : Toolbar.Event :=
  match started with
  | Azure.Remote _ => Toolbar.Settle id (Toolbar.Translation r)
  | _ => Toolbar.Settle id Toolbar.Tick
  end.

(** A suspended call that does not wait for a translation. *)
Definition notTranslate (p : nat * Toolbar.Cont) : bool :=
  match snd p with
  | Toolbar.AwaitTranslate _ _ _ _ _ => false
  | _ => true
  end.

(** A session of an English reader that has kept no translation and
    waits for none. *)
Definition englishSession (w : Toolbar.World) : Prop :=
  Toolbar.userLanguage (Toolbar.toolbar w) = Js.lit "en"
  /\ Toolbar.cachedTranslation (Toolbar.toolbar w) = None
  /\ forallb notTranslate (Toolbar.tasks w) = true.

Definition englishProgress (p : Toolbar.World * Toolbar.Progress) : Prop :=
  englishSession (fst p)
  /\ match snd p with
     | Toolbar.Awaiting k => notTranslate (0%nat, k) = true
     | Toolbar.Done _ => True
     end.

(** The tooltip cannot be placed: the call came with the selection, which
    has no range now, and the Google Docs adapter is not active. *)
Definition tooltipFails (selection : option Toolbar.Selection) (w : Toolbar.World) : bool :=
  match selection with
  | Some _ =>
      negb (Toolbar.googleDocsActive (Toolbar.window w))
      && (Toolbar.rangeCount (Toolbar.window w) =? 0)%nat
  | None => false
  end.

(** The call suspended at [k] will fail at its tooltip. *)
Definition tooltipFailsFor (k : Toolbar.Cont) (w : Toolbar.World) : bool :=
  match k with
  | Toolbar.AwaitTranslate _ selection _ _ _ => tooltipFails selection w
  | _ => false
  end.

(** The event settles what a call awaits that will fail at its tooltip. *)
Definition tooltipFailsAt (w : Toolbar.World) (e : Toolbar.Event) : bool :=
  match e with
  | Toolbar.Settle id _ =>
      match Toolbar.lookupTask id (Toolbar.tasks w) with
      | Some k => tooltipFailsFor k w
      | None => false
      end
  | _ => false
  end.

(** The event neither assigns the language nor continues a conversation
    turn. *)
Definition readerEvent (e : Toolbar.Event) : bool :=
  match e with
  | Toolbar.SettingsUpdated _ | Toolbar.LanguageSelected _ | Toolbar.SettleTurn _ _ => false
  | _ => true
  end.

(** The event does not make the language another one than English. *)
Definition keepsEnglish (e : Toolbar.Event) : bool :=
  match e with
  | Toolbar.SettingsUpdated (Some l) => negb (Js.truthy l) || Js.eqb l (Js.lit "en")
  | Toolbar.LanguageSelected value => Js.eqb value (Js.lit "en")
  | _ => true
  end.


(** The speech engine finishes a sentence and the pause behind it ends,
    once for every sentence of [l]. *)
Definition playThrough (id : nat) (l : list jsstring) : list Toolbar.Event :=
  flat_map (fun _ => [Toolbar.Settle id (Toolbar.Spoken (Return tt));
                      Toolbar.Settle id Toolbar.Tick]) l.

End Playback.

(** * Properties *)

(** ** Strings *)

Lemma js_eqb_spec (a b : jsstring) : Js.eqb a b = true <-> a = b.
Proof.
  revert b; induction a as [|x a IH]; intros [|y b]; simpl;
    try (split; [discriminate | congruence]); try tauto.
  rewrite andb_true_iff, N.eqb_eq, IH. split.
  - intros [-> ->]; reflexivity.
  - intros H; injection H; auto.
Qed.

Lemma js_eqb_refl (a : jsstring) : Js.eqb a a = true.
Proof. apply js_eqb_spec; reflexivity. Qed.

Lemma js_eqb_neq (a b : jsstring) : Js.eqb a b = false <-> a <> b.
Proof.
  split.
  - intros H E. apply js_eqb_spec in E. congruence.
  - intros H. destruct (Js.eqb a b) eqn:E; [apply js_eqb_spec in E; contradiction | reflexivity].
Qed.

(** ** The map of the cache *)

Section MapFacts.

Implicit Types (m : JsMap.t) (k v : jsstring).

Lemma has_false_notin k m : JsMap.has k m = false <-> ~ In k (JsMap.keys m).
Proof.
  unfold JsMap.has. induction m as [|[k' v'] m IH]; simpl.
  - tauto.
  - destruct (Js.eqb k' k) eqn:E.
    + apply js_eqb_spec in E. subst. split; [discriminate | intros H; exfalso; auto].
    + apply js_eqb_neq in E. rewrite IH. tauto.
Qed.

Lemma set_fresh k v m : JsMap.has k m = false -> JsMap.set k v m = m ++ [(k, v)].
Proof.
  unfold JsMap.has. induction m as [|[k' v'] m IH]; simpl; intros H.
  - reflexivity.
  - destruct (Js.eqb k' k); [discriminate | rewrite IH by exact H; reflexivity].
Qed.

Lemma get_set_same k v m : JsMap.get k (JsMap.set k v m) = Some v.
Proof.
  induction m as [|[k' v'] m IH]; simpl.
  - rewrite js_eqb_refl; reflexivity.
  - destruct (Js.eqb k' k) eqn:E; simpl; rewrite E; auto.
Qed.

Lemma size_set_le k v m : JsMap.size (JsMap.set k v m) <= S (JsMap.size m).
Proof.
  unfold JsMap.size. induction m as [|[k' v'] m IH]; simpl.
  - lia.
  - destruct (Js.eqb k' k); simpl; lia.
Qed.

(** Deleting the first key removes the first entry. *)
Lemma delete_firstKey m k : JsMap.firstKey m = Some k -> JsMap.delete k m = tl m.
Proof.
  destruct m as [|[k' v'] m]; simpl; [discriminate|].
  intros H; injection H as ->. rewrite js_eqb_refl. reflexivity.
Qed.

End MapFacts.

(** ** The cache never outgrows its bound *)

Section CacheStore.

Variable cap : nat.

Lemma cacheStore_size k v m :
  JsMap.size m <= cap -> JsMap.size (Azure.cacheStore cap k v m) <= cap.
Proof.
  intros Hm. unfold Azure.cacheStore.
  pose proof (size_set_le k v m) as Hle.
  destruct (cap <? JsMap.size (JsMap.set k v m)) eqn:E.
  - destruct (JsMap.firstKey (JsMap.set k v m)) as [fk|] eqn:F.
    + rewrite (delete_firstKey _ _ F).
      destruct (JsMap.set k v m); unfold JsMap.size in *; simpl in *; lia.
    + destruct (JsMap.set k v m) as [|[? ?] ?]; simpl in *; [|discriminate].
      unfold JsMap.size; simpl; lia.
  - apply Nat.ltb_ge in E. exact E.
Qed.

(** Below the bound a fresh key is appended and nothing is evicted. *)
Lemma cacheStore_append k v m :
  JsMap.has k m = false -> JsMap.size m < cap ->
  Azure.cacheStore cap k v m = m ++ [(k, v)].
Proof.
  intros Hk Hm. unfold Azure.cacheStore. rewrite (set_fresh _ _ _ Hk).
  unfold JsMap.size in *. rewrite length_app. simpl.
  destruct (cap <? List.length m + 1) eqn:E; [apply Nat.ltb_lt in E; lia | reflexivity].
Qed.

(** At the bound a fresh key is appended and the oldest entry leaves. *)
Lemma cacheStore_evict k v m :
  JsMap.has k m = false -> JsMap.size m = cap -> 0 < cap ->
  Azure.cacheStore cap k v m = tl m ++ [(k, v)].
Proof.
  intros Hk Hm Hc. unfold Azure.cacheStore. rewrite (set_fresh _ _ _ Hk).
  unfold JsMap.size in *. rewrite length_app. simpl.
  destruct (cap <? List.length m + 1) eqn:E; [|apply Nat.ltb_ge in E; lia].
  destruct m as [|[k0 v0] m]; simpl in *; [lia|].
  rewrite js_eqb_refl. reflexivity.
Qed.

End CacheStore.

(** ** [translateText] *)

Section Translate.

Import Azure.

Implicit Types (c : AzureClient) (q : Call) (r : Response).



Lemma translateCall_password c q : demoPassword (translateCall c q) = demoPassword c.
Proof.
  unfold translateCall, translateText.
  destruct (translateText_start _ _ _ _); try reflexivity.
  unfold translateWithAzureDirect, azureDirect_try.
  destruct (call_response q) as [[t|]| |]; reflexivity.
Qed.

Lemma translateAll_cons c q qs :
  translateAll c (q :: qs) = translateAll (translateCall c q) qs.
Proof. reflexivity. Qed.

Lemma translateAll_password c qs : demoPassword (translateAll c qs) = demoPassword c.
Proof.
  revert c; induction qs as [|q qs IH]; intros c; [reflexivity|].
  rewrite translateAll_cons, IH. apply translateCall_password.
Qed.

Lemma translateCall_size c q :
  JsMap.size (translationCache c) <= maxCacheSize ->
  JsMap.size (translationCache (translateCall c q)) <= maxCacheSize.
Proof.
  intros H. unfold translateCall, translateText.
  destruct (translateText_start _ _ _ _); try exact H.
  unfold translateWithAzureDirect, azureDirect_try.
  destruct (call_response q) as [[t|]| |]; simpl; try exact H;
    apply cacheStore_size; exact H.
Qed.

(** An insertion runs the store of [translateWithAzureDirect] on a key
    that is not cached. *)
Lemma inserts_store c q :
  inserts c q = true ->
  JsMap.has (callKey q) (translationCache c) = false
  /\ passwordActive c = true
  /\ translationCache (translateCall c q)
     = cacheStore maxCacheSize (callKey q) (snd (storedEntry q)) (translationCache c).
Proof.
  unfold inserts, translateCall, translateText, translateText_start, storedEntry, callKey.
  destruct (JsMap.has _ _) eqn:Hh; [discriminate|].
  destruct (passwordActive c) eqn:Hp; simpl; [|discriminate].
  unfold translateWithAzureDirect, azureDirect_try.
  destruct (call_response q) as [[t|]| |]; try discriminate; intros _; auto.
Qed.

(** While the bound is not exceeded the cache is the list of what was
    inserted; one insertion more drops the oldest entry. *)
Lemma allInsert_cache c qs :
  allInsert c qs = true ->
  JsMap.size (translationCache c) <= maxCacheSize ->
  translationCache (translateAll c qs)
  = skipn (JsMap.size (translationCache c) + List.length qs - maxCacheSize)
      (translationCache c ++ map storedEntry qs).
Proof.
  revert c; induction qs as [|q qs IH]; intros c Hall Hsz.
  - simpl. rewrite app_nil_r.
    replace (JsMap.size (translationCache c) + 0 - maxCacheSize) with 0 by lia.
    reflexivity.
  - simpl in Hall. apply andb_true_iff in Hall as [Hq Hall].
    destruct (inserts_store _ _ Hq) as (Hfresh & _ & Hstore).
    rewrite translateAll_cons, (IH _ Hall (translateCall_size _ q Hsz)).
    simpl map. simpl List.length.
    rewrite Hstore.
    assert (Hentry : (callKey q, snd (storedEntry q)) = storedEntry q) by reflexivity.
    destruct (Nat.eq_dec (JsMap.size (translationCache c)) maxCacheSize) as [Hfull|Hroom].
    + rewrite (cacheStore_evict _ _ _ _ Hfresh Hfull) by (unfold maxCacheSize; lia).
      rewrite Hentry.
      destruct (translationCache c) as [|e m] eqn:Em;
        [unfold maxCacheSize, JsMap.size in Hfull; simpl in Hfull; lia|].
      unfold JsMap.size in *. simpl tl. rewrite length_app. simpl List.length in *.
      rewrite <- app_assoc. simpl app.
      replace (S (List.length m) + S (List.length qs) - maxCacheSize)
        with (S (List.length m + 1 + List.length qs - maxCacheSize)) by lia.
      reflexivity.
    + rewrite (cacheStore_append _ _ _ _ Hfresh) by (unfold JsMap.size in *; lia).
      rewrite Hentry. unfold JsMap.size in *. rewrite length_app. simpl List.length.
      rewrite <- app_assoc. simpl app.
      replace (List.length (translationCache c) + 1 + List.length qs - maxCacheSize)
        with (List.length (translationCache c) + S (List.length qs) - maxCacheSize) by lia.
      reflexivity.
Qed.

Lemma keys_storedEntry qs : JsMap.keys (map storedEntry qs) = map callKey qs.
Proof. unfold JsMap.keys. rewrite map_map. reflexivity. Qed.

(** While an entry is still cached, no insertion can have its key: each
    insertion missed a cache that held the entry. *)
Lemma allInsert_apart c qs pre e post :
  allInsert c qs = true ->
  translationCache c = pre ++ e :: post ->
  JsMap.size (translationCache c) <= maxCacheSize ->
  List.length post + List.length qs <= maxCacheSize ->
  forall q, In q qs -> callKey q <> fst e.
Proof.
  revert c pre post; induction qs as [|q0 qs IH]; intros c pre post Hall Hc Hsz Hlen q Hin;
    [destruct Hin|].
  simpl in Hall, Hlen. apply andb_true_iff in Hall as [Hq0 Hall].
  destruct (inserts_store _ _ Hq0) as (Hfresh & _ & Hstore).
  destruct Hin as [<-|Hin].
  - apply has_false_notin in Hfresh. intros Hk. apply Hfresh.
    rewrite Hc. unfold JsMap.keys. rewrite map_app. apply in_or_app. right.
    left. symmetry. exact Hk.
  - assert (Hqs : 1 <= List.length qs) by (destruct qs; [destruct Hin | simpl; lia]).
    destruct (Nat.eq_dec (JsMap.size (translationCache c)) maxCacheSize) as [Hfull|Hroom].
    + rewrite (cacheStore_evict _ _ _ _ Hfresh Hfull) in Hstore by (unfold maxCacheSize; lia).
      rewrite Hc in Hstore, Hfull. unfold JsMap.size in Hfull.
      rewrite length_app in Hfull. simpl in Hfull.
      destruct pre as [|p0 pre]; [simpl in Hfull; lia|].
      simpl in Hstore. rewrite <- app_assoc in Hstore. simpl in Hstore.
      apply (IH _ _ _ Hall Hstore (translateCall_size _ q0 Hsz)); [|exact Hin].
      rewrite length_app. simpl. lia.
    + rewrite (cacheStore_append _ _ _ _ Hfresh) in Hstore by (unfold JsMap.size in *; lia).
      rewrite Hc, <- app_assoc in Hstore. simpl in Hstore.
      apply (IH _ _ _ Hall Hstore (translateCall_size _ q0 Hsz)); [|exact Hin].
      rewrite length_app. simpl. lia.
Qed.

(** An insertion puts its entry at the end of the cache. *)
Lemma inserts_last c q :
  inserts c q = true ->
  JsMap.size (translationCache c) <= maxCacheSize ->
  exists pre, translationCache (translateCall c q) = pre ++ [storedEntry q].
Proof.
  intros Hq Hsz. destruct (inserts_store _ _ Hq) as (Hfresh & _ & Hstore).
  rewrite Hstore.
  destruct (Nat.eq_dec (JsMap.size (translationCache c)) maxCacheSize) as [Hfull|Hroom].
  - rewrite (cacheStore_evict _ _ _ _ Hfresh Hfull) by (unfold maxCacheSize; lia).
    exists (tl (translationCache c)). reflexivity.
  - rewrite (cacheStore_append _ _ _ _ Hfresh) by (unfold JsMap.size in *; lia).
    exists (translationCache c). reflexivity.
Qed.

Lemma keys_set k v m k' :
  In k' (JsMap.keys (JsMap.set k v m)) -> k' = k \/ In k' (JsMap.keys m).
Proof.
  unfold JsMap.keys. induction m as [|[k0 v0] m IH]; simpl.
  - intros [<-|[]]. left. reflexivity.
  - destruct (Js.eqb k0 k); simpl; [tauto|]. intros [<-|H]; [tauto|].
    destruct (IH H); tauto.
Qed.

Lemma keys_delete k m k' :
  In k' (JsMap.keys (JsMap.delete k m)) -> In k' (JsMap.keys m).
Proof.
  unfold JsMap.keys. induction m as [|[k0 v0] m IH]; simpl; [tauto|].
  destruct (Js.eqb k0 k); simpl; [tauto|]. intros [<-|H]; [tauto | right; exact (IH H)].
Qed.

Lemma keys_cacheStore cap k v m k' :
  In k' (JsMap.keys (cacheStore cap k v m)) -> k' = k \/ In k' (JsMap.keys m).
Proof.
  unfold cacheStore. intros H. apply keys_set with (v := v).
  destruct (cap <? JsMap.size (JsMap.set k v m)); [|exact H].
  destruct (JsMap.firstKey (JsMap.set k v m)); [|exact H].
  eapply keys_delete. exact H.
Qed.

(** Calls for keys that are pairwise distinct and not cached yet, all
    answered with a translation, are insertions one after the other. *)
Lemma distinct_keys_all_insert c qs :
  passwordActive c = true ->
  NoDup (map callKey qs) ->
  (forall q, In q qs ->
     ~ In (callKey q) (JsMap.keys (translationCache c))
     /\ exists t, call_response q = Ok t) ->
  allInsert c qs = true.
Proof.
  revert c; induction qs as [|q0 qs IH]; intros c Hpw Hnd Hqs; [reflexivity|].
  simpl. inversion Hnd as [|? ? Hq0 Hnd']; subst.
  destruct (Hqs q0 (or_introl eq_refl)) as (Hfresh & t & Hok).
  assert (Hins : inserts c q0 = true).
  { unfold inserts, translateText_start. fold (callKey q0).
    apply has_false_notin in Hfresh. rewrite Hfresh, Hpw, Hok. reflexivity. }
  rewrite Hins. simpl. apply IH.
  - unfold passwordActive in *. rewrite translateCall_password. exact Hpw.
  - exact Hnd'.
  - intros q Hq. destruct (Hqs q (or_intror Hq)) as (Hfq & Hresp).
    split; [|exact Hresp].
    destruct (inserts_store _ _ Hins) as (_ & _ & Hstore). rewrite Hstore.
    intros Hin. apply keys_cacheStore in Hin as [Heq|Hin]; [|exact (Hfq Hin)].
    apply Hq0. rewrite <- Heq. apply in_map. exact Hq.
Qed.

End Translate.

Section TranslateClaims.

Import Azure.

Lemma cacheStore_get_fresh k v m :
  JsMap.has k m = false ->
  JsMap.get k (cacheStore maxCacheSize k v m) = Some v.
Proof.
  intros Hk. unfold cacheStore.
  destruct (maxCacheSize <? JsMap.size (JsMap.set k v m)) eqn:E;
    [|apply get_set_same].
  destruct m as [|[k0 v0] m]; [discriminate E|].
  unfold JsMap.has in Hk. simpl in Hk |- *.
  destruct (Js.eqb k0 k) eqn:E0; [discriminate|].
  simpl. rewrite js_eqb_refl. apply get_set_same.
Qed.

Lemma translateAll_size password qs :
  JsMap.size (translationCache (translateAll (newClient password) qs)) <= maxCacheSize.
Proof.
  assert (H : forall c, JsMap.size (translationCache c) <= maxCacheSize ->
                JsMap.size (translationCache (translateAll c qs)) <= maxCacheSize).
  { induction qs as [|q qs IH]; intros c Hc; [exact Hc|].
    rewrite translateAll_cons. apply IH, translateCall_size, Hc. }
  apply H. unfold maxCacheSize. simpl. lia.
Qed.

(** C10: on a cache miss without an active demo password [translateText]
    returns the text it was given, sends no request and leaves the cache
    as it is. *)
Theorem translateText_without_password c text fromLang toLang r :
  JsMap.has (cacheKey text fromLang toLang) (translationCache c) = false ->
  passwordActive c = false ->
  translateText c text fromLang toLang r = (c, Return text, []).
Proof.
  intros Hmiss Hpw. unfold translateText, translateText_start.
  rewrite Hmiss, Hpw. reflexivity.
Qed.

Lemma translateText_without_password_witness :
  translateText (newClient None) (Js.lit "hello") Sample.en Sample.fa (Ok (Some (Js.lit "salaam")))
  = (newClient None, Return (Js.lit "hello"), []).
Proof. apply translateText_without_password; reflexivity. Defined.

(** C9: the key [`${fromLang}-${toLang}-${text}`] is the same for some
    distinct triples, and once a translation is cached for one triple, a
    call for any triple with the same key gets that translation back
    without a request of its own. *)
Theorem cacheKey_collision :
  (exists text1 from1 to1 text2 from2 to2,
      (text1, from1, to1) <> (text2, from2, to2)
      /\ cacheKey text1 from1 to1 = cacheKey text2 from2 to2)
  /\ forall c text1 from1 to1 text2 from2 to2 translation r,
      cacheKey text1 from1 to1 = cacheKey text2 from2 to2 ->
      inserts c (Sample.okCall text1 from1 to1 translation) = true ->
      translation <> [] ->
      let c1 := translateCall c (Sample.okCall text1 from1 to1 translation) in
      translateText c1 text2 from2 to2 r = (c1, Return translation, []).
Proof.
  split.
  - exists (Js.lit "IR-formal-hello"), Sample.en, Sample.fa,
      (Js.lit "hello"), Sample.en, Sample.faFormal.
    split; [discriminate | reflexivity].
  - intros c text1 from1 to1 text2 from2 to2 translation r Hkey Hins Hne c1.
    destruct (inserts_store _ _ Hins) as (Hfresh & _ & Hstore).
    unfold callKey in Hfresh, Hstore. simpl in Hfresh, Hstore.
    assert (Htr : Js.truthy translation = true) by (destruct translation; [exfalso; apply Hne; reflexivity | reflexivity]).
    rewrite Htr in Hstore.
    pose proof (cacheStore_get_fresh _ translation _ Hfresh) as Hget.
    rewrite <- Hstore in Hget. fold c1 in Hget.
    unfold translateText, translateText_start, JsMap.has.
    rewrite <- Hkey, Hget, Htr. reflexivity.
Qed.

Lemma cacheKey_collision_witness :
  let c1 := translateCall (newClient Sample.password)
              (Sample.okCall (Js.lit "IR-formal-hello") Sample.en Sample.fa (Js.lit "salaam")) in
  translateText c1 (Js.lit "hello") Sample.en Sample.faFormal (NetworkError [])
  = (c1, Return (Js.lit "salaam"), []).
Proof.
  apply (proj2 cacheKey_collision); [reflexivity | reflexivity | discriminate].
Defined.

(** C5, amended: 101 insertions (calls that miss the cache and get a translation
    from the endpoint) leave exactly the last 100 of them in the cache, in
    the order of their insertion: the entry inserted first is gone and a
    call for its triple misses the cache.  And whatever calls are made,
    the cache holds at most 100 entries after each of them.  (Calls that
    all insert have distinct keys, hence distinct triples; conversely,
    calls for distinct keys that are not cached yet all insert when the
    endpoint answers them.) *)
Theorem cache_fifo_eviction :
  (forall password qs,
      JsMap.size (translationCache (translateAll (newClient password) qs)) <= 100)
  /\ (forall c qs,
        passwordActive c = true ->
        NoDup (map callKey qs) ->
        (forall q, In q qs ->
           ~ In (callKey q) (JsMap.keys (translationCache c))
           /\ exists t, call_response q = Ok t) ->
        allInsert c qs = true)
  /\ forall c first rest,
      JsMap.size (translationCache c) <= 100 ->
      List.length (first :: rest) = 101 ->
      allInsert c (first :: rest) = true ->
      let c' := translateAll c (first :: rest) in
      translationCache c' = map storedEntry rest
      /\ JsMap.has (callKey first) (translationCache c') = false
      /\ translateText_start c' (call_text first) (call_from first) (call_to first)
         = Remote (callKey first).
Proof.
  split; [exact translateAll_size|].
  split; [exact distinct_keys_all_insert|].
  intros c first rest Hsz Hlen Hall c'.
  assert (Hcache : translationCache c' = map storedEntry rest).
  { unfold c'. rewrite (allInsert_cache _ _ Hall Hsz), Hlen.
    replace (JsMap.size (translationCache c) + 101 - maxCacheSize)
      with (List.length (translationCache c) + 1) by (unfold maxCacheSize, JsMap.size; lia).
    rewrite skipn_app, skipn_all2 by lia.
    replace (List.length (translationCache c) + 1 - List.length (translationCache c))
      with 1 by lia.
    reflexivity. }
  assert (Hmiss : JsMap.has (callKey first) (translationCache c') = false).
  { rewrite Hcache. apply has_false_notin. rewrite keys_storedEntry.
    intros Hin. apply in_map_iff in Hin as (q & Hq & Hin).
    simpl in Hall. apply andb_true_iff in Hall as [Hfirst Hall].
    destruct (inserts_last _ _ Hfirst Hsz) as (pre & Hpre).
    assert (Hne : callKey q <> fst (storedEntry first)).
    { apply (allInsert_apart _ _ pre (storedEntry first) [] Hall Hpre).
      - apply translateCall_size. exact Hsz.
      - simpl in Hlen |- *. unfold maxCacheSize. lia.
      - exact Hin. }
    apply Hne. exact Hq. }
  split; [exact Hcache|].
  split; [exact Hmiss|].
  unfold translateText_start. fold (callKey first). rewrite Hmiss.
  simpl in Hall. apply andb_true_iff in Hall as [Hfirst _].
  destruct (inserts_store _ _ Hfirst) as (_ & Hpw & _).
  unfold passwordActive in *. unfold c'. rewrite translateAll_password, Hpw. reflexivity.
Qed.

Lemma cache_fifo_eviction_witness :
  let c' := translateAll (newClient Sample.password) Sample.calls101 in
  translationCache c' = map storedEntry (tl Sample.calls101)
  /\ JsMap.has (cacheKey [97%N] Sample.en Sample.fa) (translationCache c') = false
  /\ translateText_start c' [97%N] Sample.en Sample.fa
     = Remote (cacheKey [97%N] Sample.en Sample.fa).
Proof.
  apply (proj2 (proj2 cache_fifo_eviction) (newClient Sample.password)
           (Sample.okCall [97%N] Sample.en Sample.fa [98%N]) (tl Sample.calls101));
    [ simpl; lia | reflexivity | vm_compute; reflexivity ].
Defined.

(** C5 as the claim states it fails: the 101 calls of
    [Sample.colliding101] are for pairwise different triples and the
    endpoint translates each of them, but the second call has the key of
    the first and is answered from the cache.  So only 100 entries are ever
    inserted, nothing is evicted, the entry of the first call is still
    there after the 101st, and a call for the first triple is a hit. *)
Lemma distinct_triples_do_not_evict :
  let qs := Sample.colliding101 in
  let first := Sample.okCall (Js.lit "IR-formal-hello") Sample.en Sample.fa (Js.lit "salaam") in
  let c' := translateAll (newClient Sample.password) qs in
  List.length qs = 101
  /\ distinctTriples qs = true
  /\ forallb (fun q => negb (failed (call_response q))) qs = true
  /\ JsMap.size (translationCache c') = 100
  /\ hd_error (translationCache c') = Some (storedEntry first)
  /\ JsMap.has (callKey first) (translationCache c') = true
  /\ translateText_start c' (call_text first) (call_from first) (call_to first)
     = Cached (Js.lit "salaam").
Proof. vm_compute. repeat split. Qed.

End TranslateClaims.

(** ** The segmenter *)

Section SegmenterFacts.

Import Segmenter.

Lemma span_app p s : fst (span p s) ++ snd (span p s) = s.
Proof.
  induction s as [|c s IH]; simpl; [reflexivity|].
  destruct (p c); [|reflexivity].
  destruct (span p s) as [a b]. simpl in *. rewrite IH. reflexivity.
Qed.

Lemma span_all p s : Forall (fun c => p c = true) (fst (span p s)).
Proof.
  induction s as [|c s IH]; simpl; [constructor|].
  destruct (p c) eqn:E; [|constructor].
  destruct (span p s) as [a b]. simpl in *. constructor; assumption.
Qed.

(** A match is a run of non-terminators followed by a run of
    terminators, both non-empty, and it is taken off the front. *)
Lemma exec_shape s m r :
  exec s = Some (m, r) ->
  s = m ++ r
  /\ exists body run,
      m = body ++ run /\ body <> [] /\ run <> []
      /\ Forall (fun c => isTerminator c = false) body
      /\ Forall (fun c => isTerminator c = true) run.
Proof.
  unfold exec.
  pose proof (span_app (fun c => negb (isTerminator c)) s) as Happ1.
  pose proof (span_all (fun c => negb (isTerminator c)) s) as Hall1.
  destruct (span (fun c => negb (isTerminator c)) s) as [body r1]. simpl in *.
  pose proof (span_app isTerminator r1) as Happ2.
  pose proof (span_all isTerminator r1) as Hall2.
  destruct (span isTerminator r1) as [run r2]. simpl in *.
  destruct body as [|b body]; [discriminate|].
  destruct run as [|t run]; [discriminate|].
  intros H; injection H as <- <-. split.
  - rewrite <- Happ1, <- Happ2. apply app_assoc.
  - exists (b :: body), (t :: run). repeat split; try discriminate; [|exact Hall2].
    eapply Forall_impl; [|exact Hall1]. simpl. intros c Hc.
    apply negb_true_iff. exact Hc.
Qed.

Lemma exec_shorter s m r : exec s = Some (m, r) -> List.length r < List.length s.
Proof.
  intros H. destruct (exec_shape _ _ _ H) as (-> & body & run & -> & Hb & _).
  rewrite !length_app. destruct body; [contradiction|]. simpl. lia.
Qed.

(** The fuel of [matchAll] is enough: more of it changes nothing. *)
Lemma matchLoop_fuel n s : List.length s <= n -> matchLoop n s = matchAll s.
Proof.
  unfold matchAll.
  assert (H : forall k a b t, List.length t <= a -> List.length t <= b -> a <= k ->
                matchLoop a t = matchLoop b t).
  { induction k as [|k IH]; intros a b t Ha Hb Hk.
    - destruct t; simpl in *; [|lia]. destruct a, b; reflexivity.
    - destruct a as [|a], b as [|b]; try (destruct t; simpl in *; [reflexivity | lia]).
      destruct t as [|c t]; [reflexivity|].
        change (matchLoop (S a) (c :: t))
          with (match exec (c :: t) with
                | Some (m, r) => m :: matchLoop a r
                | None => matchLoop a t
                end).
        change (matchLoop (S b) (c :: t))
          with (match exec (c :: t) with
                | Some (m, r) => m :: matchLoop b r
                | None => matchLoop b t
                end).
        destruct (exec (c :: t)) as [[m r]|] eqn:E.
        * apply exec_shorter in E. simpl in *. f_equal. apply IH; lia.
        * simpl in *. apply IH; lia. }
  intros Hn. apply (H n); lia.
Qed.

Lemma matchLoop_shape n s m :
  In m (matchLoop n s) ->
  exists body run,
    m = body ++ run /\ body <> [] /\ run <> []
    /\ Forall (fun c => isTerminator c = false) body
    /\ Forall (fun c => isTerminator c = true) run.
Proof.
  revert s; induction n as [|n IH]; intros s Hin; [destruct Hin|].
  destruct s as [|c t]; [destruct Hin|].
  change (matchLoop (S n) (c :: t))
    with (match exec (c :: t) with
          | Some (m, r) => m :: matchLoop n r
          | None => matchLoop n t
          end) in Hin.
  destruct (exec (c :: t)) as [[m0 r]|] eqn:E.
  - destruct Hin as [<-|Hin]; [|eapply IH; exact Hin].
    apply exec_shape in E. tauto.
  - eapply IH; exact Hin.
Qed.

Lemma isTerminator_spec c : isTerminator c = true <-> In c terminators.
Proof.
  unfold isTerminator. rewrite existsb_exists. split.
  - intros (x & Hx & E). apply N.eqb_eq in E. subst. exact Hx.
  - intros H. exists c. split; [exact H | apply N.eqb_refl].
Qed.

Lemma terminator_not_whitespace c : isTerminator c = true -> Js.isWhiteSpace c = false.
Proof.
  intros H. apply isTerminator_spec in H. simpl in H.
  repeat (destruct H as [<-|H]; [reflexivity|]). destruct H.
Qed.

End SegmenterFacts.

Section TrimFacts.

Lemma trimStart_idem s : Js.trimStart (Js.trimStart s) = Js.trimStart s.
Proof.
  induction s as [|c s IH]; simpl; [reflexivity|].
  destruct (Js.isWhiteSpace c) eqn:E; [exact IH|]. simpl. rewrite E. reflexivity.
Qed.

(** What [trimStart] keeps of a string that ends in a visible code unit
    still ends in it. *)
Lemma trimStart_keeps_last s c :
  Js.isWhiteSpace c = false -> exists s', Js.trimStart (s ++ [c]) = s' ++ [c].
Proof.
  intros Hc. induction s as [|d s IH]; simpl.
  - rewrite Hc. exists []. reflexivity.
  - destruct (Js.isWhiteSpace d); [exact IH|]. exists (d :: s). reflexivity.
Qed.

Lemma trim_idem s : Js.trim (Js.trim s) = Js.trim s.
Proof.
  unfold Js.trim, Js.trimEnd.
  assert (Hstart : Js.trimStart (rev (Js.trimStart (rev (Js.trimStart s))))
                   = rev (Js.trimStart (rev (Js.trimStart s)))).
  { destruct (Js.trimStart s) as [|c t] eqn:E; [reflexivity|].
    assert (Hc : Js.isWhiteSpace c = false).
    { clear -E. induction s as [|d s IH]; simpl in E; [discriminate|].
      destruct (Js.isWhiteSpace d) eqn:Ed; [exact (IH E)|].
      injection E as -> _. exact Ed. }
    simpl rev. destruct (trimStart_keeps_last (rev t) c Hc) as (s' & ->).
    rewrite rev_app_distr. simpl. rewrite Hc. reflexivity. }
  rewrite Hstart, rev_involutive, trimStart_idem. reflexivity.
Qed.

End TrimFacts.

Section SegmenterClaims.

Import Segmenter.

(** Every sentence the segmenter returns is trimmed and not empty. *)
Lemma splitIntoSentences_trimmed text s :
  In s (splitIntoSentences text) -> s <> [] /\ Js.trim s = s.
Proof.
  unfold splitIntoSentences. intros H.
  apply filter_In in H as [H Hlen]. apply in_map_iff in H as (x & <- & _).
  split; [|apply trim_idem].
  intros E. rewrite E in Hlen. discriminate.
Qed.

Lemma span_split p a b :
  Forall (fun c => p c = true) a ->
  match b with [] => True | c :: _ => p c = false end ->
  Segmenter.span p (a ++ b) = (a, b).
Proof.
  intros Ha Hb. induction Ha as [|c a Hc Ha IH]; simpl.
  - destruct b as [|c b]; [reflexivity | simpl; rewrite Hb; reflexivity].
  - rewrite Hc, IH. reflexivity.
Qed.

(** Text without a terminator contains no match. *)
Lemma matchLoop_unterminated n tail :
  Forall (fun c => isTerminator c = false) tail -> matchLoop n tail = [].
Proof.
  revert tail; induction n as [|n IH]; intros tail Ht; [reflexivity|].
  destruct tail as [|c t]; [reflexivity|].
  change (matchLoop (S n) (c :: t))
    with (match exec (c :: t) with
          | Some (m, r) => m :: matchLoop n r
          | None => matchLoop n t
          end).
  assert (E : exec (c :: t) = None).
  { unfold exec.
    rewrite <- (app_nil_r (c :: t)) at 1.
    rewrite span_split; [reflexivity | | exact I].
    eapply Forall_impl; [|exact Ht]. simpl. intros a Ha. rewrite Ha. reflexivity. }
  rewrite E. apply IH. inversion Ht; assumption.
Qed.

(** In general: whatever follows the last run of terminators and holds no
    terminator itself does not reach the result. *)
Lemma splitIntoSentences_ignores_rest body run tail :
  body <> [] -> run <> [] ->
  Forall (fun c => isTerminator c = false) body ->
  Forall (fun c => isTerminator c = true) run ->
  Forall (fun c => isTerminator c = false) tail ->
  splitIntoSentences (body ++ run ++ tail) = splitIntoSentences (body ++ run).
Proof.
  intros Hb Hr Fb Fr Ft.
  assert (Hexec : forall rest,
             Forall (fun c => isTerminator c = false) rest ->
             exec (body ++ run ++ rest) = Some (body ++ run, rest)).
  { intros rest Frest. unfold exec.
    rewrite span_split.
    - rewrite span_split; [| exact Fr |].
      + destruct body; [contradiction|]. destruct run; [contradiction|]. reflexivity.
      + destruct rest as [|c rest]; [exact I | inversion Frest; assumption].
    - eapply Forall_impl; [|exact Fb]. simpl. intros a Ha. rewrite Ha. reflexivity.
    - destruct run as [|c run]; [contradiction|]. simpl.
      inversion Fr as [|? ? Hc ?]. rewrite Hc. reflexivity. }
  assert (Hall : forall rest,
             Forall (fun c => isTerminator c = false) rest ->
             matchAll (body ++ run ++ rest) = [body ++ run]).
  { intros rest Frest. unfold matchAll.
    destruct body as [|b0 body']; [contradiction|].
    simpl List.length.
    change (matchLoop (S (List.length (body' ++ run ++ rest))) ((b0 :: body') ++ run ++ rest))
      with (match exec ((b0 :: body') ++ run ++ rest) with
            | Some (m, r) => m :: matchLoop (List.length (body' ++ run ++ rest)) r
            | None => matchLoop (List.length (body' ++ run ++ rest)) (body' ++ run ++ rest)
            end).
    rewrite (Hexec rest Frest), matchLoop_unterminated by exact Frest. reflexivity. }
  unfold splitIntoSentences, str_match.
  rewrite (Hall tail Ft).
  pose proof (Hall [] (Forall_nil _)) as H0. rewrite !app_nil_r in H0. rewrite H0.
  reflexivity.
Qed.

(** C3 (the code loses the text behind the last terminator): the text
    "Hello. World" has one terminator and an unterminated rest, and the
    segmenter returns the single sentence "Hello."; since a text without
    any terminator is returned whole, "World" alone is kept. *)
Theorem splitIntoSentences_drops_unterminated_rest :
  splitIntoSentences Sample.helloWorld = [Js.lit "Hello."]
  /\ splitIntoSentences (Js.lit "World") = [Js.lit "World"]
  /\ List.length (filter isTerminator Sample.helloWorld) = 1.
Proof.
  split; [|split].
  - vm_compute. reflexivity.
  - vm_compute. reflexivity.
  - reflexivity.
Qed.

(** C6 as the claim states it fails: U+00BF is in the class the regular
    expression splits on, and "Hola ¿Como estas?" is cut behind it. *)
Lemma inverted_question_mark_is_boundary :
  isTerminator 191%N = true
  /\ splitIntoSentences Sample.holaComoEstas
     = [Js.lit "Hola " ++ [191%N]; Js.lit "Como estas?"].
Proof. split; reflexivity. Qed.

(** C6, amended: the segmenter splits on exactly the seven code units
    [. ! ? ؟ ؛ ۔ ¿]; every piece the regular expression cuts out is a
    non-empty run of other code units followed by a non-empty run of
    these seven; and between two letters a code unit makes a boundary
    if and only if it is one of the seven. *)
Theorem boundary_characters :
  (forall c, isTerminator c = true <-> In c [46; 33; 63; 1567; 1563; 1748; 191]%N)
  /\ (forall text m,
        In m (matchAll text) ->
        exists body run,
          m = body ++ run /\ body <> [] /\ run <> []
          /\ Forall (fun c => isTerminator c = false) body
          /\ Forall (fun c => isTerminator c = true) run)
  /\ (forall c,
        splitIntoSentences [97; c; 98; 46]%N
        = if isTerminator c then [[97; c]; [98; 46]]%N else [[97; c; 98; 46]]%N).
Proof.
  split; [exact isTerminator_spec|].
  split; [intros text m; apply matchLoop_shape|].
  intros c. destruct (isTerminator c) eqn:E.
  - pose proof (terminator_not_whitespace _ E) as Hws.
    unfold splitIntoSentences, str_match, matchAll, matchLoop, exec. simpl.
    rewrite E. simpl. rewrite E. simpl.
    unfold Js.trim, Js.trimEnd. simpl. rewrite Hws. reflexivity.
  - unfold splitIntoSentences, str_match, matchAll, matchLoop, exec. simpl.
    rewrite E. simpl. reflexivity.
Qed.

Lemma boundary_characters_witness :
  exists body run,
    Js.lit "Hola " ++ [191%N] = body ++ run /\ body <> [] /\ run <> []
    /\ Forall (fun c => isTerminator c = false) body
    /\ Forall (fun c => isTerminator c = true) run.
Proof.
  apply (proj1 (proj2 boundary_characters) Sample.holaComoEstas).
  left. reflexivity.
Defined.

End SegmenterClaims.

(** ** The playback controller *)

Section ToolbarFacts.

Import Toolbar.

Lemma slice_zero {A : Type} (l : list A) : Js.slice l 0 = l.
Proof. unfold Js.slice. simpl. rewrite Z.min_l by lia. reflexivity. Qed.

(** A signal that has just been made is not aborted. *)
Lemma newAbortController_fresh w :
  aborted (snd (newAbortController w)) (fst (newAbortController w)) = false.
Proof.
  unfold newAbortController, aborted. simpl.
  rewrite app_nth2 by lia. rewrite Nat.sub_diag. reflexivity.
Qed.

(** What [readText] does with a translation: it stores it and speaks,
    after showing the tooltip if there is a selection; or the tooltip
    fails for want of a range and the call ends in its [catch] block. *)
Lemma readText_translated_cases id text selection signal t w :
  let w1 := onToolbar (fun t0 =>
              setIndex 0 (setSentences (Segmenter.splitIntoSentences t)
                (setCached (Some t) (Some text) t0))) w in
  (selection = None
   /\ readText_translated id text selection signal t w = readText_speak id signal w1)
  \/ (selection <> None
      /\ readText_translated id text selection signal t w
         = readText_speak id signal (setTooltip (Some t) (setTooltip None w1)))
  \/ ((selection <> None /\ rangeCount (window w) = 0%nat)
      /\ googleDocsActive (window w) = false
      /\ readText_translated id text selection signal t w
         = readText_end id (Throw indexSizeError) (setTooltip None w1)).
Proof.
  intros w1. unfold readText_translated. fold w1.
  destruct selection as [s|]; [|left; split; reflexivity].
  change (googleDocsActive (window w1)) with (googleDocsActive (window w)).
  destruct (googleDocsActive (window w)) eqn:G.
  - right. left. split; [discriminate | reflexivity].
  - unfold showTranslationTooltip, hideTranslationTooltip.
    change (rangeCount (window w1)) with (rangeCount (window w)).
    destruct (rangeCount (window w) =? 0)%nat eqn:R.
    + right. right. apply Nat.eqb_eq in R. repeat split; [discriminate | exact R].
    + right. left. split; [discriminate | reflexivity].
Qed.

(** Once the translation is there, [readText] stores it with its
    sentences and hands the first sentence to the speech client, provided
    the reading was neither cancelled nor paused meanwhile. *)
Lemma readText_translated_speaks id text signal translatedText w :
  aborted signal w = false ->
  isPaused (toolbar w) = false ->
  let w' := readText_translated id text None signal translatedText w in
  let sentences := Segmenter.splitIntoSentences translatedText in
  translationSentences (toolbar w') = sentences
  /\ currentSentenceIndex (toolbar w') = 0%Z
  /\ cachedTranslation (toolbar w') = Some translatedText
  /\ outputs w'
     = outputs w ++ map (fun s => SpeakText s (userLanguage (toolbar w))) (firstn 1 sentences)
  /\ client w' = client w
  /\ isReading (toolbar w')
     = match sentences with [] => false | _ => isReading (toolbar w) end
  /\ settled w'
     = settled w ++ match sentences with [] => [(id, Return tt)] | _ => [] end.
Proof.
  intros Hab Hp. unfold readText_translated, readText_speak.
  unfold aborted in *. simpl. rewrite Hab.
  unfold speakFromCurrentPosition. simpl. rewrite slice_zero.
  destruct (Segmenter.splitIntoSentences translatedText) as [|s0 rest] eqn:E.
  - simpl. rewrite !app_nil_r. auto 10.
  - simpl. unfold loopFrom. simpl. unfold aborted. simpl. rewrite Hab, Hp. simpl.
    rewrite !app_nil_r. auto 10.
Qed.

Lemma spoken_app w l :
  flat_map (fun o => match o with SpeakText s _ => [s] | _ => [] end)
    (outputs w ++ map (fun s => SpeakText s (userLanguage (toolbar w))) l)
  = spoken w ++ l.
Proof.
  unfold spoken. rewrite flat_map_app. f_equal.
  induction l as [|a l IH]; simpl; [reflexivity | rewrite IH; reflexivity].
Qed.

(** *** No call of [readText] or [resumeReading] rejects *)




















(** A conversation turn leaves the fields of the toolbar alone. *)
Lemma resumeTurn_toolbar id k s w : toolbar (resumeTurn id k s w) = toolbar w.
Proof.
  destruct k as [speaker|speaker|speaker text|speaker text fromLang toLang started
                |speaker|speaker];
    destruct s as [c|c|c|r| |c]; simpl;
    try destruct c as [?|?]; try destruct started; simpl; try reflexivity;
    unfold turn_translate, turn_translated;
    repeat match goal with
           | |- context [match ?x with _ => _ end] => destruct x
           end;
    reflexivity.
Qed.




End ToolbarFacts.

Section ReadingClaims.

Import Toolbar.

Lemma lookupTask_removed id l : lookupTask id (removeTask id l) = None.
Proof.
  unfold removeTask. induction l as [|[id' k] l IH]; simpl; [reflexivity|].
  destruct (Nat.eqb id' id) eqn:E; simpl; [exact IH | rewrite E; exact IH].
Qed.

Lemma lookupTask_app_none id l l' :
  lookupTask id l = None -> lookupTask id (l ++ l') = lookupTask id l'.
Proof.
  induction l as [|[id' k] l IH]; simpl; [reflexivity|].
  destruct (Nat.eqb id' id); [discriminate | exact IH].
Qed.

Lemma lookupTask_suspend id k w : lookupTask id (tasks (suspend id k w)) = Some k.
Proof.
  unfold suspend. simpl.
  rewrite lookupTask_app_none by apply lookupTask_removed.
  simpl. rewrite Nat.eqb_refl. reflexivity.
Qed.

(** From rest, in a language other than English and with a text that is
    not cached, [readText] sends the text to the endpoint and waits. *)
Lemma readText_starts_translation w text :
  text <> [] ->
  isTranslating (toolbar w) = false ->
  isReading (toolbar w) = false ->
  isPaused (toolbar w) = false ->
  userLanguage (toolbar w) <> Js.lit "en" ->
  JsMap.has (Azure.cacheKey text (Js.lit "en") (userLanguage (toolbar w)))
    (Azure.translationCache (client w)) = false ->
  Azure.passwordActive (client w) = true ->
  step w (CallReadText text) = translating (nextId w) text w.
Proof.
  intros Htext Ht Hr Hp Hlang Hmiss Hpw.
  unfold step, call, readText. simpl.
  assert (Htruthy : Js.truthy text = true) by (destruct text; [contradiction | reflexivity]).
  rewrite Htruthy, Ht, Hr, Hp. simpl.
  unfold readText_begin.
  match goal with
  | |- context [newAbortController ?x] =>
      pose proof (newAbortController_fresh x) as Hfresh;
      destruct (newAbortController x) as [w2 signal] eqn:Enew
  end.
  simpl in Hfresh. rewrite Hfresh.
  unfold newAbortController in Enew. injection Enew as <- <-. simpl.
  apply js_eqb_neq in Hlang. rewrite Hlang. simpl.
  unfold Azure.translateText_start. simpl. rewrite Hmiss, Hpw. simpl.
  reflexivity.
Qed.

Lemma lookupTask_removeTask_other id id' l :
  id <> id' -> lookupTask id (removeTask id' l) = lookupTask id l.
Proof.
  intros Hne. unfold removeTask. induction l as [|[i k] l IH]; simpl; [reflexivity|].
  destruct (Nat.eqb i id') eqn:E; simpl.
  - apply Nat.eqb_eq in E. subst i.
    destruct (Nat.eqb id' id) eqn:E'; [apply Nat.eqb_eq in E'; congruence | exact IH].
  - destruct (Nat.eqb i id); [reflexivity | exact IH].
Qed.

(** When the endpoint answers, the call that waited for it goes on with
    what [translateWithAzureDirect] returns. *)
Lemma translating_settles id text w r c translatedText :
  Azure.translateWithAzureDirect (client w) text (Js.lit "en") (userLanguage (toolbar w))
    (Azure.cacheKey text (Js.lit "en") (userLanguage (toolbar w))) r
  = (c, Return translatedText) ->
  forall w1,
    toolbar w1 = toolbar (translating id text w) ->
    client w1 = client w ->
    lookupTask id (tasks w1) = lookupTask id (tasks (translating id text w)) ->
    step w1 (Settle id (Translation r))
    = readText_translated id text None (List.length (signals w)) translatedText
        (setClient c w1).
Proof.
  intros Hr w1 Htb Hcl Htask. unfold step.
  rewrite Htask. unfold translating at 1. rewrite lookupTask_suspend.
  unfold resume. rewrite Hcl, Hr. reflexivity.
Qed.





(** While [isTranslating] is set, a call of [readText] only shows a
    status line and returns. *)
Lemma readText_while_translating id text selection w :
  text <> [] ->
  isTranslating (toolbar w) = true ->
  readText id text selection w
  = settle id (Return tt) (showStatus "Please wait - translation in progress" "info" w).
Proof.
  intros Htext Ht. unfold readText.
  destruct text; [contradiction|]. simpl. rewrite Ht. reflexivity.
Qed.

(** Two calls back to back: [readText("B.")] during the translation of
    "A." is turned away, the translation of "A." is played to its end, and
    "B." is neither sent to the translator nor spoken. *)
Lemma second_readText_does_not_preempt :
  let w := run (newWorld Sample.fa Sample.password) Sample.readTwice in
  spoken w = [Js.lit "TA."]
  /\ fetched w = [Js.lit "A."]
  /\ statuses w = [Js.lit "Please wait - translation in progress"]
  /\ tasks w = []
  /\ settled w = [(1, Return tt); (0, Return tt)].
Proof. vm_compute. repeat split. Qed.

(** Two calls back to back, in general: a [readText] that is called right
    after another one has gone to the translator is ignored: it shows
    "Please wait - translation in progress", returns at once and changes
    neither the session nor the client, and the earlier call still awaits
    its translation.  When that translation arrives, its sentences become
    the session's sentences and the first of them is spoken; the text of
    the second call is never sent to the translator. *)
Lemma second_readText_is_ignored :
  forall w textA textB r c translatedText,
    textA <> [] ->
    textB <> [] ->
    isTranslating (toolbar w) = false ->
    isReading (toolbar w) = false ->
    isPaused (toolbar w) = false ->
    userLanguage (toolbar w) <> Js.lit "en" ->
    JsMap.has (Azure.cacheKey textA (Js.lit "en") (userLanguage (toolbar w)))
      (Azure.translationCache (client w)) = false ->
    Azure.passwordActive (client w) = true ->
    Azure.translateWithAzureDirect (client w) textA (Js.lit "en") (userLanguage (toolbar w))
      (Azure.cacheKey textA (Js.lit "en") (userLanguage (toolbar w))) r
    = (c, Return translatedText) ->
    let idA := nextId w in
    let w1 := step w (CallReadText textA) in
    let w2 := step w1 (CallReadText textB) in
    let w3 := step w2 (Settle idA (Translation r)) in
    (toolbar w2 = toolbar w1 /\ client w2 = client w1 /\ signals w2 = signals w1
     /\ lookupTask idA (tasks w2) = lookupTask idA (tasks w1)
     /\ lookupTask (S idA) (tasks w2) = None
     /\ outputs w2
        = outputs w1 ++ [Status (Js.lit "Please wait - translation in progress") (Js.lit "info")]
     /\ settled w2 = settled w1 ++ [(S idA, Return tt)])
    /\ translationSentences (toolbar w3) = Segmenter.splitIntoSentences translatedText
    /\ spoken w3 = spoken w ++ firstn 1 (Segmenter.splitIntoSentences translatedText)
    /\ fetched w3 = fetched w ++ [textA].
Proof.
  intros w textA textB r c translatedText HA HB Ht Hr Hp Hlang Hmiss Hpw Hres idA w1 w2 w3.
  assert (E1 : w1 = translating idA textA w)
    by (apply readText_starts_translation; assumption).
  assert (E2 : w2 = settle (S idA) (Return tt)
                      (showStatus "Please wait - translation in progress" "info"
                         (setNextId (S (S idA)) w1))).
  { unfold w2, step, call. rewrite E1.
    rewrite readText_while_translating by (exact HB || reflexivity). reflexivity. }
  assert (Htask : lookupTask idA (tasks w2) = lookupTask idA (tasks w1)).
  { rewrite E2. simpl. apply lookupTask_removeTask_other. lia. }
  split.
  { rewrite E2. repeat split; try reflexivity.
    - rewrite <- E2. exact Htask.
    - simpl. apply lookupTask_removed. }
  assert (E3 : w3 = readText_translated idA textA None (List.length (signals w))
                      translatedText (setClient c w2)).
  { unfold w3. apply translating_settles with (r := r) (w := w).
    - exact Hres.
    - rewrite E2, E1. reflexivity.
    - rewrite E2, E1. reflexivity.
    - rewrite Htask, E1. reflexivity. }
  destruct (readText_translated_speaks idA textA (List.length (signals w)) translatedText
              (setClient c w2)) as (Hs & _ & _ & Ho & _).
  { rewrite E2, E1. unfold aborted. simpl.
    rewrite app_nth2 by lia. rewrite Nat.sub_diag. reflexivity. }
  { rewrite E2, E1. reflexivity. }
  rewrite <- E3 in Hs, Ho.
  split; [exact Hs|].
  assert (Hout : outputs (setClient c w2)
                 = outputs w
                   ++ [Fetch {| Azure.req_text := textA; Azure.req_from := Js.lit "en";
                                Azure.req_to := userLanguage (toolbar w) |};
                       Status (Js.lit "Please wait - translation in progress") (Js.lit "info")]).
  { rewrite E2, E1. simpl. rewrite <- app_assoc. reflexivity. }
  split.
  - unfold spoken at 1. rewrite Ho, spoken_app.
    unfold spoken. rewrite Hout, flat_map_app. simpl. rewrite app_nil_r. reflexivity.
  - unfold fetched at 1. rewrite Ho, flat_map_app, Hout, flat_map_app. simpl.
    replace (flat_map _ (map _ (firstn 1 (Segmenter.splitIntoSentences translatedText))))
      with (@nil jsstring); [rewrite app_nil_r; reflexivity|].
    destruct (Segmenter.splitIntoSentences translatedText) as [|s0 [|s1 rest]]; reflexivity.
Qed.

Lemma second_readText_is_ignored_witness :
  let w := newWorld Sample.fa Sample.password in
  let w1 := step w (CallReadText (Js.lit "A.")) in
  let w2 := step w1 (CallReadText (Js.lit "B.")) in
  let w3 := step w2 (Sample.translated 0 (Js.lit "TA.")) in
  (toolbar w2 = toolbar w1 /\ client w2 = client w1 /\ signals w2 = signals w1
   /\ lookupTask 0 (tasks w2) = lookupTask 0 (tasks w1)
   /\ lookupTask 1 (tasks w2) = None
   /\ outputs w2
      = outputs w1 ++ [Status (Js.lit "Please wait - translation in progress") (Js.lit "info")]
   /\ settled w2 = settled w1 ++ [(1, Return tt)])
  /\ translationSentences (toolbar w3) = Segmenter.splitIntoSentences (Js.lit "TA.")
  /\ spoken w3 = spoken w ++ firstn 1 (Segmenter.splitIntoSentences (Js.lit "TA."))
  /\ fetched w3 = fetched w ++ [Js.lit "A."].
Proof.
  apply (second_readText_is_ignored (newWorld Sample.fa Sample.password)
           (Js.lit "A.") (Js.lit "B.") (Azure.Ok (Some (Js.lit "TA.")))
           (Azure.withCache (Azure.newClient Sample.password)
              [(Js.lit "en-fa-A.", Js.lit "TA.")])
           (Js.lit "TA."));
    try reflexivity; discriminate.
Defined.

(** In general: the loop computes [globalIndex] from the position it
    advances itself, so with two sentences ahead the position is 3 once
    the second one has been spoken. *)
Lemma loop_position_drifts caller id signal w s0 s1 rest :
  translationSentences (toolbar w) = s0 :: s1 :: rest ->
  currentSentenceIndex (toolbar w) = 0%Z ->
  isPaused (toolbar w) = false ->
  aborted signal w = false ->
  let w1 := conclude caller id (speakFromCurrentPosition caller signal w) in
  let w2 := step w1 (Settle id (Spoken (Return tt))) in
  let w3 := step w2 (Settle id Tick) in
  let w4 := step w3 (Settle id (Spoken (Return tt))) in
  spoken w4 = spoken w ++ [s0; s1]
  /\ translationSentences (toolbar w4) = s0 :: s1 :: rest
  /\ currentSentenceIndex (toolbar w4) = 3%Z.
Proof.
  intros Hs Hi Hp Ha w1 w2 w3 w4.
  assert (E1 : w1 = suspend id (AwaitSpeak caller signal (s0 :: s1 :: rest) 0 0)
                      (emit (SpeakText s0 (userLanguage (toolbar w))) w)).
  { unfold w1, speakFromCurrentPosition. rewrite Hs, Hi, slice_zero. simpl.
    unfold loopFrom. simpl. rewrite Ha, Hp, Hi. reflexivity. }
  assert (E2 : w2 = suspend id (AwaitGap caller signal (s0 :: s1 :: rest) 0 0)
                      (onToolbar (setIndex 1) w1)).
  { unfold w2, step. rewrite E1 at 1. rewrite lookupTask_suspend.
    unfold resume, afterSpeak.
    replace (aborted signal w1) with false by (rewrite E1; symmetry; exact Ha).
    reflexivity. }
  assert (E3 : w3 = suspend id (AwaitSpeak caller signal (s0 :: s1 :: rest) 1 2)
                      (emit (SpeakText s1 (userLanguage (toolbar w))) w2)).
  { unfold w3, step. rewrite E2 at 1. rewrite lookupTask_suspend.
    unfold resume, afterGap, loopFrom.
    replace (aborted signal w2) with false by (rewrite E2, E1; symmetry; exact Ha).
    replace (isPaused (toolbar w2)) with false by (rewrite E2, E1; symmetry; exact Hp).
    simpl. rewrite E2, E1. reflexivity. }
  assert (E4 : w4 = suspend id (AwaitGap caller signal (s0 :: s1 :: rest) 1 2)
                      (onToolbar (setIndex 3) w3)).
  { unfold w4, step. rewrite E3 at 1. rewrite lookupTask_suspend.
    unfold resume, afterSpeak.
    replace (aborted signal w3) with false by (rewrite E3, E2, E1; symmetry; exact Ha).
    reflexivity. }
  rewrite E4, E3, E2, E1. repeat split.
  - unfold spoken. simpl. rewrite !flat_map_app. simpl. rewrite <- app_assoc. reflexivity.
  - simpl. exact Hs.
Qed.

(** An English session caches no translation, so after a pause
    [resumeReading] gives up at its first test. *)
Lemma english_session_does_not_resume :
  let paused := run (newWorld Sample.en None)
                  [CallReadText (Js.lit "A. B."); Sample.spokenOk 0; CallPauseReading;
                   Sample.gapOver 0] in
  let resumed := step paused CallResumeReading in
  isPaused (toolbar paused) = true
  /\ currentSentenceIndex (toolbar paused) = 1%Z
  /\ cachedTranslation (toolbar paused) = None
  /\ spoken resumed = [Js.lit "A."]
  /\ tasks resumed = []
  /\ toolbar resumed = toolbar paused.
Proof. vm_compute. repeat split. Qed.

(** C2 (the code resumes at the wrong sentence): the translation
    "A. B. C." is read and the reader pauses in the gap behind the second
    sentence (index 1).  The stored position is then 3 instead of 2, so
    [resumeReading] finds nothing left, speaks nothing and reports
    "Completed": the third sentence is never spoken.  No second request
    goes to the translator. *)
Theorem resume_skips_a_sentence :
  let paused := run (newWorld Sample.fa Sample.password) Sample.pauseAfterSecond in
  let resumed := step paused CallResumeReading in
  (translationSentences (toolbar paused) = [Js.lit "A."; Js.lit "B."; Js.lit "C."]
   /\ spoken paused = [Js.lit "A."; Js.lit "B."]
   /\ isPaused (toolbar paused) = true
   /\ tasks paused = []
   /\ currentSentenceIndex (toolbar paused) = 3%Z)
  /\ (spoken resumed = [Js.lit "A."; Js.lit "B."]
      /\ tasks resumed = []
      /\ statuses resumed = [Js.lit "Resuming..."; Js.lit "Completed"]
      /\ fetched resumed = [Js.lit "text"]).
Proof.
  split.
  - vm_compute. repeat split.
  - vm_compute. repeat split.
Qed.

(** C8 (the position overruns the sentences): while "A. B." is read, the
    loop adds its counter [i] to the position it has already advanced, so
    after the second of two sentences the position is 3. *)
Theorem index_exceeds_sentence_count :
  let w := run (newWorld Sample.en None) Sample.readTwoSentences in
  translationSentences (toolbar w) = [Js.lit "A."; Js.lit "B."]
  /\ spoken w = [Js.lit "A."; Js.lit "B."]
  /\ isReading (toolbar w) = true
  /\ currentSentenceIndex (toolbar w) = 3%Z
  /\ (Z.of_nat (List.length (translationSentences (toolbar w)))
      < currentSentenceIndex (toolbar w))%Z.
Proof.
  vm_compute. repeat split.
Qed.

(** The page selection is cut to 1500 code units, with a warning. *)
Lemma handleTextSelection_limits selected w :
  Js.trim selected <> [] ->
  let w' := handleTextSelection selected w in
  selectedText (toolbar w') = firstn 1500 (Js.trim selected)
  /\ List.length (selectedText (toolbar w')) <= 1500
  /\ (1500 < List.length (Js.trim selected) ->
      In (Js.lit "Selection too large - limited to ~5 paragraphs") (statuses w')).
Proof.
  intros Hne w'. subst w'. unfold handleTextSelection.
  destruct (Js.trim selected) as [|c t] eqn:E; [contradiction|]. simpl negb. cbv iota.
  assert (Hsel : forall x : World,
             selectedText (toolbar
               (if isReading (toolbar x)
                   && (clock x - lastReadTime (toolbar x) <? cooldownMs)%Z
                then showStatus "Please wait - translation in progress" "info" x
                else emit (Status (Js.lit "Text selected" ++ clickHint) (Js.lit "info")) x))
             = selectedText (toolbar x))
    by (intros x; destruct (_ && _); reflexivity).
  assert (Hst : forall (x : World) m,
             In m (statuses x) ->
             In m (statuses
               (if isReading (toolbar x)
                   && (clock x - lastReadTime (toolbar x) <? cooldownMs)%Z
                then showStatus "Please wait - translation in progress" "info" x
                else emit (Status (Js.lit "Text selected" ++ clickHint) (Js.lit "info")) x))).
  { intros x m Hm. destruct (_ && _); unfold statuses, showStatus, emit in *; simpl;
      rewrite flat_map_app; apply in_or_app; left; exact Hm. }
  destruct (MAX_CHARS <? List.length (c :: t))%nat eqn:Hlen.
  - assert (Hcut : selectedText (toolbar
                     (showStatus "Selection too large - limited to ~5 paragraphs" "error"
                        (onToolbar (setSelectedText (Js.substring0 MAX_CHARS (c :: t))) w)))
                   = Js.substring0 MAX_CHARS (c :: t)) by reflexivity.
    rewrite Hsel, Hcut. unfold Js.substring0, MAX_CHARS.
    split; [reflexivity|]. split; [apply firstn_le_length|].
    intros _. apply Hst. unfold statuses, showStatus, emit. cbn [outputs].
    rewrite flat_map_app. apply in_or_app. right. left. reflexivity.
  - assert (Hkeep : selectedText (toolbar (onToolbar (setSelectedText (c :: t)) w)) = c :: t)
      by reflexivity.
    rewrite Hsel, Hkeep.
    apply Nat.ltb_ge in Hlen. unfold MAX_CHARS in Hlen.
    rewrite firstn_all2 by exact Hlen.
    split; [reflexivity|]. split; [exact Hlen|]. intros H. lia.
Qed.

(** C7 (the text box bypasses the limit): 1501 code units entered in the
    text box become [selectedText] untouched, no warning is shown, and the
    play button hands all of them to [readText], which speaks them. *)
Theorem text_box_input_is_not_limited :
  let w := run (newWorld Sample.en None) [TextInputEnter Sample.longInput; CallToggleReading] in
  selectedText (toolbar w) = Sample.longInput
  /\ List.length (selectedText (toolbar w)) = 1501
  /\ statuses w = [Js.lit "Text ready" ++ clickHint]
  /\ spoken w = [Sample.longInput].
Proof.
  vm_compute. repeat split.
Qed.

End ReadingClaims.

(** * Further properties of the code *)

(** ** The segmenter *)

Section SegmenterMore.

Import Segmenter.

Lemma trimStart_head s c t : Js.trimStart s = c :: t -> Js.isWhiteSpace c = false.
Proof.
  induction s as [|d s IH]; simpl; [discriminate|].
  destruct (Js.isWhiteSpace d) eqn:Ed; [exact IH|].
  intros H. injection H as -> _. exact Ed.
Qed.

Lemma trim_ends s :
  match Js.trim s with
  | [] => True
  | c :: _ => Js.isWhiteSpace c = false
  end
  /\ match rev (Js.trim s) with
     | [] => True
     | c :: _ => Js.isWhiteSpace c = false
     end.
Proof.
  split.
  - rewrite <- (trim_idem s). unfold Js.trim at 1. unfold Js.trimEnd.
    destruct (Js.trimStart (Js.trim s)) as [|c t] eqn:E.
    + reflexivity.
    + pose proof (trimStart_head _ _ _ E) as Hc. simpl rev.
      destruct (trimStart_keeps_last (rev t) c Hc) as (s' & ->).
      rewrite rev_app_distr. simpl. exact Hc.
  - unfold Js.trim, Js.trimEnd. rewrite rev_involutive.
    destruct (Js.trimStart (rev (Js.trimStart s))) as [|c t] eqn:E; [exact I|].
    exact (trimStart_head _ _ _ E).
Qed.

(** X1: whatever the text, every sentence the segmenter returns is
    non-empty, is its own trimming, and neither starts nor ends with
    white space. *)
Theorem sentences_are_trimmed :
  forall text,
    Forall (fun s =>
              s <> []
              /\ Js.trim s = s
              /\ Js.isWhiteSpace (hd 0%N s) = false
              /\ Js.isWhiteSpace (last s 0%N) = false)
           (splitIntoSentences text).
Proof.
  intros text. apply Forall_forall. intros s Hs.
  destruct (splitIntoSentences_trimmed _ _ Hs) as (Hne & Htrim).
  destruct (trim_ends s) as (Hhd & Hlast). rewrite Htrim in Hhd, Hlast.
  repeat split; try assumption.
  - destruct s; [contradiction | exact Hhd].
  - destruct s as [|c t]; [contradiction|].
    destruct (rev (c :: t)) as [|d r] eqn:E.
    + apply (f_equal (@List.length N)) in E. rewrite length_rev in E. discriminate.
    + apply (f_equal (@rev N)) in E. rewrite rev_involutive in E. simpl in E.
      rewrite E, last_last. exact Hlast.
Qed.

Lemma matchLoop_leading n lead rest :
  Forall (fun c => isTerminator c = true) lead ->
  Forall (fun c => isTerminator c = false) rest ->
  matchLoop n (lead ++ rest) = [].
Proof.
  intros Hl Hr. revert n. induction Hl as [|c lead Hc Hl IH]; intros n.
  - apply matchLoop_unterminated. exact Hr.
  - destruct n as [|n]; [reflexivity|]. simpl app.
    change (matchLoop (S n) (c :: lead ++ rest))
      with (match exec (c :: lead ++ rest) with
            | Some (m, r) => m :: matchLoop n r
            | None => matchLoop n (lead ++ rest)
            end).
    assert (E : exec (c :: lead ++ rest) = None)
      by (unfold exec; simpl; rewrite Hc; simpl; rewrite Hc;
          destruct (span isTerminator (lead ++ rest)); reflexivity).
    rewrite E. apply IH.
Qed.

(** X2: a text in which no terminator follows a non-terminator (no
    terminator at all, or terminators only in front) is returned whole
    as one trimmed sentence, and as no sentence when it is blank. *)
Theorem unterminated_text_is_one_sentence :
  forall lead rest,
    Forall (fun c => isTerminator c = true) lead ->
    Forall (fun c => isTerminator c = false) rest ->
    splitIntoSentences (lead ++ rest)
    = match Js.trim (lead ++ rest) with
      | [] => []
      | sentence => [sentence]
      end.
Proof.
  intros lead rest Hl Hr. unfold splitIntoSentences, str_match, matchAll.
  rewrite (matchLoop_leading _ _ _ Hl Hr). simpl.
  destruct (Js.trim (lead ++ rest)); reflexivity.
Qed.

Lemma unterminated_text_is_one_sentence_witness :
  splitIntoSentences (Js.lit "..." ++ Js.lit " and so on ")
  = match Js.trim (Js.lit "..." ++ Js.lit " and so on ") with
    | [] => []
    | sentence => [sentence]
    end.
Proof.
  apply unterminated_text_is_one_sentence;
    repeat (constructor; try reflexivity).
Defined.

Lemma span_rest_head p s :
  match snd (span p s) with
  | [] => True
  | c :: _ => p c = false
  end.
Proof.
  induction s as [|c s IH]; simpl; [exact I|].
  destruct (p c) eqn:E; [|simpl; exact E].
  destruct (span p s) as [a b]. simpl in *. exact IH.
Qed.

(** What follows a match does not start with a terminator. *)
Lemma exec_rest s m r :
  exec s = Some (m, r) ->
  match r with [] => True | c :: _ => isTerminator c = false end.
Proof.
  unfold exec.
  destruct (span (fun c => negb (isTerminator c)) s) as [body r1].
  pose proof (span_rest_head isTerminator r1) as H.
  destruct (span isTerminator r1) as [run r2]. simpl in H.
  destruct body; [discriminate|]. destruct run; [discriminate|].
  intros E. injection E as _ <-. exact H.
Qed.

(** A failed attempt at a non-terminator means that no terminator
    follows at all. *)
Lemma exec_none_unterminated c t :
  isTerminator c = false -> exec (c :: t) = None ->
  Forall (fun x => isTerminator x = false) (c :: t).
Proof.
  intros Hc. unfold exec.
  pose proof (span_app (fun x => negb (isTerminator x)) (c :: t)) as Happ.
  pose proof (span_all (fun x => negb (isTerminator x)) (c :: t)) as Hall.
  pose proof (span_rest_head (fun x => negb (isTerminator x)) (c :: t)) as Hrest.
  destruct (span (fun x => negb (isTerminator x)) (c :: t)) as [body r1] eqn:E.
  simpl in Happ, Hall, Hrest.
  destruct body as [|b body].
  { simpl in E. rewrite Hc in E. simpl in E. destruct (span _ t); discriminate. }
  destruct r1 as [|x r1].
  - intros _. rewrite app_nil_r in Happ. rewrite <- Happ.
    eapply Forall_impl; [|exact Hall]. simpl. intros a Ha.
    apply negb_true_iff. exact Ha.
  - apply negb_false_iff in Hrest. simpl. rewrite Hrest.
    destruct (span isTerminator r1). discriminate.
Qed.

Lemma matchLoop_partition n s :
  List.length s <= n ->
  exists lead tail,
    s = lead ++ List.concat (matchLoop n s) ++ tail
    /\ Forall (fun c => isTerminator c = true) lead
    /\ Forall (fun c => isTerminator c = false) tail.
Proof.
  revert s; induction n as [|n IH]; intros s Hlen.
  - destruct s; [|simpl in Hlen; lia]. exists [], []. repeat split; constructor.
  - destruct s as [|c t]; [exists [], []; repeat split; constructor|].
    change (matchLoop (S n) (c :: t))
      with (match exec (c :: t) with
            | Some (m, r) => m :: matchLoop n r
            | None => matchLoop n t
            end).
    destruct (exec (c :: t)) as [[m r]|] eqn:E.
    + pose proof (exec_shorter _ _ _ E) as Hshort.
      pose proof (exec_rest _ _ _ E) as Hrest.
      destruct (exec_shape _ _ _ E) as (Hs & _).
      destruct (IH r) as (lead & tail & Hr & Hl & Ht); [simpl in *; lia|].
      assert (lead = []) as ->.
      { destruct lead as [|x lead]; [reflexivity|].
        rewrite Hr in Hrest. simpl in Hrest. inversion Hl as [|? ? Hx ?].
        congruence. }
      exists [], tail. repeat split; [|constructor | exact Ht].
      simpl. rewrite Hs at 1. rewrite Hr at 1. simpl. rewrite <- app_assoc. reflexivity.
    + destruct (isTerminator c) eqn:Hc.
      * destruct (IH t) as (lead & tail & Hr & Hl & Ht); [simpl in *; lia|].
        exists (c :: lead), tail. repeat split; [|constructor; assumption | exact Ht].
        simpl. rewrite <- Hr. reflexivity.
      * pose proof (exec_none_unterminated _ _ Hc E) as Hall.
        rewrite matchLoop_unterminated by (inversion Hall; assumption).
        exists [], (c :: t). repeat split; [constructor | exact Hall].
Qed.

(** X3: the pieces the regular expression cuts out lie side by side: the
    text is some terminators in front, then the pieces one after the
    other without a gap, then a rest that holds no terminator. *)
Theorem matches_partition_text :
  forall text,
    exists lead tail,
      text = lead ++ List.concat (matchAll text) ++ tail
      /\ Forall (fun c => isTerminator c = true) lead
      /\ Forall (fun c => isTerminator c = false) tail.
Proof.
  intros text. unfold matchAll. apply matchLoop_partition. lia.
Qed.

End SegmenterMore.

(** ** The input adapter *)

Section InputMore.

Import Toolbar.

(** X4: a page selection that is blank after trimming changes nothing;
    any other one is stored trimmed and cut to its first 1500 code units,
    and exactly when it was longer the status "Selection too large -
    limited to ~5 paragraphs" is shown before the final status. *)
Theorem page_selection_is_limited :
  forall selected w,
    let w' := handleTextSelection selected w in
    (Js.trim selected = [] -> w' = w)
    /\ (Js.trim selected <> [] ->
        selectedText (toolbar w') = firstn 1500 (Js.trim selected)
        /\ List.length (selectedText (toolbar w')) <= 1500
        /\ exists status,
            outputs w'
            = outputs w
                ++ (if (1500 <? List.length (Js.trim selected))%nat
                    then [Status (Js.lit "Selection too large - limited to ~5 paragraphs")
                            (Js.lit "error")]
                    else [])
                ++ [status]).
Proof.
  intros selected w w'. subst w'. unfold handleTextSelection.
  destruct (Js.trim selected) as [|c t] eqn:E.
  - split; [reflexivity | intros H; contradiction].
  - split; [discriminate|]. intros _. cbv beta iota. simpl negb. cbv iota.
    change (MAX_CHARS <? List.length (c :: t))%nat with (1500 <? List.length (c :: t))%nat.
    destruct (1500 <? List.length (c :: t))%nat eqn:Hlen.
    + match goal with
      | |- context [if ?b then _ else _] => destruct b
      end;
        (split; [reflexivity|]; split; [apply firstn_le_length|];
         eexists; unfold showStatus, emit, onToolbar; cbn [outputs];
         rewrite <- app_assoc; reflexivity).
    + apply Nat.ltb_ge in Hlen.
      match goal with
      | |- context [if ?b then _ else _] => destruct b
      end;
        (split; [unfold showStatus, emit, onToolbar, setSelectedText;
                 cbn [toolbar selectedText]; rewrite firstn_all2 by exact Hlen; reflexivity|];
         split; [exact Hlen|];
         eexists; unfold showStatus, emit, onToolbar; cbn [outputs]; reflexivity).
Qed.

End InputMore.

(** ** The translation client *)

Section TranslateMore.

Import Azure.

Lemma size_set_present k v m :
  JsMap.has k m = true -> JsMap.size (JsMap.set k v m) = JsMap.size m.
Proof.
  unfold JsMap.has, JsMap.size. induction m as [|[k0 v0] m IH]; simpl; [discriminate|].
  destruct (Js.eqb k0 k); simpl; [reflexivity|]. intros H. rewrite IH by exact H. reflexivity.
Qed.

(** What was just stored is what a lookup finds. *)
Lemma cacheStore_get k v m :
  JsMap.size m <= maxCacheSize ->
  JsMap.get k (cacheStore maxCacheSize k v m) = Some v.
Proof.
  intros Hsz. destruct (JsMap.has k m) eqn:Hk.
  - unfold cacheStore. rewrite (size_set_present _ v _ Hk).
    destruct (maxCacheSize <? JsMap.size m) eqn:E;
      [apply Nat.ltb_lt in E; lia | apply get_set_same].
  - apply cacheStore_get_fresh. exact Hk.
Qed.

(** X5: a call of [translateText] that did not fail at the endpoint can
    be repeated: the second call returns the same text, sends no request
    and leaves the client as it is, whatever the endpoint would answer. *)
Theorem translation_is_served_from_cache :
  forall c text fromLang toLang r r',
    failed r = false ->
    let first := translateText c text fromLang toLang r in
    translateText (fst (fst first)) text fromLang toLang r'
    = (fst (fst first), snd (fst first), []).
Proof.
  intros c text fromLang toLang r r' Hr first. subst first.
  destruct (translateText c text fromLang toLang r) as [[c1 res] reqs] eqn:E.
  simpl fst. simpl snd.
  unfold translateText, translateText_start in E.
  destruct (JsMap.has (cacheKey text fromLang toLang) (translationCache c)) eqn:Hhas.
  - injection E as <- <- _.
    unfold translateText, translateText_start. rewrite Hhas. reflexivity.
  - destruct (passwordActive c) eqn:Hpw; simpl in E.
    + destruct r as [t| |]; try discriminate Hr.
      unfold translateWithAzureDirect, azureDirect_try in E. injection E as <- <- _.
      unfold translateText, translateText_start, JsMap.has. simpl translationCache.
      rewrite (cacheStore_get_fresh _ _ _ Hhas).
      destruct t as [[|x t]|]; simpl; try reflexivity;
        destruct text; reflexivity.
    + injection E as <- <- _.
      unfold translateText, translateText_start. rewrite Hhas, Hpw. reflexivity.
Qed.

Lemma translation_is_served_from_cache_witness :
  let first := translateText (newClient Sample.password) (Js.lit "hello") Sample.en Sample.fa
                 (Ok (Some (Js.lit "salaam"))) in
  translateText (fst (fst first)) (Js.lit "hello") Sample.en Sample.fa (NetworkError [])
  = (fst (fst first), snd (fst first), []).
Proof. apply translation_is_served_from_cache. reflexivity. Defined.

(** X6: [translateViaBackend] never rejects.  On any status that is not
    OK and on a network error it returns the text it was given and leaves
    the cache alone; the statuses 403, 429 and 401, and only they, also
    dispatch one subscription-error event, each with its own message. *)
Theorem backend_failure_returns_text :
  (forall c text fromLang toLang key apiKey r,
      exists c' v e,
        Backend.translateViaBackend c text fromLang toLang key apiKey r = (c', Return v, e))
  /\ (forall c text fromLang toLang key apiKey status,
        let res :=
          Backend.translateViaBackend c text fromLang toLang key apiKey
            (Backend.Status status) in
        fst res = (c, Return text)
        /\ Backend.usageStored (snd res) = None
        /\ Backend.subscriptionErrors (snd res)
           = if (status =? 403)%N then [Backend.sessionExpired]
             else if (status =? 429)%N then [Backend.limitExceeded]
             else if (status =? 401)%N then [Backend.invalidPassword]
             else [])
  /\ (forall c text fromLang toLang key apiKey message,
        Backend.translateViaBackend c text fromLang toLang key apiKey
          (Backend.NetworkError message)
        = (c, Return text, Backend.noEffects)).
Proof.
  split; [|split].
  - intros c text fromLang toLang key apiKey r.
    unfold Backend.translateViaBackend.
    destruct (Backend.backend_try c text key r) as [[c' [v|m]] e]; eauto.
  - intros c text fromLang toLang key apiKey status res. subst res.
    unfold Backend.translateViaBackend, Backend.backend_try.
    destruct (status =? 403)%N; [repeat split|].
    destruct (status =? 429)%N; [repeat split|].
    destruct (status =? 401)%N; repeat split.
  - reflexivity.
Qed.

End TranslateMore.

Section BackendMore.

Import Azure.

(** X7: a translation that [translateViaBackend] receives is stored
    under the key it was given, within the bound of the cache, so that
    [translateText] for that key answers with it and sends no request.
    This also holds when the usage cannot be written to the storage,
    although the caller of [translateViaBackend] then gets the original
    text back. *)
Theorem backend_translation_is_cached :
  forall c text fromLang toLang apiKey translation usage storageError r',
    JsMap.size (translationCache c) <= 100 ->
    translation <> [] ->
    let res :=
      Backend.translateViaBackend c text fromLang toLang (cacheKey text fromLang toLang)
        apiKey (Backend.Ok translation usage storageError) in
    let c1 := fst (fst res) in
    JsMap.size (translationCache c1) <= 100
    /\ translateText c1 text fromLang toLang r' = (c1, Return translation, [])
    /\ snd (fst res)
       = Return (match usage, storageError with
                 | Some _, Some _ => text
                 | _, _ => translation
                 end).
Proof.
  intros c text fromLang toLang apiKey translation usage storageError r' Hsz Hne res c1.
  assert (Hc1 : translationCache c1
                = cacheStore maxCacheSize (cacheKey text fromLang toLang) translation
                    (translationCache c)).
  { unfold c1, res, Backend.translateViaBackend, Backend.backend_try.
    destruct usage as [u|]; [destruct storageError as [m|]|]; reflexivity. }
  split; [rewrite Hc1; apply cacheStore_size; exact Hsz|].
  split.
  - unfold translateText, translateText_start, JsMap.has.
    rewrite Hc1, (cacheStore_get _ _ _ Hsz).
    destruct translation; [contradiction | reflexivity].
  - unfold res, Backend.translateViaBackend, Backend.backend_try.
    destruct usage as [u|]; [destruct storageError as [m|]|]; reflexivity.
Qed.

Lemma backend_translation_is_cached_witness :
  let res :=
    Backend.translateViaBackend (newClient Sample.password) (Js.lit "hello") Sample.en
      Sample.fa (cacheKey (Js.lit "hello") Sample.en Sample.fa) (Js.lit "demo")
      (Backend.Ok (Js.lit "salaam") (Some (3, 1000)%Z) (Some (Js.lit "quota"))) in
  let c1 := fst (fst res) in
  JsMap.size (translationCache c1) <= 100
  /\ translateText c1 (Js.lit "hello") Sample.en Sample.fa (NetworkError [])
     = (c1, Return (Js.lit "salaam"), [])
  /\ snd (fst res) = Return (Js.lit "hello").
Proof.
  apply (backend_translation_is_cached (newClient Sample.password) (Js.lit "hello")
           Sample.en Sample.fa (Js.lit "demo") (Js.lit "salaam") (Some (3, 1000)%Z)
           (Some (Js.lit "quota")) (NetworkError [])).
  - simpl. lia.
  - discriminate.
Defined.

End BackendMore.

(** ** Speech set-up *)

Section SpeechMore.

Import Speech.

Lemma getProperty_own o key :
  existsb (Js.eqb key) objectPrototypeNames = false ->
  match getProperty o key with
  | Own v => JsMap.get key o = Some v
  | Inherited _ => False
  | Undefined => JsMap.get key o = None
  end.
Proof.
  intros H. unfold getProperty. destruct (JsMap.get key o); [reflexivity|].
  rewrite H. reflexivity.
Qed.

(** X8: [startSpeechRecognition] fails exactly when neither a keyed
    Azure SDK nor a browser recognizer is there, or the recognizer it has
    chosen fails to start; it returns the Azure recognizer exactly when
    there is a key, the SDK is loaded and the recognizer starts.  For a
    language that is no name of [Object.prototype], the recognizer it
    starts gets a locale of the table, [en-US] if the table does not list
    the language; a language such as [constructor] passes the test of the
    table and hands the recognizer something that is no locale. *)
Theorem recognition_locale_falls_back :
  (forall speechKey page language start,
      (exists message, startSpeechRecognition speechKey page language start = Throw message)
      <-> ((Toolbar.truthyOpt speechKey && sdkLoaded page = false /\ webSpeech page = false)
           \/ exists err, start = Throw err))
  /\ (forall speechKey page language start locale,
        startSpeechRecognition speechKey page language start
        = Return (AzureRecognizer locale)
        <-> (Toolbar.truthyOpt speechKey && sdkLoaded page = true
             /\ start = Return tt
             /\ locale = getProperty localeMap
                           (if truthy (getProperty localeMap language)
                            then language else Js.lit "en")))
  /\ (forall speechKey page language start recognizer,
        existsb (Js.eqb language) objectPrototypeNames = false ->
        startSpeechRecognition speechKey page language start = Return recognizer ->
        exists locale,
          (recognizer = AzureRecognizer (Own locale)
           \/ recognizer = WebSpeechRecognizer (Own locale))
          /\ In locale (map snd localeMap)
          /\ (~ In language (map fst localeMap) -> locale = Js.lit "en-US"))
  /\ (forall speechKey page language start recognizer,
        In language objectPrototypeNames ->
        startSpeechRecognition speechKey page language start = Return recognizer ->
        recognizer = AzureRecognizer (Inherited language)
        \/ recognizer = WebSpeechRecognizer (Inherited language)).
Proof.
  split; [|split; [|split]].
  - intros speechKey page language start. unfold startSpeechRecognition.
    destruct start as [[]|err];
      destruct (Toolbar.truthyOpt speechKey), (sdkLoaded page), (webSpeech page); simpl;
      (split;
       [ intros (m & H); first [discriminate H | left; split; reflexivity | right; eauto]
       | intros [[H1 H2]|(e & H)];
         first [discriminate H1 | discriminate H2 | discriminate H | eauto] ]).
  - intros speechKey page language start locale. unfold startSpeechRecognition.
    destruct start as [[]|err];
      destruct (truthy (getProperty localeMap language)) eqn:Ht;
      destruct (Toolbar.truthyOpt speechKey), (sdkLoaded page), (webSpeech page); simpl;
      (split;
       [ intros H; first [discriminate H | injection H as <-; repeat split; reflexivity]
       | intros (H1 & H2 & H3);
         first [discriminate H1 | discriminate H2 | rewrite H3; reflexivity] ]).
  - intros speechKey page language start recognizer Hproto Hstart.
    unfold startSpeechRecognition in Hstart. cbv zeta in Hstart.
    pose proof (getProperty_own localeMap language Hproto) as Hown.
    destruct (getProperty localeMap language) as [v|n|] eqn:Eg; [|contradiction|].
    + assert (Hin : In (language, v) localeMap).
      { clear -Hown. induction localeMap as [|[k x] l IH]; simpl in *; [discriminate|].
        destruct (Js.eqb k language) eqn:E.
        - apply js_eqb_spec in E. injection Hown as ->. subst. left. reflexivity.
        - right. apply IH. exact Hown. }
      assert (Hv : truthy (Own v) = true).
      { simpl in Hin. repeat (destruct Hin as [Hin|Hin]; [injection Hin as _ <-; reflexivity|]).
        destruct Hin. }
      rewrite Hv in Hstart. cbn [negb] in Hstart. rewrite Eg in Hstart.
      exists v. split; [|split].
      * destruct start as [[]|err];
          (destruct (negb (Toolbar.truthyOpt speechKey) || negb (sdkLoaded page));
           [destruct (webSpeech page); [|discriminate]|]);
          first [discriminate Hstart | injection Hstart as <-; auto].
      * exact (in_map snd _ _ Hin).
      * intros Hnot. exfalso. apply Hnot. exact (in_map fst _ _ Hin).
    + cbn [truthy negb] in Hstart.
      change (getProperty localeMap (Js.lit "en")) with (Own (Js.lit "en-US")) in Hstart.
      exists (Js.lit "en-US"). split; [|split; [left; reflexivity | reflexivity]].
      destruct start as [[]|err];
        (destruct (negb (Toolbar.truthyOpt speechKey) || negb (sdkLoaded page));
         [destruct (webSpeech page); [|discriminate]|]);
        first [discriminate Hstart | injection Hstart as <-; auto].
  - intros speechKey page language start recognizer Hin Hstart.
    assert (Hg : getProperty localeMap language = Inherited language).
    { simpl in Hin.
      repeat (destruct Hin as [<-|Hin]; [reflexivity|]). destruct Hin. }
    unfold startSpeechRecognition in Hstart. cbv zeta in Hstart.
    rewrite Hg in Hstart. cbn [truthy negb] in Hstart. rewrite Hg in Hstart.
    destruct start as [[]|err];
      (destruct (negb (Toolbar.truthyOpt speechKey) || negb (sdkLoaded page));
       [destruct (webSpeech page); [|discriminate]|]);
      first [discriminate Hstart | injection Hstart as <-; auto].
Qed.

Lemma recognition_locale_falls_back_witness :
  exists locale,
    (WebSpeechRecognizer (Own (Js.lit "en-US")) = AzureRecognizer (Own locale)
     \/ WebSpeechRecognizer (Own (Js.lit "en-US")) = WebSpeechRecognizer (Own locale))
    /\ In locale (map snd localeMap)
    /\ (~ In (Js.lit "de") (map fst localeMap) -> locale = Js.lit "en-US").
Proof.
  apply (proj1 (proj2 (proj2 recognition_locale_falls_back)) None
           {| sdkLoaded := false; webSpeech := true |} (Js.lit "de") (Return tt));
    reflexivity.
Defined.

End SpeechMore.

Section VoiceMore.

Import Speech.

(** X9: the nine languages that have a recognition locale are the nine
    that have an Azure voice, and no two of them share a voice; a
    language outside the table (and no name of [Object.prototype]) is
    spoken with [en-US-JennyNeural].  The browser fallback uses the
    recognition locale of a listed language, except for [uz] and [uk],
    which it speaks as [en-US].  Without a speech key [speakText] never
    uses an Azure voice. *)
Theorem synthesis_voice_tables :
  (forall language, In language (map fst localeMap) <-> In language (map fst voiceMap))
  /\ (forall l1 l2 voice, In (l1, voice) voiceMap -> In (l2, voice) voiceMap -> l1 = l2)
  /\ (forall language,
        existsb (Js.eqb language) objectPrototypeNames = false ->
        ~ In language (map fst voiceMap) ->
        synthesisVoice language = Own (Js.lit "en-US-JennyNeural"))
  /\ (forall language,
        In language (map fst localeMap) ->
        utteranceLang language
        = if Js.eqb language (Js.lit "uz") || Js.eqb language (Js.lit "uk")
          then Own (Js.lit "en-US")
          else getProperty localeMap language)
  /\ (forall speechKey sdk browserSpeech language voice,
        speakText speechKey sdk browserSpeech language = AzureVoice voice ->
        Toolbar.truthyOpt speechKey = true /\ sdk = true).
Proof.
  split; [|split; [|split; [|split]]].
  - intros language. simpl. split; intros H;
      repeat (destruct H as [<-|H]; [tauto|]); destruct H.
  - intros l1 l2 voice H1 H2. simpl in H1, H2.
    repeat (destruct H1 as [H1|H1];
            [injection H1 as <- <-;
             repeat (destruct H2 as [H2|H2];
                     [first [injection H2 as <-; reflexivity | discriminate H2]|]);
             destruct H2|]).
    destruct H1.
  - intros language Hproto Hnot. unfold synthesisVoice.
    pose proof (getProperty_own voiceMap language Hproto) as Hown.
    destruct (getProperty voiceMap language) as [v|n|] eqn:Eg; [|contradiction|reflexivity].
    exfalso. apply Hnot. clear -Hown.
    induction voiceMap as [|[k x] l IH]; simpl in *; [discriminate|].
    destruct (Js.eqb k language) eqn:E.
    + apply js_eqb_spec in E. left. exact E.
    + right. apply IH. exact Hown.
  - intros language H. simpl in H.
    repeat (destruct H as [<-|H]; [reflexivity|]). destruct H.
  - intros speechKey sdk browserSpeech language voice. unfold speakText.
    destruct (Toolbar.truthyOpt speechKey), sdk, browserSpeech; try discriminate; auto.
Qed.

Lemma synthesis_voice_tables_witness :
  synthesisVoice (Js.lit "de") = Own (Js.lit "en-US-JennyNeural").
Proof.
  apply (proj1 (proj2 (proj2 synthesis_voice_tables)) (Js.lit "de")); [reflexivity|].
  simpl. intros H. repeat (destruct H as [H|H]; [discriminate H|]). exact H.
Defined.

End VoiceMore.

(** ** Conversation mode *)

Section ConversationMore.

Import Conversation.

(** X10: the audio mode cycles through its three values.  What the
    student says is played aloud exactly when the panel shows "Speaker";
    what the teacher says is played in every case but one: mode [auto]
    with headphones detected. *)
Theorem conversation_audio_policy :
  (forall m, toggleAudioMode (toggleAudioMode (toggleAudioMode m)) = m
             /\ toggleAudioMode m <> m)
  /\ (forall m hasHeadphones,
        studentShouldPlayAudio m hasHeadphones = true
        <-> audioModeText m hasHeadphones = Js.lit "Speaker")
  /\ (forall m hasHeadphones,
        teacherShouldPlayAudio m hasHeadphones = false
        <-> (m = Auto /\ hasHeadphones = true))
  /\ (forall m hasHeadphones,
        studentShouldPlayAudio m hasHeadphones = true ->
        teacherShouldPlayAudio m hasHeadphones = true).
Proof.
  split; [|split; [|split]].
  - intros []; split; (reflexivity || discriminate).
  - intros [] []; split; (reflexivity || discriminate).
  - intros [] []; split; try (intros [H1 H2]); (reflexivity || discriminate || auto).
  - intros [] []; (reflexivity || discriminate).
Qed.

Lemma conversation_audio_policy_witness :
  teacherShouldPlayAudio Auto false = true.
Proof.
  apply (proj2 (proj2 (proj2 conversation_audio_policy)) Auto false). reflexivity.
Defined.

Lemma onEvent_undecided es st :
  Forall undecided es -> fold_left onEvent es st = st.
Proof.
  intros H. revert st. induction H as [|e es He _ IH]; intros st; [reflexivity|].
  simpl. rewrite <- (IH st) at 2. f_equal.
  destruct e as [text isFinal| |]; simpl in He; try contradiction.
  destruct st as [finalText settled]. simpl. rewrite He. reflexivity.
Qed.

Lemma onEvent_settled es finalText c :
  snd (fold_left onEvent es (finalText, Some c)) = Some c.
Proof.
  revert finalText. induction es as [|e es IH]; intros finalText; [reflexivity|].
  simpl. destruct e as [text isFinal| |]; simpl.
  - destruct (isFinal && Js.truthy text); apply IH.
  - apply IH.
  - destruct (negb (Js.truthy finalText)); apply IH.
Qed.

(** X11: a turn waits for the first event that decides it, and nothing
    that happens later changes the outcome.  Interim results and results
    without text decide nothing; the first final result with text
    resolves the promise with that text, an error rejects it, and so does
    the 10 s timer with "Speech recognition timeout" if it fires first. *)
Theorem first_decisive_event_settles_the_turn :
  (forall es, Forall undecided es -> recognizedText es = None)
  /\ (forall before text after,
        Forall undecided before -> text <> [] ->
        recognizedText (before ++ Result text true :: after) = Some (Return text))
  /\ (forall before error after,
        Forall undecided before ->
        recognizedText (before ++ Error error :: after) = Some (Throw error))
  /\ (forall before after,
        Forall undecided before ->
        recognizedText (before ++ Timeout :: after)
        = Some (Throw (Js.lit "Speech recognition timeout")))
  /\ (forall es es' c, recognizedText es = Some c -> recognizedText (es ++ es') = Some c).
Proof.
  unfold recognizedText. split; [|split; [|split; [|split]]].
  - intros es H. rewrite (onEvent_undecided _ _ H). reflexivity.
  - intros before text after H Hne.
    rewrite fold_left_app, (onEvent_undecided _ _ H). simpl.
    destruct text; [contradiction|]. simpl. apply onEvent_settled.
  - intros before error after H.
    rewrite fold_left_app, (onEvent_undecided _ _ H). simpl. apply onEvent_settled.
  - intros before after H.
    rewrite fold_left_app, (onEvent_undecided _ _ H). simpl. apply onEvent_settled.
  - intros es es' c H. rewrite fold_left_app.
    destruct (fold_left onEvent es ([], None)) as [finalText settled]. simpl in H.
    subst settled. apply onEvent_settled.
Qed.

Lemma first_decisive_event_settles_the_turn_witness :
  recognizedText
    ([Result (Js.lit "hel") false; Result [] true]
       ++ Result (Js.lit "hello") true :: [Timeout; Error (Js.lit "aborted")])
  = Some (Return (Js.lit "hello")).
Proof.
  apply (proj1 (proj2 first_decisive_event_settles_the_turn)).
  - repeat constructor.
  - discriminate.
Defined.

End ConversationMore.

(** ** Keyboard navigation *)

Section HighlighterMore.

Import Highlighter.

Local Open Scope Z_scope.

Lemma indexOfFrom_range i x l :
  indexOfFrom i x l = -1 \/ (i <= indexOfFrom i x l < i + Z.of_nat (List.length l)).
Proof.
  revert i; induction l as [|y l IH]; intros i; simpl; [left; reflexivity|].
  destruct (Nat.eqb y x); [right; lia|].
  destruct (IH (i + 1)) as [H|H]; [left; exact H | right; lia].
Qed.

(** In a list without repetition an element is found where it is. *)
Lemma indexOfFrom_unique i k x l :
  NoDup l -> nth_error l k = Some x -> indexOfFrom i x l = i + Z.of_nat k.
Proof.
  intros Hnd. revert i k. induction Hnd as [|y l Hy Hnd IH]; intros i k Hk.
  - destruct k; discriminate.
  - destruct k as [|k]; simpl in *.
    + injection Hk as ->. rewrite Nat.eqb_refl. lia.
    + destruct (Nat.eqb y x) eqn:E.
      * apply Nat.eqb_eq in E. subst. exfalso. apply Hy.
        eapply nth_error_In. exact Hk.
      * rewrite (IH (i + 1) k Hk). lia.
Qed.

Lemma indexOf_range x l : -1 <= indexOf x l < Z.of_nat (List.length l).
Proof.
  destruct x as [e|]; simpl; [|lia].
  destruct (indexOfFrom_range 0 e l); lia.
Qed.

Lemma at_some l i :
  0 <= i < Z.of_nat (List.length l) -> exists e, at_ l i = Some e /\ In e l.
Proof.
  intros H. unfold at_. destruct (i <? 0) eqn:E; [apply Z.ltb_lt in E; lia|].
  destruct (nth_error l (Z.to_nat i)) as [e|] eqn:En.
  - exists e. split; [reflexivity | eapply nth_error_In; exact En].
  - apply nth_error_None in En. lia.
Qed.

(** X12: keyboard navigation never leaves the list: on a page with
    interactive elements every step, forward or backward, lands on one of
    them and highlights it, wrapping around at the ends; from no (or a
    vanished) highlight a step forward lands on the first element and a
    step backward on the last.  On a page without such elements it
    returns nothing and keeps the highlight. *)
Theorem navigation_lands_on_an_element :
  forall elements current,
    (elements = [] ->
     forall direction, navigateInteractive elements current direction = (None, current))
    /\ (elements <> [] ->
        forall direction,
        exists e, navigateInteractive elements current direction = (Some e, Some e)
                  /\ In e elements)
    /\ (indexOf current elements = -1 ->
        navigateInteractive elements current Next
        = (hd_error elements, match elements with [] => current | e :: _ => Some e end)
        /\ fst (navigateInteractive elements current Prev)
           = match elements with [] => None | _ => Some (last elements 0%nat) end).
Proof.
  intros elements current. split; [|split].
  - intros -> direction. unfold navigateInteractive.
    destruct direction, current; reflexivity.
  - intros Hne direction. unfold navigateInteractive.
    pose proof (indexOf_range current elements) as Hr.
    assert (Hlen : 0 < Z.of_nat (List.length elements))
      by (destruct elements; [contradiction | cbn [List.length]; lia]).
    match goal with
    | |- context [at_ elements ?i] =>
        assert (Hi : 0 <= i < Z.of_nat (List.length elements))
    end.
    { destruct direction.
      - destruct (indexOf current elements + 1 >=? Z.of_nat (List.length elements)) eqn:E; lia.
      - destruct (indexOf current elements - 1 <? 0) eqn:E; lia. }
    destruct (at_some _ _ Hi) as (e & He & Hin). rewrite He. eauto.
  - intros Hidx. unfold navigateInteractive. rewrite Hidx.
    destruct elements as [|e l]; [split; reflexivity|]. split.
    + replace (-1 + 1 >=? Z.of_nat (List.length (e :: l))) with false
        by (symmetry; rewrite Z.geb_leb; apply Z.leb_gt; cbn [List.length]; lia).
      reflexivity.
    + change (-1 - 1 <? 0) with true. cbv iota.
      assert (Hat : at_ (e :: l) (Z.of_nat (List.length (e :: l)) - 1)
                    = Some (last (e :: l) 0%nat)).
      { unfold at_.
        replace (Z.of_nat (List.length (e :: l)) - 1 <? 0) with false
          by (symmetry; apply Z.ltb_ge; cbn [List.length]; lia).
        replace (Z.to_nat (Z.of_nat (List.length (e :: l)) - 1))
          with (List.length l) by (cbn [List.length]; lia).
        destruct (@exists_last _ (e :: l)) as (l' & x & Hx); [discriminate|].
        rewrite Hx, last_last.
        assert (Hl : List.length l = List.length l').
        { apply (f_equal (@List.length _)) in Hx. rewrite length_app in Hx.
          simpl in Hx. lia. }
        rewrite Hl, nth_error_app2, Nat.sub_diag by lia. reflexivity. }
      rewrite Hat. reflexivity.
Qed.

Lemma navigation_lands_on_an_element_witness :
  exists e, navigateInteractive [4; 7; 9]%nat (Some 9%nat) Next = (Some e, Some e)
            /\ In e [4; 7; 9]%nat.
Proof.
  apply (proj1 (proj2 (navigation_lands_on_an_element [4; 7; 9]%nat (Some 9%nat)))).
  discriminate.
Defined.

Lemma navigate_index elements e i direction :
  NoDup elements ->
  nth_error elements i = Some e ->
  let n := List.length elements in
  let j := match direction with
           | Next => if (S i <? n)%nat then S i else 0%nat
           | Prev => match i with O => (n - 1)%nat | S i' => i' end
           end in
  exists e', navigateInteractive elements (Some e) direction = (Some e', Some e')
             /\ nth_error elements j = Some e'.
Proof.
  intros Hnd Hi n j.
  assert (Hlt : (i < n)%nat) by (apply nth_error_Some; rewrite Hi; discriminate).
  assert (Hj : (j < n)%nat).
  { unfold j. destruct direction.
    - destruct (S i <? n)%nat eqn:E; [apply Nat.ltb_lt in E; exact E | lia].
    - destruct i; lia. }
  destruct (nth_error elements j) as [e'|] eqn:Ej;
    [|apply nth_error_None in Ej; unfold n in Hj; lia].
  exists e'. split; [|reflexivity].
  unfold navigateInteractive, indexOf. rewrite (indexOfFrom_unique 0 i e elements Hnd Hi).
  assert (Hat : forall k, k = Z.of_nat j -> at_ elements k = Some e').
  { intros k ->. unfold at_.
    replace (Z.of_nat j <? 0) with false by (symmetry; apply Z.ltb_ge; lia).
    rewrite Nat2Z.id. exact Ej. }
  rewrite Hat; [reflexivity|]. unfold j. fold n. destruct direction.
  - destruct (S i <? n)%nat eqn:E.
    + apply Nat.ltb_lt in E.
      replace (0 + Z.of_nat i + 1 >=? Z.of_nat n) with false
        by (symmetry; rewrite Z.geb_leb; apply Z.leb_gt; lia).
      lia.
    + apply Nat.ltb_ge in E.
      replace (0 + Z.of_nat i + 1 >=? Z.of_nat n) with true
        by (symmetry; rewrite Z.geb_leb; apply Z.leb_le; lia).
      reflexivity.
  - destruct i as [|i'].
    + change (0 + Z.of_nat 0 - 1 <? 0) with true. cbv iota. lia.
    + replace (0 + Z.of_nat (S i') - 1 <? 0) with false
        by (symmetry; apply Z.ltb_ge; lia).
      lia.
Qed.

(** X13: on a page whose interactive elements are distinct, a step
    forward followed by a step backward returns to the highlighted
    element, and so does a step backward followed by a step forward, also
    across the ends of the list. *)
Theorem navigation_round_trip :
  forall elements e,
    NoDup elements ->
    In e elements ->
    navigateInteractive elements (snd (navigateInteractive elements (Some e) Next)) Prev
    = (Some e, Some e)
    /\ navigateInteractive elements (snd (navigateInteractive elements (Some e) Prev)) Next
       = (Some e, Some e).
Proof.
  intros elements e Hnd Hin.
  destruct (In_nth_error _ _ Hin) as (i & Hi).
  assert (Hlt : (i < List.length elements)%nat)
    by (apply nth_error_Some; rewrite Hi; discriminate).
  split.
  - destruct (navigate_index elements e i Next Hnd Hi) as (e1 & -> & H1). simpl snd.
    destruct (navigate_index elements e1 _ Prev Hnd H1) as (e2 & -> & H2).
    assert (e2 = e) as ->; [|reflexivity].
    destruct (S i <? List.length elements)%nat eqn:E.
    + simpl in H2. congruence.
    + apply Nat.ltb_ge in E. simpl in H2.
      replace (List.length elements - 1)%nat with i in H2 by lia. congruence.
  - destruct (navigate_index elements e i Prev Hnd Hi) as (e1 & -> & H1). simpl snd.
    destruct (navigate_index elements e1 _ Next Hnd H1) as (e2 & -> & H2).
    assert (e2 = e) as ->; [|reflexivity].
    destruct i as [|i'].
    + simpl in H2.
      replace (S (List.length elements - 1) <? List.length elements)%nat with false in H2
        by (symmetry; apply Nat.ltb_ge; lia).
      congruence.
    + simpl in H2.
      replace (S i' <? List.length elements)%nat with true in H2
        by (symmetry; apply Nat.ltb_lt; lia).
      congruence.
Qed.

Lemma navigation_round_trip_witness :
  navigateInteractive [4; 7; 9]%nat
    (snd (navigateInteractive [4; 7; 9]%nat (Some 9%nat) Next)) Prev
  = (Some 9%nat, Some 9%nat)
  /\ navigateInteractive [4; 7; 9]%nat
       (snd (navigateInteractive [4; 7; 9]%nat (Some 9%nat) Prev)) Next
     = (Some 9%nat, Some 9%nat).
Proof.
  apply navigation_round_trip.
  - repeat constructor; simpl; intuition discriminate.
  - simpl. tauto.
Defined.

End HighlighterMore.

(** ** The playback controller: invariants *)

Section FlagsMore.

Import Toolbar Playback.

Lemma keepsFlags_same w w' : flagsOf w' = flagsOf w -> keepsFlags w w'.
Proof.
  unfold keepsFlags, flagsConsistent, flagsOf. intros H. injection H as -> -> ->. auto.
Qed.

Lemma keepsFlags_trans w1 w2 w3 : keepsFlags w1 w2 -> keepsFlags w2 w3 -> keepsFlags w1 w3.
Proof. unfold keepsFlags. auto. Qed.

Lemma loopFrom_flags caller signal remaining i w :
  flagsOf (fst (loopFrom caller signal remaining i w)) = flagsOf w.
Proof.
  unfold loopFrom.
  repeat match goal with |- context [if ?b then _ else _] => destruct b end; reflexivity.
Qed.

Lemma speakFromCurrentPosition_flags caller signal w :
  flagsOf (fst (speakFromCurrentPosition caller signal w)) = flagsOf w.
Proof.
  unfold speakFromCurrentPosition.
  destruct (_ =? 0)%nat; [reflexivity | apply loopFrom_flags].
Qed.

Lemma afterSpeak_flags caller signal remaining i g c w :
  flagsOf (fst (afterSpeak caller signal remaining i g c w)) = flagsOf w.
Proof.
  unfold afterSpeak.
  destruct c as [[]|message]; [destruct (aborted signal w)|]; simpl;
    try reflexivity;
    try (destruct (_ || _); [reflexivity | rewrite loopFrom_flags; reflexivity]).
Qed.

Lemma afterGap_flags caller signal remaining i w :
  flagsOf (fst (afterGap caller signal remaining i w)) = flagsOf w.
Proof.
  unfold afterGap. destruct (_ || _); [reflexivity | apply loopFrom_flags].
Qed.

(** However a call ends, it leaves consistent flags behind. *)
Lemma readText_end_flags id c w : flagsConsistent (toolbar (readText_end id c w)).
Proof.
  unfold readText_end, flagsConsistent.
  destruct c as [[]|message]; [|destruct (_ || _)]; split; reflexivity.
Qed.

Lemma resumeReading_end_flags id c w : flagsConsistent (toolbar (resumeReading_end id c w)).
Proof.
  unfold resumeReading_end, flagsConsistent.
  destruct c as [[]|message]; [|destruct (_ || _)]; split; reflexivity.
Qed.

Lemma conclude_flags caller id p w :
  flagsOf (fst p) = flagsOf w -> keepsFlags w (conclude caller id p).
Proof.
  intros H. destruct p as [w' [k|c]]; simpl in *.
  - apply keepsFlags_same. exact H.
  - intros _. destruct caller; [apply readText_end_flags | apply resumeReading_end_flags].
Qed.

Lemma readText_speak_flags id signal w : keepsFlags w (readText_speak id signal w).
Proof.
  unfold readText_speak. destruct (aborted signal w).
  - intros _. apply readText_end_flags.
  - apply conclude_flags, speakFromCurrentPosition_flags.
Qed.

Lemma readText_translated_flags id text selection signal t w :
  keepsFlags w (readText_translated id text selection signal t w).
Proof.
  destruct (readText_translated_cases id text selection signal t w)
    as [[_ ->]|[[_ ->]|(_ & _ & ->)]].
  - eapply keepsFlags_trans; [|apply readText_speak_flags].
    apply keepsFlags_same. reflexivity.
  - eapply keepsFlags_trans; [|apply readText_speak_flags].
    apply keepsFlags_same. reflexivity.
  - intros _. apply readText_end_flags.
Qed.

Lemma readText_begin_flags id text selection w : flagsConsistent (toolbar (readText_begin id text selection w)).
Proof.
  unfold readText_begin, newAbortController.
  match goal with |- context [if aborted ?s ?x then _ else _] => destruct (aborted s x) end.
  - apply readText_end_flags.
  - destruct (negb _).
    + destruct (Azure.translateText_start _ _ _ _); split; reflexivity.
    + apply readText_speak_flags. split; reflexivity.
Qed.

Lemma readText_flags id text selection w : keepsFlags w (readText id text selection w).
Proof.
  unfold readText.
  destruct (negb (Js.truthy text)); [apply keepsFlags_same; reflexivity|].
  destruct (isTranslating (toolbar w)); [apply keepsFlags_same; reflexivity|].
  destruct (_ || _); [|intros _; apply readText_begin_flags].
  unfold stopReading_begin.
  destruct (abortController (toolbar w)); apply keepsFlags_same; reflexivity.
Qed.

Lemma resumeReading_flags id w : keepsFlags w (resumeReading id w).
Proof.
  unfold resumeReading.
  destruct (_ || _); [apply keepsFlags_same; reflexivity|].
  unfold newAbortController.
  intros _. apply conclude_flags with (w := fst (newAbortController
    (showStatus "Resuming..." "info"
       (onToolbar (fun t => setLastReadTime (clock w)
          (setIsTranslating true (setIsPaused false (setIsReading true t)))) w)))).
  - apply speakFromCurrentPosition_flags.
  - split; reflexivity.
Qed.

Lemma resume_flags id k s w : keepsFlags w (resume id k s w).
Proof.
  destruct k as [text selection|text selection|text selection signal toLang started|caller signal remaining i g
                |caller signal remaining i g];
    destruct s as [|r|c]; simpl; try destruct started; simpl;
    first [ apply keepsFlags_same; reflexivity
          | intros _; split; reflexivity
          | intros _; apply readText_begin_flags
          | apply readText_translated_flags
          | apply conclude_flags, afterSpeak_flags
          | apply conclude_flags, afterGap_flags
          | idtac ].
  destruct (Azure.translateWithAzureDirect _ _ _ _ _ _) as [c [t|message]].
  - eapply keepsFlags_trans; [|apply readText_translated_flags].
    apply keepsFlags_same. reflexivity.
  - intros _. apply readText_end_flags.
Qed.

Lemma step_flags w e : keepsFlags w (step w e).
Proof.
  destruct e; simpl; unfold call;
    try (apply keepsFlags_same; reflexivity).
  - eapply keepsFlags_trans; [|apply readText_flags].
    apply keepsFlags_same. reflexivity.
  - unfold toggleReading. simpl.
    destruct (isReading (toolbar w)); [intros _; split; reflexivity|].
    destruct (_ && _).
    + eapply keepsFlags_trans; [|apply resumeReading_flags].
      apply keepsFlags_same. reflexivity.
    + destruct (Js.truthy _); [|apply keepsFlags_same; reflexivity].
      eapply keepsFlags_trans; [|apply readText_flags].
      apply keepsFlags_same. reflexivity.
  - intros _. split; reflexivity.
  - eapply keepsFlags_trans; [|apply resumeReading_flags].
    apply keepsFlags_same. reflexivity.
  - unfold handleTextSelection.
    repeat match goal with |- context [if ?b then _ else _] => destruct b end;
      apply keepsFlags_same; reflexivity.
  - unfold textInputSubmit. destruct (Js.truthy _); apply keepsFlags_same; reflexivity.
  - unfold textInputSubmit. destruct (Js.truthy _); apply keepsFlags_same; reflexivity.
  - destruct (lookupTask id (tasks w)); [apply resume_flags | apply keepsFlags_same; reflexivity].
  - unfold settingsUpdated. destruct language as [l|]; [destruct (Js.truthy l)|];
      apply keepsFlags_same; reflexivity.
  - destruct (lookupTurn id (turns w)); [|apply keepsFlags_same; reflexivity].
    apply keepsFlags_same. unfold flagsOf. rewrite resumeTurn_toolbar. reflexivity.
Qed.

(** X14: in every state the controller can reach, [isReading] and
    [isTranslating] have the same value and a paused session is not
    reading; every step keeps it so.  Hence [readText] is turned away
    with "Please wait - translation in progress" not only during a
    translation but as long as a reading is under way. *)
Theorem reading_flags_stay_consistent :
  (forall language password es,
      flagsConsistent (toolbar (run (newWorld language password) es)))
  /\ (forall w e, flagsConsistent (toolbar w) -> flagsConsistent (toolbar (step w e)))
  /\ (forall w id text selection,
        flagsConsistent (toolbar w) ->
        isReading (toolbar w) = true ->
        text <> [] ->
        readText id text selection w
        = settle id (Return tt)
            (showStatus "Please wait - translation in progress" "info" w)).
Proof.
  split; [|split].
  - intros language password es.
    assert (H : forall w, flagsConsistent (toolbar w) -> flagsConsistent (toolbar (run w es))).
    { induction es as [|e es IH]; intros w Hw; [exact Hw|].
      simpl. apply IH, step_flags, Hw. }
    apply H. split; reflexivity.
  - intros w e. apply step_flags.
  - intros w id text selection [Hrt _] Hr Htext.
    apply readText_while_translating; [exact Htext | congruence].
Qed.

Lemma reading_flags_stay_consistent_witness :
  flagsConsistent
    (toolbar (step (run (newWorld Sample.fa Sample.password) Sample.pauseAfterSecond)
                CallResumeReading)).
Proof.
  apply (proj1 (proj2 reading_flags_stay_consistent)).
  apply (proj1 reading_flags_stay_consistent).
Defined.

End FlagsMore.


(** ** The playback controller: reading to the end *)

Section PlayMore.

Import Toolbar Playback.

Lemma skipn_nth {A : Type} (d : A) (l : list A) :
  forall i, (i < List.length l)%nat -> skipn i l = nth i l d :: skipn (S i) l.
Proof.
  induction l as [|a l IH]; intros [|i] H; simpl in *; try lia; [reflexivity|].
  apply IH. lia.
Qed.

Lemma run_cons w e es : run w (e :: es) = run (step w e) es.
Proof. reflexivity. Qed.

Lemma settle_finished id w :
  isReading (toolbar w) = false -> isTranslating (toolbar w) = false ->
  abortController (toolbar w) = None ->
  finished id (settle id (Return tt) w).
Proof.
  intros Hr Ht Ha. unfold finished, settle. simpl. repeat split; auto.
  - apply lookupTask_removed.
  - apply in_or_app. right. left. reflexivity.
Qed.

(** The loop returns: its caller finishes. *)
Lemma conclude_done caller id w :
  playedOut caller id [] w (conclude caller id (w, Done (Return tt))).
Proof.
  unfold playedOut, sameSession.
  destruct caller; simpl; (split; [|split]);
    try (rewrite ?app_nil_r; reflexivity);
    try (repeat split; reflexivity);
    apply settle_finished; reflexivity.
Qed.

(** One sentence: the speech engine plays it and the pause behind it ends. *)
Lemma loop_iteration caller id signal remaining i w :
  (i < List.length remaining)%nat ->
  isPaused (toolbar w) = false ->
  aborted signal w = false ->
  exists w2,
    run (conclude caller id (loopFrom caller signal remaining i w))
      [Settle id (Spoken (Return tt)); Settle id Tick]
    = conclude caller id (loopFrom caller signal remaining (S i) w2)
    /\ outputs w2 = outputs w ++ [SpeakText (nth i remaining []) (userLanguage (toolbar w))]
    /\ sameSession w w2
    /\ aborted signal w2 = false.
Proof.
  intros Hi Hp Ha.
  apply Nat.ltb_lt in Hi.
  set (g := (currentSentenceIndex (toolbar w) + Z.of_nat i)%Z).
  set (w1 := suspend id (AwaitSpeak caller signal remaining i g)
               (emit (SpeakText (nth i remaining []) (userLanguage (toolbar w))) w)).
  set (w2 := suspend id (AwaitGap caller signal remaining i g)
               (onToolbar (setIndex (g + 1)) w1)).
  exists w2.
  assert (E1 : conclude caller id (loopFrom caller signal remaining i w) = w1).
  { unfold loopFrom. rewrite Hi, Ha, Hp. reflexivity. }
  assert (E2 : step w1 (Settle id (Spoken (Return tt))) = w2).
  { unfold step. unfold w1 at 1. rewrite lookupTask_suspend.
    unfold resume, afterSpeak.
    replace (aborted signal w1) with false by (symmetry; exact Ha).
    reflexivity. }
  assert (E3 : step w2 (Settle id Tick)
               = conclude caller id (loopFrom caller signal remaining (S i) w2)).
  { unfold step. unfold w2 at 1. rewrite lookupTask_suspend.
    unfold resume, afterGap.
    replace (aborted signal w2) with false by (symmetry; exact Ha).
    replace (isPaused (toolbar w2)) with false by (symmetry; exact Hp).
    reflexivity. }
  rewrite E1, !run_cons, E2, E3.
  repeat split; try reflexivity; assumption.
Qed.

Lemma sameSession_trans w1 w2 w3 :
  sameSession w1 w2 -> sameSession w2 w3 -> sameSession w1 w3.
Proof.
  unfold sameSession. intros (A1 & A2 & A3 & A4 & A5) (B1 & B2 & B3 & B4 & B5).
  repeat split; congruence.
Qed.

(** From any position of the loop on, an uninterrupted playback hands
    every sentence that is left to the speech client and ends the call. *)
Lemma loopFrom_plays caller id signal remaining n :
  forall i w,
    (n + i = List.length remaining)%nat ->
    isPaused (toolbar w) = false ->
    aborted signal w = false ->
    let w' := run (conclude caller id (loopFrom caller signal remaining i w))
                (playThrough id (skipn i remaining)) in
    playedOut caller id (skipn i remaining) w w'
    /\ currentSentenceIndex (toolbar w') = 0%Z.
Proof.
  induction n as [|n IH]; intros i w Hn Hp Ha w'.
  - simpl in Hn. subst i. subst w'. rewrite skipn_all. simpl.
    unfold loopFrom. rewrite Nat.ltb_irrefl.
    destruct (conclude_done caller id (onToolbar (setIndex 0) w)) as (Ho & Hs & Hf).
    split; [split; [exact Ho | split; [exact Hs | exact Hf]]|].
    destruct caller; reflexivity.
  - assert (Hi : (i < List.length remaining)%nat) by lia.
    destruct (loop_iteration caller id signal remaining i w Hi Hp Ha)
      as (w2 & Erun & Eout & Hsame & Ha2).
    assert (Hp2 : isPaused (toolbar w2) = false).
    { destruct Hsame as (_ & _ & _ & _ & H5). congruence. }
    destruct (IH (S i) w2 ltac:(lia) Hp2 Ha2) as [(Ho & Hs & Hf) Hidx].
    subst w'. rewrite (@skipn_nth jsstring [] remaining i Hi).
    change (playThrough id (nth i remaining [] :: skipn (S i) remaining))
      with ([Settle id (Spoken (Return tt)); Settle id Tick]
              ++ playThrough id (skipn (S i) remaining)).
    unfold run in *. rewrite fold_left_app. rewrite Erun.
    split; [|exact Hidx].
    split; [|split; [exact (sameSession_trans _ _ _ Hsame Hs) | exact Hf]].
    rewrite Ho, Eout.
    destruct Hsame as (_ & -> & _). simpl. rewrite <- !app_assoc. reflexivity.
Qed.

Lemma speakFromCurrentPosition_plays caller id signal w :
  isPaused (toolbar w) = false ->
  aborted signal w = false ->
  let remaining :=
    Js.slice (translationSentences (toolbar w)) (currentSentenceIndex (toolbar w)) in
  let w' := run (conclude caller id (speakFromCurrentPosition caller signal w))
              (playThrough id remaining) in
  playedOut caller id remaining w w'
  /\ (remaining <> [] -> currentSentenceIndex (toolbar w') = 0%Z).
Proof.
  intros Hp Ha remaining w'. subst w'. unfold speakFromCurrentPosition. fold remaining.
  destruct remaining as [|s0 rest] eqn:E.
  - simpl. split; [apply conclude_done | congruence].
  - change (List.length (s0 :: rest) =? 0)%nat with false. cbv iota.
    destruct (loopFrom_plays caller id signal (s0 :: rest) (List.length (s0 :: rest))
                0%nat w ltac:(lia) Hp Ha) as [H1 H2].
    split; [exact H1 | intros _; exact H2].
Qed.

Lemma playedOut_spoken caller id l w w' :
  playedOut caller id l w w' -> spoken w' = spoken w ++ l.
Proof.
  intros (Ho & _). unfold spoken at 1. rewrite Ho, app_assoc, flat_map_app, spoken_app.
  destruct caller; simpl; rewrite app_nil_r; reflexivity.
Qed.

Lemma playedOut_statuses caller id l w w' :
  playedOut caller id l w w' ->
  statuses w'
  = statuses w ++ match caller with ReadText => [] | ResumeReading => [Js.lit "Completed"] end.
Proof.
  intros (Ho & _). unfold statuses at 1. rewrite Ho, !flat_map_app. f_equal.
  assert (H : forall lang,
            flat_map (fun o => match o with Status m _ => [m] | _ => [] end)
              (map (fun s => SpeakText s lang) l) = []).
  { intros lang. clear Ho. induction l as [|a l IH]; [reflexivity | exact IH]. }
  rewrite H. destruct caller; reflexivity.
Qed.

Lemma playedOut_fetched caller id l w w' :
  playedOut caller id l w w' -> fetched w' = fetched w.
Proof.
  intros (Ho & _). unfold fetched at 1. rewrite Ho, !flat_map_app.
  assert (H : forall lang,
            flat_map (fun o => match o with Fetch r => [Azure.req_text r] | _ => [] end)
              (map (fun s => SpeakText s lang) l) = []).
  { intros lang. clear Ho. induction l as [|a l IH]; [reflexivity | exact IH]. }
  rewrite H. destruct caller; simpl; rewrite app_nil_r; reflexivity.
Qed.

Lemma truthy_nonempty (text : jsstring) : text <> [] -> Js.truthy text = true.
Proof. destruct text; [contradiction | reflexivity]. Qed.

(** From rest, [readText] on an English page goes straight to the loop. *)
Lemma readText_english w text :
  text <> [] ->
  isTranslating (toolbar w) = false ->
  isReading (toolbar w) = false ->
  isPaused (toolbar w) = false ->
  userLanguage (toolbar w) = Js.lit "en" ->
  exists w2,
    step w (CallReadText text)
    = conclude ReadText (nextId w)
        (speakFromCurrentPosition ReadText (List.length (signals w)) w2)
    /\ outputs w2 = outputs w
    /\ client w2 = client w
    /\ userLanguage (toolbar w2) = userLanguage (toolbar w)
    /\ translationSentences (toolbar w2) = Segmenter.splitIntoSentences text
    /\ currentSentenceIndex (toolbar w2) = 0%Z
    /\ cachedTranslation (toolbar w2) = cachedTranslation (toolbar w)
    /\ isPaused (toolbar w2) = false
    /\ aborted (List.length (signals w)) w2 = false.
Proof.
  intros Htext Ht Hr Hp Hen.
  unfold step, call, readText. simpl.
  rewrite (truthy_nonempty _ Htext), Ht, Hr, Hp. simpl.
  unfold readText_begin.
  match goal with
  | |- context [newAbortController ?x] =>
      pose proof (newAbortController_fresh x) as Hfresh;
      destruct (newAbortController x) as [w2 signal] eqn:Enew
  end.
  simpl in Hfresh. rewrite Hfresh.
  unfold newAbortController in Enew. injection Enew as <- <-.
  cbn [toolbar onToolbar setSignals userLanguage setAbortController setLastReadTime
       setIsPaused setIsReading setIsTranslating setFlags setNextId].
  rewrite Hen. change (negb (Js.eqb (Js.lit "en") (Js.lit "en"))) with false. cbv iota.
  unfold readText_speak.
  match goal with |- context [if aborted ?s ?x then _ else _] =>
    replace (aborted s x) with false by (symmetry; exact Hfresh);
    exists x
  end.
  split; [reflexivity|].
  repeat split; first [reflexivity | exact Hen | exact Hfresh].
Qed.

(** X17: an English page that is read without interruption is read to the
    end.  From rest, [readText] cuts the text into sentences, hands each
    of them to the speech client in order, sends nothing to the
    translator, shows no status and ends with the flags down. *)
Theorem english_text_is_read_through w text :
  text <> [] ->
  isTranslating (toolbar w) = false ->
  isReading (toolbar w) = false ->
  isPaused (toolbar w) = false ->
  userLanguage (toolbar w) = Js.lit "en" ->
  let sentences := Segmenter.splitIntoSentences text in
  let w' := run w (CallReadText text :: playThrough (nextId w) sentences) in
  spoken w' = spoken w ++ sentences
  /\ fetched w' = fetched w
  /\ statuses w' = statuses w
  /\ translationSentences (toolbar w') = sentences
  /\ finished (nextId w) w'.
Proof.
  intros Htext Ht Hr Hp Hen sentences w'.
  destruct (readText_english w text Htext Ht Hr Hp Hen)
    as (w2 & Estep & Hout & Hcl & Hlang & Hsent & Hidx & Hcache & Hp2 & Ha2).
  destruct (speakFromCurrentPosition_plays ReadText (nextId w) _ w2 Hp2 Ha2) as [Hplay _].
  rewrite Hsent, Hidx, slice_zero in Hplay. fold sentences in Hplay.
  subst w'. rewrite run_cons, Estep.
  set (w' := run _ _) in *.
  split; [|split; [|split; [|split]]].
  - rewrite (playedOut_spoken _ _ _ _ _ Hplay). unfold spoken. rewrite Hout. reflexivity.
  - rewrite (playedOut_fetched _ _ _ _ _ Hplay). unfold fetched. rewrite Hout. reflexivity.
  - rewrite (playedOut_statuses _ _ _ _ _ Hplay). unfold statuses.
    rewrite Hout. apply app_nil_r.
  - destruct Hplay as (_ & (_ & _ & -> & _) & _). exact Hsent.
  - destruct Hplay as (_ & _ & Hf). exact Hf.
Qed.

Lemma english_text_is_read_through_witness :
  let w := newWorld Sample.en None in
  let w' := run w (CallReadText (Js.lit "A. B.")
                     :: playThrough 0 (Segmenter.splitIntoSentences (Js.lit "A. B."))) in
  spoken w' = [Js.lit "A."; Js.lit "B."]
  /\ fetched w' = []
  /\ statuses w' = []
  /\ translationSentences (toolbar w') = [Js.lit "A."; Js.lit "B."]
  /\ finished 0 w'.
Proof.
  apply (english_text_is_read_through (newWorld Sample.en None) (Js.lit "A. B."));
    [discriminate | reflexivity | reflexivity | reflexivity | reflexivity].
Defined.

(** From rest, [readText] for a reader of another language waits for
    [translateText] and goes to the loop with what it returns. *)
Lemma readText_translation_arrives w text r c' t reqs :
  text <> [] ->
  isTranslating (toolbar w) = false ->
  isReading (toolbar w) = false ->
  isPaused (toolbar w) = false ->
  userLanguage (toolbar w) <> Js.lit "en" ->
  Azure.translateText (client w) text (Js.lit "en") (userLanguage (toolbar w)) r
  = (c', Return t, reqs) ->
  exists w2,
    run w [CallReadText text;
           answer (nextId w)
             (Azure.translateText_start (client w) text (Js.lit "en")
                (userLanguage (toolbar w))) r]
    = conclude ReadText (nextId w)
        (speakFromCurrentPosition ReadText (List.length (signals w)) w2)
    /\ outputs w2 = outputs w ++ map Fetch reqs
    /\ client w2 = c'
    /\ userLanguage (toolbar w2) = userLanguage (toolbar w)
    /\ translationSentences (toolbar w2) = Segmenter.splitIntoSentences t
    /\ currentSentenceIndex (toolbar w2) = 0%Z
    /\ cachedTranslation (toolbar w2) = Some t
    /\ cachedOriginalText (toolbar w2) = Some text
    /\ isPaused (toolbar w2) = false
    /\ aborted (List.length (signals w)) w2 = false.
Proof.
  intros Htext Ht Hr Hp Hlang Htr.
  rewrite run_cons.
  assert (E1 : exists w1,
             step w (CallReadText text)
             = suspend (nextId w)
                 (AwaitTranslate text None (List.length (signals w))
                    (userLanguage (toolbar w))
                    (Azure.translateText_start (client w) text (Js.lit "en")
                       (userLanguage (toolbar w)))) w1
             /\ outputs w1
                = outputs w ++ match Azure.translateText_start (client w) text (Js.lit "en")
                                       (userLanguage (toolbar w)) with
                               | Azure.Remote _ =>
                                   [Fetch {| Azure.req_text := text; Azure.req_from := Js.lit "en";
                                             Azure.req_to := userLanguage (toolbar w) |}]
                               | _ => []
                               end
             /\ client w1 = client w
             /\ userLanguage (toolbar w1) = userLanguage (toolbar w)
             /\ isPaused (toolbar w1) = false
             /\ aborted (List.length (signals w)) w1 = false).
  { unfold step, call, readText. simpl.
    rewrite (truthy_nonempty _ Htext), Ht, Hr, Hp. simpl.
    unfold readText_begin.
    match goal with
    | |- context [newAbortController ?x] =>
        pose proof (newAbortController_fresh x) as Hfresh;
        destruct (newAbortController x) as [w2 signal] eqn:Enew
    end.
    simpl in Hfresh. rewrite Hfresh.
    unfold newAbortController in Enew. injection Enew as <- <-. simpl.
    apply js_eqb_neq in Hlang. rewrite Hlang. simpl.
    destruct (Azure.translateText_start (client w) text _ (userLanguage (toolbar w))) eqn:Es;
      eexists; (split; [reflexivity|]); simpl;
      repeat split; first [reflexivity | symmetry; apply app_nil_r | exact Hfresh]. }
  destruct E1 as (w1 & E1 & Hout1 & Hcl1 & Hlang1 & Hp1 & Ha1).
  rewrite E1. unfold run, fold_left, step.
  unfold Azure.translateText in Htr.
  destruct (Azure.translateText_start (client w) text (Js.lit "en") (userLanguage (toolbar w)))
    as [v|v|key] eqn:Es; unfold answer; rewrite lookupTask_suspend; unfold resume.
  - injection Htr as <- <- <-.
    unfold readText_translated, readText_speak.
    match goal with |- context [if aborted ?s ?x then _ else _] =>
      replace (aborted s x) with false by (symmetry; exact Ha1); exists x end.
    split; [reflexivity|].
    repeat split; first [reflexivity | assumption].
  - injection Htr as <- <- <-.
    unfold readText_translated, readText_speak.
    match goal with |- context [if aborted ?s ?x then _ else _] =>
      replace (aborted s x) with false by (symmetry; exact Ha1); exists x end.
    split; [reflexivity|].
    repeat split; first [reflexivity | assumption].
  - change (client (suspend (nextId w)
              (AwaitTranslate text None (List.length (signals w)) (userLanguage (toolbar w))
                 (Azure.Remote key)) w1))
      with (client w1).
    rewrite Hcl1.
    destruct (Azure.translateWithAzureDirect (client w) text (Js.lit "en")
                (userLanguage (toolbar w)) key r) as [c res] eqn:Ed.
    injection Htr as <- -> <-.
    unfold readText_translated, readText_speak.
    match goal with |- context [if aborted ?s ?x then _ else _] =>
      replace (aborted s x) with false by (symmetry; exact Ha1); exists x end.
    split; [reflexivity|].
    repeat split; first [reflexivity | assumption].
Qed.

Lemma run_app w es es' : run w (es ++ es') = run (run w es) es'.
Proof. apply fold_left_app. Qed.

(** X18: for a reader of another language, [readText] plays what
    [translateText] returns.  From rest and without interruption, the
    sentences of the translation go to the speech client in order; the
    translator gets the requests of [translateText] and no other, the
    client is the one [translateText] leaves, the translation is kept for
    resuming, no status is shown and the call ends with the flags down. *)
Theorem translation_is_read_through w text r c' t reqs :
  text <> [] ->
  isTranslating (toolbar w) = false ->
  isReading (toolbar w) = false ->
  isPaused (toolbar w) = false ->
  userLanguage (toolbar w) <> Js.lit "en" ->
  Azure.translateText (client w) text (Js.lit "en") (userLanguage (toolbar w)) r
  = (c', Return t, reqs) ->
  let sentences := Segmenter.splitIntoSentences t in
  let w' := run w (CallReadText text
                     :: answer (nextId w)
                          (Azure.translateText_start (client w) text (Js.lit "en")
                             (userLanguage (toolbar w))) r
                     :: playThrough (nextId w) sentences) in
  spoken w' = spoken w ++ sentences
  /\ fetched w' = fetched w ++ map Azure.req_text reqs
  /\ statuses w' = statuses w
  /\ client w' = c'
  /\ cachedTranslation (toolbar w') = Some t
  /\ translationSentences (toolbar w') = sentences
  /\ finished (nextId w) w'.
Proof.
  intros Htext Ht Hr Hp Hlang Htr sentences w'.
  destruct (readText_translation_arrives w text r c' t reqs Htext Ht Hr Hp Hlang Htr)
    as (w2 & Erun & Hout & Hcl & Hlang2 & Hsent & Hidx & Hcache & _ & Hp2 & Ha2).
  destruct (speakFromCurrentPosition_plays ReadText (nextId w) _ w2 Hp2 Ha2) as [Hplay _].
  rewrite Hsent, Hidx, slice_zero in Hplay. fold sentences in Hplay.
  subst w'.
  match goal with |- context [run w (?a :: ?b :: ?l)] =>
    change (run w (a :: b :: l)) with (run w ([a; b] ++ l))
  end.
  rewrite run_app, Erun.
  set (w' := run _ _) in *.
  assert (Hnone : forall reqs' : list Azure.Request,
            flat_map (fun o => match o with SpeakText s _ => [s] | _ => [] end)
              (map Fetch reqs') = []
            /\ flat_map (fun o => match o with Status m _ => [m] | _ => [] end)
                 (map Fetch reqs') = []
            /\ flat_map (fun o => match o with Fetch q => [Azure.req_text q] | _ => [] end)
                 (map Fetch reqs') = map Azure.req_text reqs').
  { induction reqs' as [|q l (IH1 & IH2 & IH3)]; simpl; [auto|].
    rewrite IH3. auto. }
  destruct (Hnone reqs) as (N1 & N2 & N3).
  split; [|split; [|split; [|split; [|split; [|split]]]]].
  - rewrite (playedOut_spoken _ _ _ _ _ Hplay). unfold spoken.
    rewrite Hout, flat_map_app, N1, app_nil_r. reflexivity.
  - rewrite (playedOut_fetched _ _ _ _ _ Hplay). unfold fetched.
    rewrite Hout, flat_map_app, N3. reflexivity.
  - rewrite (playedOut_statuses _ _ _ _ _ Hplay). unfold statuses.
    rewrite Hout, flat_map_app, N2, !app_nil_r. reflexivity.
  - destruct Hplay as (_ & (-> & _) & _). exact Hcl.
  - destruct Hplay as (_ & (_ & _ & _ & -> & _) & _). exact Hcache.
  - destruct Hplay as (_ & (_ & _ & -> & _) & _). exact Hsent.
  - destruct Hplay as (_ & _ & Hf). exact Hf.
Qed.

Lemma translation_is_read_through_witness :
  let w := newWorld Sample.fa Sample.password in
  let w' := run w (CallReadText (Js.lit "text")
                     :: Sample.translated 0 (Js.lit "A. B. C.")
                     :: playThrough 0 [Js.lit "A."; Js.lit "B."; Js.lit "C."]) in
  spoken w' = [Js.lit "A."; Js.lit "B."; Js.lit "C."]
  /\ fetched w' = [Js.lit "text"].
Proof.
  pose proof (translation_is_read_through (newWorld Sample.fa Sample.password)
                (Js.lit "text") (Azure.Ok (Some (Js.lit "A. B. C.")))
                (fst (fst (Azure.translateText (Azure.newClient Sample.password)
                             (Js.lit "text") (Js.lit "en") Sample.fa
                             (Azure.Ok (Some (Js.lit "A. B. C."))))))
                (Js.lit "A. B. C.")
                [{| Azure.req_text := Js.lit "text"; Azure.req_from := Js.lit "en";
                    Azure.req_to := Sample.fa |}]) as H.
  destruct H as (H1 & H2 & _);
    [discriminate | reflexivity | reflexivity | reflexivity
    | intros E; vm_compute in E; discriminate E | vm_compute; reflexivity | ].
  split; [exact H1 | exact H2].
Defined.

(** The first step of [resumeReading] when there is something to resume. *)
Lemma resumeReading_starts w :
  truthyOpt (cachedTranslation (toolbar w)) = true ->
  translationSentences (toolbar w) <> [] ->
  exists w2,
    step w CallResumeReading
    = conclude ResumeReading (nextId w)
        (speakFromCurrentPosition ResumeReading (List.length (signals w)) w2)
    /\ outputs w2 = outputs w ++ [Status (Js.lit "Resuming...") (Js.lit "info")]
    /\ client w2 = client w
    /\ userLanguage (toolbar w2) = userLanguage (toolbar w)
    /\ translationSentences (toolbar w2) = translationSentences (toolbar w)
    /\ currentSentenceIndex (toolbar w2) = currentSentenceIndex (toolbar w)
    /\ cachedTranslation (toolbar w2) = cachedTranslation (toolbar w)
    /\ isPaused (toolbar w2) = false
    /\ aborted (List.length (signals w)) w2 = false.
Proof.
  intros Hc Hs.
  unfold step, call, resumeReading.
  cbn [toolbar setNextId cachedTranslation translationSentences].
  rewrite Hc.
  destruct (translationSentences (toolbar w)) as [|s0 rest] eqn:E; [contradiction|].
  change (negb true || (List.length (s0 :: rest) =? 0)%nat) with false. cbv iota.
  match goal with
  | |- context [newAbortController ?x] =>
      pose proof (newAbortController_fresh x) as Hfresh;
      destruct (newAbortController x) as [w2 signal] eqn:Enew
  end.
  unfold newAbortController in Enew. injection Enew as <- <-.
  simpl in Hfresh.
  eexists. split; [reflexivity|].
  repeat split; first [reflexivity | exact E | exact Hfresh].
Qed.

(** X19: [resumeReading] plays what is left of the stored sentences.  With
    a translation kept and without interruption, it shows "Resuming...",
    hands the sentences from the stored position on to the speech client
    in order, shows "Completed", sends nothing to the translator and ends
    with the flags down and the position back at 0. *)
Theorem resume_plays_the_rest w :
  truthyOpt (cachedTranslation (toolbar w)) = true ->
  translationSentences (toolbar w) <> [] ->
  let remaining :=
    Js.slice (translationSentences (toolbar w)) (currentSentenceIndex (toolbar w)) in
  let w' := run w (CallResumeReading :: playThrough (nextId w) remaining) in
  spoken w' = spoken w ++ remaining
  /\ statuses w' = statuses w ++ [Js.lit "Resuming..."; Js.lit "Completed"]
  /\ fetched w' = fetched w
  /\ (remaining <> [] -> currentSentenceIndex (toolbar w') = 0%Z)
  /\ isPaused (toolbar w') = false
  /\ finished (nextId w) w'.
Proof.
  intros Hc Hs remaining w'.
  destruct (resumeReading_starts w Hc Hs)
    as (w2 & Estep & Hout & Hcl & Hlang & Hsent & Hidx & Hcache & Hp2 & Ha2).
  destruct (speakFromCurrentPosition_plays ResumeReading (nextId w) _ w2 Hp2 Ha2)
    as [Hplay Hzero].
  rewrite Hsent, Hidx in Hplay, Hzero. fold remaining in Hplay, Hzero.
  subst w'. rewrite run_cons, Estep.
  set (w' := run _ _) in *.
  split; [|split; [|split; [|split; [|split]]]].
  - rewrite (playedOut_spoken _ _ _ _ _ Hplay). unfold spoken.
    rewrite Hout, flat_map_app. simpl. rewrite app_nil_r. reflexivity.
  - rewrite (playedOut_statuses _ _ _ _ _ Hplay). unfold statuses.
    rewrite Hout, flat_map_app. simpl. rewrite <- app_assoc. reflexivity.
  - rewrite (playedOut_fetched _ _ _ _ _ Hplay). unfold fetched.
    rewrite Hout, flat_map_app. simpl. rewrite app_nil_r. reflexivity.
  - exact Hzero.
  - destruct Hplay as (_ & (_ & _ & _ & _ & ->) & _). exact Hp2.
  - destruct Hplay as (_ & _ & Hf). exact Hf.
Qed.

Lemma resume_plays_the_rest_witness :
  let w := run (newWorld Sample.fa Sample.password)
             [CallReadText (Js.lit "text"); Sample.translated 0 (Js.lit "A. B. C.");
              CallPauseReading; Sample.spokenOk 0; Sample.gapOver 0] in
  let w' := run w (CallResumeReading
                     :: playThrough 1 [Js.lit "B."; Js.lit "C."]) in
  currentSentenceIndex (toolbar w) = 1%Z
  /\ spoken w = [Js.lit "A."]
  /\ spoken w' = [Js.lit "A."; Js.lit "B."; Js.lit "C."].
Proof.
  pose proof (resume_plays_the_rest
                (run (newWorld Sample.fa Sample.password)
                   [CallReadText (Js.lit "text"); Sample.translated 0 (Js.lit "A. B. C.");
                    CallPauseReading; Sample.spokenOk 0; Sample.gapOver 0])) as H.
  destruct H as (H1 & _); [vm_compute; reflexivity | vm_compute; discriminate | ].
  split; [vm_compute; reflexivity | split; [vm_compute; reflexivity | exact H1]].
Defined.

End PlayMore.

(** ** The playback controller: pausing *)

Section PauseMore.

Import Toolbar Playback.

Lemma spoken_status m k w : spoken (showStatus m k w) = spoken w.
Proof. unfold spoken. simpl. rewrite flat_map_app. simpl. apply app_nil_r. Qed.

(** However the loop ends, its caller hands nothing to the speech client. *)
Lemma conclude_spoken caller id w p :
  spoken (conclude caller id (w, p)) = spoken w.
Proof.
  destruct p as [k|c]; [reflexivity|].
  destruct caller, c as [[]|message]; simpl;
    unfold readText_end, resumeReading_end;
    try match goal with |- context [if ?b then _ else _] => destruct b end;
    unfold spoken; simpl; rewrite ?flat_map_app; simpl; rewrite ?app_nil_r; reflexivity.
Qed.

Lemma readText_end_spoken id c w : spoken (readText_end id c w) = spoken w.
Proof. exact (conclude_spoken ReadText id w (Done c)). Qed.

(** A paused loop goes no further. *)
Lemma loopFrom_paused caller signal remaining i w :
  isPaused (toolbar w) = true ->
  exists z c, loopFrom caller signal remaining i w = (onToolbar (setIndex z) w, Done c).
Proof.
  intros Hp. unfold loopFrom. rewrite Hp, orb_true_r.
  destruct (_ <? _)%nat; eauto.
Qed.

Lemma conclude_paused_loop caller id signal remaining i w :
  isPaused (toolbar w) = true ->
  let w' := conclude caller id (loopFrom caller signal remaining i w) in
  spoken w' = spoken w /\ isPaused (toolbar w') = true /\ finished id w'.
Proof.
  intros Hp w'. subst w'.
  destruct (loopFrom_paused caller signal remaining i w Hp) as (z & c & ->).
  split; [rewrite conclude_spoken; reflexivity|].
  destruct caller, c as [[]|message]; simpl;
    unfold readText_end, resumeReading_end;
    try match goal with |- context [if ?b then _ else _] => destruct b end;
    (split; [exact Hp | apply settle_finished; reflexivity]).
Qed.

Lemma conclude_paused_speak caller id signal w :
  isPaused (toolbar w) = true ->
  spoken (conclude caller id (speakFromCurrentPosition caller signal w)) = spoken w.
Proof.
  intros Hp. unfold speakFromCurrentPosition.
  destruct (_ =? 0)%nat; [apply conclude_spoken|].
  apply (conclude_paused_loop caller id signal _ 0 w Hp).
Qed.

Lemma readText_translated_paused id text selection signal t w :
  isPaused (toolbar w) = true ->
  spoken (readText_translated id text selection signal t w) = spoken w.
Proof.
  intros Hp.
  assert (H : forall w1, isPaused (toolbar w1) = true ->
                         spoken (readText_speak id signal w1) = spoken w1).
  { intros w1 Hp1. unfold readText_speak. destruct (aborted signal w1).
    - apply readText_end_spoken.
    - apply conclude_paused_speak, Hp1. }
  destruct (readText_translated_cases id text selection signal t w)
    as [[_ ->]|[[_ ->]|(_ & _ & ->)]].
  - rewrite H; [reflexivity | exact Hp].
  - rewrite H; [reflexivity | exact Hp].
  - rewrite readText_end_spoken. reflexivity.
Qed.

(** X20: while the reader is paused, no sentence goes to the speech
    client, whatever the speech engine, the translator or a timer answers
    to a call of the reader that is under way; a translation that arrives during the
    pause is not played.  The loop ends at its next test: once the pause
    between two sentences is over, the call is finished and the reader is
    still paused.  (The one call that does go on is a new [readText],
    which has ended the pause before it waits 100 ms.) *)
Theorem nothing_is_spoken_while_paused w id s :
  isPaused (toolbar w) = true ->
  (forall text selection, lookupTask id (tasks w) <> Some (AwaitDelay100 text selection)) ->
  spoken (step w (Settle id s)) = spoken w
  /\ (forall caller signal remaining i g,
        lookupTask id (tasks w) = Some (AwaitGap caller signal remaining i g) ->
        isPaused (toolbar (step w (Settle id Tick))) = true
        /\ finished id (step w (Settle id Tick))).
Proof.
  intros Hp Hno. split.
  - unfold step. destruct (lookupTask id (tasks w)) as [k|] eqn:E; [|reflexivity].
    destruct k as [text selection|text selection|text selection signal toLang started|caller signal remaining i g
                  |caller signal remaining i g];
      destruct s as [|r|c]; try reflexivity.
    + simpl. unfold spoken. simpl. rewrite flat_map_app. simpl. apply app_nil_r.
    + exfalso. apply (Hno text selection). reflexivity.
    + destruct started; try reflexivity; simpl; apply readText_translated_paused, Hp.
    + destruct started; try reflexivity. unfold resume.
      destruct (Azure.translateWithAzureDirect _ _ _ _ _ _) as [c [t|message]].
      * rewrite readText_translated_paused; [reflexivity | exact Hp].
      * rewrite readText_end_spoken. reflexivity.
    + destruct started; reflexivity.
    + unfold resume, afterSpeak.
      destruct c as [[]|message]; [destruct (aborted signal w)|].
      * apply conclude_spoken.
      * rewrite conclude_spoken. reflexivity.
      * destruct (_ || _); [apply conclude_spoken|].
        apply (conclude_paused_loop caller id signal remaining (S i)
                 (onToolbar (setIndex (g + 1)) w) Hp).
    + unfold resume, afterGap. rewrite Hp, orb_true_r. apply conclude_spoken.
  - intros caller signal remaining i g E. unfold step. rewrite E.
    unfold resume, afterGap. rewrite Hp, orb_true_r.
    destruct caller; simpl; unfold readText_end, resumeReading_end; simpl;
      (split; [exact Hp | apply settle_finished; reflexivity]).
Qed.

Lemma nothing_is_spoken_while_paused_witness :
  let w := run (newWorld Sample.fa Sample.password)
             [CallReadText (Js.lit "text"); CallPauseReading] in
  spoken (step w (Sample.translated 0 (Js.lit "A. B. C."))) = [].
Proof.
  pose proof (nothing_is_spoken_while_paused
                (run (newWorld Sample.fa Sample.password)
                   [CallReadText (Js.lit "text"); CallPauseReading])
                0 (Translation (Azure.Ok (Some (Js.lit "A. B. C."))))) as H.
  destruct H as (H1 & _);
    [reflexivity | intros text selection; vm_compute; discriminate | exact H1].
Defined.

End PauseMore.

(** ** A second [readText] while the first awaits its translation *)

Section SecondCall.

Import Toolbar Playback.



(** *** An aborted signal stays aborted *)






















(** *** What a translation that arrives does *)








End SecondCall.

(** ** The playback controller: what it shows and requests *)

Section OutputsMore.

Import Toolbar Playback.

Lemma emitsAllowed_trans e w1 w2 w3 :
  emitsAllowed e w1 w2 -> emitsAllowed e w2 w3 -> emitsAllowed e w1 w3.
Proof.
  intros [L1 [l1 [E1 A1]]] [L2 [l2 [E2 A2]]]. split; [congruence|].
  exists (l1 ++ l2). split.
  - rewrite E2, E1, app_assoc. reflexivity.
  - rewrite forallb_app, A1. rewrite L1 in A2. rewrite A2. reflexivity.
Qed.

Lemma emitsAllowed_same e w w' :
  userLanguage (toolbar w') = userLanguage (toolbar w) ->
  outputs w' = outputs w -> emitsAllowed e w w'.
Proof.
  intros L E. split; [exact L|]. exists []. rewrite app_nil_r. split; [exact E | reflexivity].
Qed.

Lemma emitsAllowed_emit e w w' o :
  userLanguage (toolbar w') = userLanguage (toolbar w) ->
  outputs w' = outputs w ++ [o] ->
  allowed e (userLanguage (toolbar w)) o = true ->
  emitsAllowed e w w'.
Proof.
  intros L E A. split; [exact L|]. exists [o]. split; [exact E | simpl; rewrite A; reflexivity].
Qed.

Lemma emitsAllowed_weaken e w w' : emitsAllowed false w w' -> emitsAllowed e w w'.
Proof.
  intros [L [l [E A]]]. split; [exact L|]. exists l. split; [exact E|].
  clear E. induction l as [|o l IH]; [reflexivity|].
  simpl in *. apply andb_prop in A. destruct A as [Ho Hl]. rewrite (IH Hl), andb_true_r.
  destruct o; simpl in *; try assumption.
  rewrite Ho. apply orb_true_r.
Qed.

Ltac same := apply emitsAllowed_same; reflexivity.
Ltac emits := eapply emitsAllowed_emit; reflexivity.
Ltac after H := eapply emitsAllowed_trans; [| apply H].

Lemma loopFrom_outputs caller signal remaining i w :
  emitsAllowed false w (fst (loopFrom caller signal remaining i w))
  /\ benignProgress (snd (loopFrom caller signal remaining i w)) = true.
Proof.
  unfold loopFrom.
  repeat match goal with |- context [if ?b then _ else _] => destruct b end;
    (split; [first [same | emits] | reflexivity]).
Qed.

Lemma speakFromCurrentPosition_outputs caller signal w :
  emitsAllowed false w (fst (speakFromCurrentPosition caller signal w))
  /\ benignProgress (snd (speakFromCurrentPosition caller signal w)) = true.
Proof.
  unfold speakFromCurrentPosition.
  destruct (_ =? 0)%nat; [split; [same | reflexivity] | apply loopFrom_outputs].
Qed.

Lemma afterSpeak_outputs caller signal remaining i g c w :
  emitsAllowed false w (fst (afterSpeak caller signal remaining i g c w))
  /\ benignProgress (snd (afterSpeak caller signal remaining i g c w)) = true.
Proof.
  unfold afterSpeak.
  destruct c as [[]|message]; [destruct (aborted signal w)|]; simpl.
  - split; [same | reflexivity].
  - split; [same | reflexivity].
  - destruct (_ || _) eqn:E.
    + split; [same | exact E].
    + destruct (loopFrom_outputs caller signal remaining (S i)
                  (onToolbar (setIndex (g + 1)) w)) as [H1 H2].
      split; [|exact H2]. after H1. same.
Qed.

Lemma afterGap_outputs caller signal remaining i w :
  emitsAllowed false w (fst (afterGap caller signal remaining i w))
  /\ benignProgress (snd (afterGap caller signal remaining i w)) = true.
Proof.
  unfold afterGap. destruct (_ || _); [split; [same | reflexivity] | apply loopFrom_outputs].
Qed.

Lemma readText_end_outputs id c w :
  match c with
  | Return _ => True
  | Throw m => Js.eqb m readingCancelled || Js.eqb m speechStopped || Js.eqb m speechPaused = true
  end ->
  emitsAllowed false w (readText_end id c w).
Proof.
  unfold readText_end. destruct c as [[]|message]; [intros _; same|].
  intros ->. same.
Qed.

Lemma resumeReading_end_outputs id c w :
  benign c = true -> emitsAllowed false w (resumeReading_end id c w).
Proof.
  unfold resumeReading_end, benign. destruct c as [[]|message]; [intros _; emits|].
  intros H. rewrite orb_comm in H. rewrite H. same.
Qed.

Lemma conclude_outputs caller id p w :
  emitsAllowed false w (fst p) -> benignProgress (snd p) = true ->
  emitsAllowed false w (conclude caller id p).
Proof.
  destruct p as [w' [k|c]]; simpl; intros H B;
    (apply emitsAllowed_trans with (w2 := w'); [exact H|]).
  - same.
  - destruct caller.
    + apply readText_end_outputs. destruct c as [[]|message]; [exact I|].
      simpl in B. rewrite <- orb_assoc, B. apply orb_true_r.
    + apply resumeReading_end_outputs, B.
Qed.

Lemma readText_speak_outputs id signal w : emitsAllowed false w (readText_speak id signal w).
Proof.
  unfold readText_speak. destruct (aborted signal w).
  - apply readText_end_outputs. reflexivity.
  - apply conclude_outputs; apply speakFromCurrentPosition_outputs.
Qed.

Lemma readText_translated_outputs id text selection signal t w :
  emitsAllowed (tooltipFails selection w) w
    (readText_translated id text selection signal t w).
Proof.
  destruct (readText_translated_cases id text selection signal t w)
    as [[-> ->]|[[_ ->]|((Hsel & Hs) & Hg & ->)]].
  - after readText_speak_outputs. same.
  - apply emitsAllowed_weaken. after readText_speak_outputs. same.
  - unfold tooltipFails. destruct selection; [|contradiction]. rewrite Hg, Hs. simpl.
    eapply emitsAllowed_emit; reflexivity.
Qed.

Lemma readText_begin_outputs id text selection w : emitsAllowed false w (readText_begin id text selection w).
Proof.
  unfold readText_begin, newAbortController.
  match goal with |- context [if aborted ?s ?x then _ else _] => destruct (aborted s x) end.
  - after readText_end_outputs; [same | reflexivity].
  - destruct (negb _) eqn:E.
    + destruct (Azure.translateText_start _ _ _ _); try same.
      eapply emitsAllowed_emit; [reflexivity | reflexivity | exact E].
    + after readText_speak_outputs. same.
Qed.

Lemma stopReading_begin_outputs w : emitsAllowed false w (stopReading_begin w).
Proof. unfold stopReading_begin. destruct (abortController (toolbar w)); emits. Qed.

Lemma readText_outputs id text selection w : emitsAllowed false w (readText id text selection w).
Proof.
  unfold readText.
  destruct (negb (Js.truthy text)); [same|].
  destruct (isTranslating (toolbar w)); [emits|].
  destruct (_ || _); [|apply readText_begin_outputs].
  after stopReading_begin_outputs. same.
Qed.

Lemma pauseReading_outputs w : emitsAllowed false w (pauseReading w).
Proof.
  unfold pauseReading.
  apply emitsAllowed_trans with (w2 := emit PauseSpeaking w); emits.
Qed.

Lemma resumeReading_outputs id w : emitsAllowed false w (resumeReading id w).
Proof.
  unfold resumeReading.
  destruct (_ || _); [same|].
  unfold newAbortController.
  eapply emitsAllowed_trans;
    [|apply conclude_outputs; apply speakFromCurrentPosition_outputs].
  emits.
Qed.

Lemma toggleReading_outputs id w : emitsAllowed false w (toggleReading id w).
Proof.
  unfold toggleReading.
  destruct (isReading (toolbar w)); [apply pauseReading_outputs|].
  destruct (_ && _); [apply resumeReading_outputs|].
  destruct (Js.truthy _); [apply readText_outputs | emits].
Qed.

Lemma call_outputs f w :
  (forall id w, emitsAllowed false w (f id w)) -> emitsAllowed false w (call f w).
Proof. intros H. unfold call. after H. same. Qed.

Lemma resume_outputs id k s w :
  emitsAllowed (tooltipFailsFor k w) w (resume id k s w).
Proof.
  destruct k as [text selection|text selection|text selection signal toLang started
                |caller signal remaining i g|caller signal remaining i g];
    destruct s as [|r|c]; simpl; try destruct started; simpl;
    first [ same
          | apply readText_begin_outputs
          | apply readText_translated_outputs
          | apply conclude_outputs; apply afterSpeak_outputs
          | apply conclude_outputs; apply afterGap_outputs
          | idtac ].
  - apply emitsAllowed_trans with (w2 := stopReading_end w); [emits | same].
  - unfold Azure.translateWithAzureDirect.
    destruct (Azure.azureDirect_try _ _ _ _) as [c [t|message]];
      exact (readText_translated_outputs id text selection signal _ (setClient c w)).
Qed.

(** A turn shows no status. *)
Lemma resumeTurn_statuses id k s w : statuses (resumeTurn id k s w) = statuses w.
Proof.
  destruct k as [speaker|speaker|speaker text|speaker text fromLang toLang started
                |speaker|speaker];
    destruct s as [c|c|c|r| |c]; simpl;
    try destruct c as [?|?]; try destruct started; simpl; try reflexivity;
    unfold turn_translate, turn_translated, turn_catch, statuses;
    repeat match goal with
           | |- context [match ?x with _ => _ end] => destruct x
           end;
    simpl; rewrite ?flat_map_app; simpl; rewrite ?app_nil_r; reflexivity.
Qed.

Lemma step_outputs w e :
  readerEvent e = true -> emitsAllowed (tooltipFailsAt w e) w (step w e).
Proof.
  intros He. destruct e; try discriminate He; simpl; try same.
  - apply call_outputs. intros. apply readText_outputs.
  - apply call_outputs. intros. apply toggleReading_outputs.
  - apply pauseReading_outputs.
  - apply call_outputs. intros. apply resumeReading_outputs.
  - unfold handleTextSelection.
    destruct (negb _); [same|].
    destruct (_ <? _)%nat.
    + match goal with |- context [if ?b then _ else _] => destruct b end.
      * eapply emitsAllowed_trans with
          (w2 := showStatus "Selection too large - limited to ~5 paragraphs" "error"
                   (onToolbar (setSelectedText (Js.substring0 MAX_CHARS (Js.trim selected))) w));
          emits.
      * eapply emitsAllowed_trans with
          (w2 := showStatus "Selection too large - limited to ~5 paragraphs" "error"
                   (onToolbar (setSelectedText (Js.substring0 MAX_CHARS (Js.trim selected))) w));
          emits.
    + match goal with |- context [if ?b then _ else _] => destruct b end; emits.
  - unfold textInputSubmit. destruct (Js.truthy _); [emits | same].
  - unfold textInputSubmit. destruct (Js.truthy _); [emits | same].
  - unfold googleDocsTextSelected. emits.
  - destruct (lookupTask id (tasks w)); [apply resume_outputs | same].
  - unfold call, handleTeacherSpeak, turn_begin. emits.
  - unfold call, handleStudentSpeak, turn_begin. emits.
Qed.

Lemma statuses_app w l :
  flat_map (fun o => match o with Status m _ => [m] | _ => [] end) (outputs w ++ l)
  = statuses w ++ flat_map (fun o => match o with Status m _ => [m] | _ => [] end) l.
Proof. unfold statuses. apply flat_map_app. Qed.

Lemma allowed_statuses language l m :
  forallb (allowed false language) l = true ->
  In m (flat_map (fun o => match o with Status m _ => [m] | _ => [] end) l) ->
  errorStatus m = false.
Proof.
  induction l as [|o l IH]; simpl; [tauto|].
  intros H. apply andb_prop in H. destruct H as [Ho Hl].
  rewrite in_app_iff. intros [Hin|Hin]; [|exact (IH Hl Hin)].
  destruct o; simpl in Hin; try tauto.
  destruct Hin as [<-|[]]. simpl in Ho. apply negb_true_iff, Ho.
Qed.

Lemma allowed_fetched e l :
  forallb (allowed e (Js.lit "en")) l = true ->
  flat_map (fun o => match o with Fetch r => [Azure.req_text r] | _ => [] end) l = [].
Proof.
  induction l as [|o l IH]; simpl; [reflexivity|].
  intros H. apply andb_prop in H. destruct H as [Ho Hl].
  rewrite (IH Hl). destruct o; try reflexivity. discriminate Ho.
Qed.

(** When the tooltip cannot be placed, [readText] ends in its [catch]
    block with the translation kept and nothing spoken. *)
Lemma readText_translated_fails id text s signal t w :
  rangeCount (window w) = 0%nat ->
  googleDocsActive (window w) = false ->
  let w' := readText_translated id text (Some s) signal t w in
  outputs w' = outputs w ++ [Status (Js.lit "Error reading text") (Js.lit "error")]
  /\ cachedTranslation (toolbar w') = Some t
  /\ translationSentences (toolbar w') = Segmenter.splitIntoSentences t
  /\ isReading (toolbar w') = false
  /\ isTranslating (toolbar w') = false
  /\ tooltip w' = None
  /\ In (id, Return tt) (settled w').
Proof.
  intros Hs Hg w'. subst w'. unfold readText_translated.
  change (googleDocsActive (window (onToolbar ?f w))) with (googleDocsActive (window w)).
  rewrite Hg. unfold showTranslationTooltip.
  change (rangeCount (window (onToolbar ?f w))) with (rangeCount (window w)).
  rewrite Hs. simpl.
  repeat split. apply in_or_app. right. left. reflexivity.
Qed.

(** X15: the reader reports an error only when the tooltip cannot be
    placed.  Of the two messages "Error reading text" and "Error resuming"
    the second is never shown, and the first only by a [readText] whose
    translation arrives for a call that came with a selection without a
    range while the Google Docs adapter is not active: a failed
    translation request or a failed sentence never shows either.  In that
    case the translation is kept, the status "Error reading text" is
    shown, nothing is spoken and the call ends with the flags down. *)
Theorem reading_error_comes_from_the_tooltip :
  (forall w e, exists l,
      statuses (step w e) = statuses w ++ l
      /\ forall m, In m l -> errorStatus m = true ->
                   tooltipFailsAt w e = true /\ m = Js.lit "Error reading text")
  /\ (forall w id text s signal t,
        rangeCount (window w) = 0%nat ->
        googleDocsActive (window w) = false ->
        let w' := readText_translated id text (Some s) signal t w in
        statuses w' = statuses w ++ [Js.lit "Error reading text"]
        /\ spoken w' = spoken w
        /\ cachedTranslation (toolbar w') = Some t
        /\ isReading (toolbar w') = false
        /\ isTranslating (toolbar w') = false
        /\ tooltip w' = None
        /\ In (id, Return tt) (settled w')).
Proof.
  split.
  - intros w e.
    assert (Hquiet : forall w', statuses w' = statuses w ->
              exists l, statuses w' = statuses w ++ l
                        /\ forall m, In m l -> errorStatus m = true ->
                             tooltipFailsAt w e = true /\ m = Js.lit "Error reading text").
    { intros w' H. exists []. rewrite app_nil_r. split; [exact H | intros m []]. }
    destruct (readerEvent e) eqn:He.
    + destruct (tooltipFailsAt w e) eqn:Hf.
      * (* the tooltip fails *)
        destruct e; try discriminate Hf. simpl in Hf |- *.
        destruct (lookupTask id (tasks w)) as [k|]; [|discriminate Hf].
        destruct k as [text selection|text selection|text selection signal toLang started
                      |caller signal remaining i g|caller signal remaining i g];
          try discriminate Hf.
        simpl in Hf. destruct selection as [sel|]; [|discriminate Hf].
        apply andb_prop in Hf. destruct Hf as [Hg Hs].
        apply negb_true_iff in Hg. apply Nat.eqb_eq in Hs.
        assert (Hfail : forall t w1, googleDocsActive (window w1) = false ->
                  rangeCount (window w1) = 0%nat ->
                  statuses w1 = statuses w ->
                  exists l, statuses (readText_translated id text (Some sel) signal t w1)
                            = statuses w ++ l
                            /\ forall m, In m l -> errorStatus m = true ->
                                 true = true /\ m = Js.lit "Error reading text").
        { intros t w1 Hg1 Hs1 H1.
          destruct (readText_translated_fails id text sel signal t w1 Hs1 Hg1) as (Ho & _).
          exists [Js.lit "Error reading text"]. split.
          - unfold statuses at 1. rewrite Ho, flat_map_app. simpl. rewrite <- H1. reflexivity.
          - intros m [<-|[]] _. split; reflexivity. }
        destruct started as [v|v|key], s as [|r|c]; simpl;
          try (apply Hquiet; reflexivity);
          try (apply Hfail; [exact Hg | exact Hs | reflexivity]).
        unfold Azure.translateWithAzureDirect.
        destruct (Azure.azureDirect_try _ _ _ _) as [c [t|message]];
          (apply Hfail; [exact Hg | exact Hs | reflexivity]).
      * destruct (step_outputs w e He) as [_ [l [E A]]]. rewrite Hf in A.
        exists (flat_map (fun o => match o with Status m _ => [m] | _ => [] end) l).
        split.
        -- unfold statuses at 1. rewrite E. apply statuses_app.
        -- intros m Hin Herr. rewrite (allowed_statuses _ _ _ A Hin) in Herr.
           discriminate Herr.
    + destruct e; try discriminate He; simpl.
      * apply Hquiet. unfold settingsUpdated.
        destruct language as [l|]; [destruct (Js.truthy l)|]; reflexivity.
      * apply Hquiet. reflexivity.
      * apply Hquiet. destruct (lookupTurn id (turns w)); [|reflexivity].
        apply resumeTurn_statuses.
  - intros w id text s signal t Hs Hg w'.
    destruct (readText_translated_fails id text s signal t w Hs Hg)
      as (Ho & Hc & _ & Hr & Ht & Htip & Hin).
    fold w' in Ho, Hc, Hr, Ht, Htip, Hin.
    repeat split; try assumption.
    + unfold statuses at 1. rewrite Ho, flat_map_app. reflexivity.
    + unfold spoken at 1. rewrite Ho, flat_map_app. simpl. apply app_nil_r.
Qed.

Lemma reading_error_comes_from_the_tooltip_witness :
  let w := run (newWorld Sample.fa Sample.password)
             [TextInputEnter (Js.lit "Hello."); CallToggleReading] in
  let w' := readText_translated 0 (Js.lit "Hello.") (Some DocumentSelection) 0
              (Js.lit "Salaam.") w in
  statuses w' = statuses w ++ [Js.lit "Error reading text"]
  /\ spoken w' = spoken w
  /\ cachedTranslation (toolbar w') = Some (Js.lit "Salaam.")
  /\ isReading (toolbar w') = false
  /\ isTranslating (toolbar w') = false
  /\ tooltip w' = None
  /\ In (0%nat, Return tt) (settled w').
Proof.
  apply (proj2 reading_error_comes_from_the_tooltip
           (run (newWorld Sample.fa Sample.password)
              [TextInputEnter (Js.lit "Hello."); CallToggleReading])
           0%nat (Js.lit "Hello.") DocumentSelection 0%nat (Js.lit "Salaam."));
    reflexivity.
Defined.

(** The run of the witness: text from the text box, the play button, and
    the translation arrives; the page has no selection with a range. *)
Lemma text_box_reading_fails_at_the_tooltip :
  let w := run (newWorld Sample.fa Sample.password) Sample.textBoxPlay in
  fetched w = [Js.lit "Hello."]
  /\ last (statuses w) [] = Js.lit "Error reading text"
  /\ spoken w = []
  /\ cachedTranslation (toolbar w) = Some (Js.lit "Salaam.")
  /\ tasks w = [].
Proof. vm_compute. repeat split. Qed.

(** X16: while the language is "en", no call of the reader sends a
    translation request: every step that is not the continuation of a
    conversation turn leaves the requests as they are.  A turn of the
    teacher does send one: [handleTeacherSpeak] calls [translateText]
    whatever the language is. *)
Theorem english_reader_sends_no_request :
  (forall w e,
      userLanguage (toolbar w) = Js.lit "en" ->
      (forall id s, e <> SettleTurn id s) ->
      fetched (step w e) = fetched w)
  /\ (forall w id text key,
        lookupTurn id (turns w) = Some (AwaitRecognitionStopped Teacher text) ->
        Azure.translateText_start (client w) text (Js.lit "en") (userLanguage (toolbar w))
        = Azure.Remote key ->
        fetched (step w (SettleTurn id (RecognitionStopped (Return tt))))
        = fetched w ++ [text]).
Proof.
  split.
  - intros w e Hen Hturn.
    destruct (readerEvent e) eqn:He.
    + destruct (step_outputs w e He) as [_ [l [E A]]].
      unfold fetched. rewrite E, flat_map_app. rewrite Hen in A.
      rewrite (allowed_fetched _ _ A). apply app_nil_r.
    + destruct e; try discriminate He; simpl.
      * unfold settingsUpdated.
        destruct language as [l|]; [destruct (Js.truthy l)|]; reflexivity.
      * reflexivity.
      * exfalso. apply (Hturn id s). reflexivity.
  - intros w id text key Hk Hstart. simpl. rewrite Hk. simpl.
    unfold turn_translate. simpl. rewrite Hstart.
    unfold fetched. simpl. rewrite flat_map_app. reflexivity.
Qed.

Lemma english_reader_sends_no_request_witness :
  let w := run (newWorld Sample.en Sample.password)
             [CallTeacherSpeak; SettleTurn 0 (Recognizer (Return tt));
              SettleTurn 0 (FinalText (Return (Js.lit "Good morning.")))] in
  fetched (step w (CallReadText (Js.lit "A. B."))) = fetched w
  /\ fetched (step w (SettleTurn 0 (RecognitionStopped (Return tt))))
     = fetched w ++ [Js.lit "Good morning."].
Proof.
  split.
  - apply (proj1 english_reader_sends_no_request); [reflexivity | discriminate].
  - apply (proj2 english_reader_sends_no_request) with
      (key := Azure.cacheKey (Js.lit "Good morning.") (Js.lit "en") (Js.lit "en"));
      reflexivity.
Defined.

End OutputsMore.

(** ** The playback controller: English sessions *)

Section EnglishMore.

Import Toolbar Playback.

Lemma forallb_filter {A : Type} (f g : A -> bool) (l : list A) :
  forallb f l = true -> forallb f (filter g l) = true.
Proof.
  induction l as [|a l IH]; simpl; [reflexivity|].
  intros H. apply andb_prop in H. destruct H as [Ha Hl].
  destruct (g a); simpl; [rewrite Ha|]; auto.
Qed.

Lemma lookupTask_notTranslate id l k :
  forallb notTranslate l = true -> lookupTask id l = Some k -> notTranslate (0%nat, k) = true.
Proof.
  induction l as [|[i k'] l IH]; simpl; [discriminate|].
  intros H. apply andb_prop in H. destruct H as [Ha Hl].
  destruct (Nat.eqb i id); [|exact (IH Hl)].
  intros E. injection E as <-. exact Ha.
Qed.

Lemma english_frame w w' :
  userLanguage (toolbar w') = userLanguage (toolbar w) ->
  cachedTranslation (toolbar w') = cachedTranslation (toolbar w) ->
  tasks w' = tasks w ->
  englishSession w -> englishSession w'.
Proof. unfold englishSession. intros -> -> ->. auto. Qed.

Lemma english_suspend id k w :
  notTranslate (0%nat, k) = true -> englishSession w -> englishSession (suspend id k w).
Proof.
  intros Hk (L & C & T). repeat split; try assumption.
  simpl. unfold removeTask. rewrite forallb_app, (forallb_filter _ _ _ T). simpl.
  unfold notTranslate in *. simpl in *. rewrite Hk. reflexivity.
Qed.

Lemma english_settle id c w : englishSession w -> englishSession (settle id c w).
Proof.
  intros (L & C & T). repeat split; try assumption.
  simpl. unfold removeTask. apply forallb_filter, T.
Qed.

Ltac framed := eapply english_frame; [reflexivity | reflexivity | reflexivity | ].

Lemma loopFrom_english caller signal remaining i w :
  englishSession w -> englishProgress (loopFrom caller signal remaining i w).
Proof.
  intros H. unfold loopFrom, englishProgress.
  repeat match goal with |- context [if ?b then _ else _] => destruct b end;
    simpl; (split; [framed; exact H | auto]).
Qed.

Lemma speakFromCurrentPosition_english caller signal w :
  englishSession w -> englishProgress (speakFromCurrentPosition caller signal w).
Proof.
  intros H. unfold speakFromCurrentPosition.
  destruct (_ =? 0)%nat; [split; [exact H | exact I] | apply loopFrom_english, H].
Qed.

Lemma afterSpeak_english caller signal remaining i g c w :
  englishSession w -> englishProgress (afterSpeak caller signal remaining i g c w).
Proof.
  intros H. unfold afterSpeak.
  destruct c as [[]|message]; [destruct (aborted signal w)|]; simpl.
  - split; [exact H | exact I].
  - split; [framed; exact H | reflexivity].
  - destruct (_ || _); [split; [exact H | exact I]|].
    apply loopFrom_english. framed. exact H.
Qed.

Lemma afterGap_english caller signal remaining i w :
  englishSession w -> englishProgress (afterGap caller signal remaining i w).
Proof.
  intros H. unfold afterGap.
  destruct (_ || _); [split; [exact H | exact I] | apply loopFrom_english, H].
Qed.

Lemma readText_end_english id c w : englishSession w -> englishSession (readText_end id c w).
Proof.
  intros H. unfold readText_end. apply english_settle.
  destruct c as [[]|message]; [|destruct (_ || _)]; framed; exact H.
Qed.

Lemma resumeReading_end_english id c w :
  englishSession w -> englishSession (resumeReading_end id c w).
Proof.
  intros H. unfold resumeReading_end. apply english_settle.
  destruct c as [[]|message]; [|destruct (_ || _)]; framed; exact H.
Qed.

Lemma conclude_english caller id p :
  englishProgress p -> englishSession (conclude caller id p).
Proof.
  destruct p as [w [k|c]]; intros [H K]; simpl in *.
  - apply english_suspend; assumption.
  - destruct caller; [apply readText_end_english | apply resumeReading_end_english]; exact H.
Qed.

Lemma readText_speak_english id signal w :
  englishSession w -> englishSession (readText_speak id signal w).
Proof.
  intros H. unfold readText_speak. destruct (aborted signal w).
  - apply readText_end_english, H.
  - apply conclude_english, speakFromCurrentPosition_english, H.
Qed.

Lemma readText_begin_english id text selection w :
  englishSession w -> englishSession (readText_begin id text selection w).
Proof.
  intros H. unfold readText_begin, newAbortController.
  match goal with |- context [if aborted ?s ?x then _ else _] => destruct (aborted s x) end.
  - apply readText_end_english. framed. exact H.
  - cbn [toolbar onToolbar setSignals userLanguage setAbortController setLastReadTime
         setIsPaused setIsReading setIsTranslating setFlags].
    destruct H as (L & C & T). rewrite L.
    change (negb (Js.eqb (Js.lit "en") (Js.lit "en"))) with false. cbv iota.
    apply readText_speak_english. repeat split; assumption.
Qed.

Lemma readText_english_session id text selection w :
  englishSession w -> englishSession (readText id text selection w).
Proof.
  intros H. unfold readText.
  destruct (negb (Js.truthy text)); [apply english_settle, H|].
  destruct (isTranslating (toolbar w)); [apply english_settle; framed; exact H|].
  destruct (_ || _); [|apply readText_begin_english, H].
  apply english_suspend; [reflexivity|].
  unfold stopReading_begin. destruct (abortController (toolbar w)); framed; exact H.
Qed.

Lemma resumeReading_english id w :
  englishSession w -> resumeReading id w = settle id (Return tt) w.
Proof.
  intros (_ & C & _). unfold resumeReading. rewrite C. reflexivity.
Qed.

Lemma resumeTurn_tasks id k s w : tasks (resumeTurn id k s w) = tasks w.
Proof.
  destruct k as [speaker|speaker|speaker text|speaker text fromLang toLang started
                |speaker|speaker];
    destruct s as [c|c|c|r| |c]; simpl;
    try destruct c as [?|?]; try destruct started; simpl; try reflexivity;
    unfold turn_translate, turn_translated;
    repeat match goal with
           | |- context [match ?x with _ => _ end] => destruct x
           end;
    reflexivity.
Qed.

Lemma step_english w e :
  keepsEnglish e = true -> englishSession w -> englishSession (step w e).
Proof.
  intros Hk H. destruct e; simpl; unfold call.
  - apply readText_english_session. framed. exact H.
  - unfold toggleReading.
    cbn [toolbar setNextId isReading isPaused cachedTranslation selectedText].
    destruct (isReading (toolbar w)); [unfold pauseReading; framed; exact H|].
    destruct H as (L & C & T). rewrite C. rewrite andb_false_r.
    destruct (Js.truthy _).
    + apply readText_english_session. repeat split; assumption.
    + repeat split; assumption.
  - unfold pauseReading. framed. exact H.
  - rewrite resumeReading_english; [|framed; exact H].
    apply english_settle. framed. exact H.
  - unfold handleTextSelection.
    repeat match goal with |- context [if ?b then _ else _] => destruct b end;
      try exact H; framed; exact H.
  - unfold textInputSubmit. destruct (Js.truthy _); [framed|]; exact H.
  - unfold textInputSubmit. destruct (Js.truthy _); [framed|]; exact H.
  - framed. exact H.
  - framed. exact H.
  - destruct (lookupTask id (tasks w)) as [k|] eqn:E; [|exact H].
    pose proof H as (L & C & T).
    pose proof (lookupTask_notTranslate _ _ _ T E) as Hn.
    destruct k as [text selection|text selection|text selection signal toLang started
                  |caller signal remaining i g|caller signal remaining i g];
      [| | discriminate Hn | |]; destruct s as [|r|c]; simpl; try exact H.
    + apply english_suspend; [reflexivity|].
      destruct H as (L' & C' & T'). repeat split; assumption.
    + apply readText_begin_english, H.
    + apply conclude_english, afterSpeak_english, H.
    + apply conclude_english, afterGap_english, H.
  - framed. exact H.
  - framed. exact H.
  - unfold settingsUpdated. destruct language as [l|]; [|exact H].
    simpl in Hk. destruct (Js.truthy l); [|exact H].
    simpl in Hk. apply js_eqb_spec in Hk. subst l.
    destruct H as (L & C & T). repeat split; assumption.
  - simpl in Hk. apply js_eqb_spec in Hk. subst value.
    destruct H as (L & C & T). repeat split; assumption.
  - unfold toggleAudioMode. framed. exact H.
  - framed. exact H.
  - unfold handleTeacherSpeak, turn_begin. framed. exact H.
  - unfold handleStudentSpeak, turn_begin. framed. exact H.
  - destruct (lookupTurn id (turns w)); [|exact H].
    destruct H as (L & C & T).
    unfold englishSession. rewrite resumeTurn_toolbar, resumeTurn_tasks. auto.
Qed.

Lemma run_english es :
  forall w, forallb keepsEnglish es = true -> englishSession w -> englishSession (run w es).
Proof.
  induction es as [|e es IH]; intros w Hk H; [exact H|].
  simpl in Hk. apply andb_prop in Hk. destruct Hk as [He Hes].
  simpl. apply IH; [exact Hes | apply step_english; assumption].
Qed.

(** X21: a session that stays English cannot resume.  [readText] keeps a
    translation only on the path that translates, so as long as the
    language is "en" from the start and no settings message or language
    selector makes it another one, [cachedTranslation] stays [null]
    whatever else happens: [resumeReading] returns at its first test
    without speaking or changing anything, and [toggleReading] never takes
    its resume branch: after a pause it calls [readText] with the selected
    text (or asks for a selection). *)
Theorem english_session_never_resumes password es :
  forallb keepsEnglish es = true ->
  let w := run (newWorld (Js.lit "en") password) es in
  cachedTranslation (toolbar w) = None
  /\ toolbar (step w CallResumeReading) = toolbar w
  /\ outputs (step w CallResumeReading) = outputs w
  /\ (isReading (toolbar w) = false ->
      step w CallToggleReading
      = if Js.truthy (selectedText (toolbar w))
        then call (fun id => readText id (selectedText (toolbar w)) (getSelection (window w))) w
        else showStatus "Please select some text first" "error"
               (setNextId (S (nextId w)) w)).
Proof.
  intros Hk w.
  assert (H : englishSession w).
  { apply run_english; [exact Hk | repeat split]. }
  pose proof H as (L & C & T).
  split; [exact C|]. split; [|split].
  - simpl. unfold call. rewrite resumeReading_english; [reflexivity|].
    framed. exact H.
  - simpl. unfold call. rewrite resumeReading_english; [reflexivity|].
    framed. exact H.
  - intros Hr. simpl. unfold call, toggleReading.
    cbn [toolbar setNextId isReading isPaused cachedTranslation selectedText].
    rewrite Hr, C, andb_false_r. reflexivity.
Qed.

Lemma english_session_never_resumes_witness :
  let w := run (newWorld (Js.lit "en") None)
             [CallReadText (Js.lit "A. B."); Sample.spokenOk 0; CallPauseReading;
              Sample.gapOver 0; LanguageSelected (Js.lit "en"); CallTeacherSpeak] in
  cachedTranslation (toolbar w) = None
  /\ toolbar (step w CallResumeReading) = toolbar w
  /\ outputs (step w CallResumeReading) = outputs w.
Proof.
  destruct (english_session_never_resumes None
              [CallReadText (Js.lit "A. B."); Sample.spokenOk 0; CallPauseReading;
               Sample.gapOver 0; LanguageSelected (Js.lit "en"); CallTeacherSpeak]
              ltac:(vm_compute; reflexivity)) as (H1 & H2 & H3 & _).
  split; [exact H1 | split; [exact H2 | exact H3]].
Defined.

End EnglishMore.

